(** * QueueMonitor: the monitoring core of [5_QueueMonitor.py]

    A shallow embedding of the [JVMThread] class (connection teardown,
    destination discovery, queue browsing, topic listeners, the monitor
    coordinator and its poll loop) and the properties of it that the design
    document states; then of the rest of the class (connecting, sending,
    one-shot topic subscription) and of the data handling of the tab (the
    messages table, the properties line), with further properties read off
    the code.

    Conventions of the embedding.
    - A method of [JVMThread] is a computation in the monad [Py]: it threads
      the object's attributes and either returns a value or raises.
    - Every call that crosses the JPype bridge into the JMS client has an
      _outcome_ supplied by the environment: [Ok v] when the call returns
      [v], [Raise e] when it raises an exception whose [str] is [e].  A call
      gets an outcome where the JMS API declares [JMSException] for it or
      where the source guards it with a handler of its own; [hasNext] of
      a [java.util] iterator and [hasattr] are plain tests.  The
      [hasMoreElements] test of an enumeration that the JMS client hands
      out may raise: in the loops over property names and map names it
      sits under the same handler as the loop body, and a raising entry of
      the list of names stands for a raise of either; in the browse loop
      it sits outside the handler of the body and is a step of its own.
    - Qt signals and bridge calls on the connection, the sessions, the
      browsers and the consumers are recorded, in order, in [trace]. *)

From stdpp Require Import base option list gmap sets strings pretty.
From Stdlib Require Import ZArith.

Open Scope string_scope.
Open Scope list_scope.
Open Scope Z_scope.
Open Scope nat_scope.

(** ** Outcomes of bridge calls *)

Inductive result (A : Type) : Type :=
  | Ok (a : A)
  | Raise (e : string).
Arguments Ok {A} a.
Arguments Raise {A} e.

(** ** Data model *)

(** The message record built by [browse_queue], [subscribe_to_topic] and
    [_on_topic_message]: the dict with keys ['id'], ['body'],
    ['properties'], ['destination'], ['type'], ['message_type'],
    ['timestamp']. *)
Record Message : Type := {
  msg_id : string;
  msg_body : string;
  msg_properties : gmap string string;
  msg_destination : string;
  msg_type : string;
  msg_message_type : string;
  msg_timestamp : Z
}.

(** A JMS message as seen through the bridge. *)
Record JMessage : Type := {
  getJMSMessageID : result string;
  getPropertyNames : result (list (result string));
  getStringProperty : string -> result string;
  getClassName : result string;
  hasattr_getText : bool;
  getText : result string;
  hasattr_toString : bool;
  toString : result string;
  py_str : result string;
  getJMSTimestamp : result Z
}.

(** A connection or session object; [close] is the outcome of its
    [close()]. *)
Record Handle : Type := {
  handle_id : nat;
  close : result unit
}.

(** A message consumer created on the broker. *)
Record Consumer : Type := {
  consumer_id : nat;
  consumer_topic : string;
  consumer_close : result unit
}.

Inductive Signal : Type :=
  | error_signal (text : string)
  | log_signal (text : string)
  | update_queues_signal (queues : list string)
  | update_topics_signal (topics : list string)
  | update_messages_signal (messages : list Message).

Inductive Event : Type :=
  | Emit (sg : Signal)
  | Call (method : string).

(** Python list objects that are reachable through more than one name live
    in [heap]; a [loc] is the identity of such an object. *)
Abbreviation loc := nat.

(** The attributes of a [JVMThread] object that the monitoring core reads
    or writes, followed by the world around it: the store of shared list
    objects, the consumers open on the broker, and the trace.

    [message_cache] holds its lists by value: a queue entry is always a list
    fresh from [browse_queue] that nothing mutates afterwards, and a topic
    entry is only ever reached through the cache. *)
Record JVMThread : Type := {
  connection : option Handle;
  session : option Handle;
  monitor_running : bool;
  message_cache : gmap string (list Message);
  topic_consumers : gmap string Consumer;
  monitored_queues : loc;
  monitored_topics : loc;
  _cached_queues : option (list string);
  _cached_topics : option (list string);
  heap : gmap loc (list string);
  broker_consumers : list Consumer;
  next_consumer : nat;
  threads_started : nat;
  trace : list Event
}.

Definition set_connection (v : option Handle) (s : JVMThread) : JVMThread :=
  {| connection := v; session := session s;
     monitor_running := monitor_running s; message_cache := message_cache s;
     topic_consumers := topic_consumers s;
     monitored_queues := monitored_queues s;
     monitored_topics := monitored_topics s;
     _cached_queues := _cached_queues s; _cached_topics := _cached_topics s;
     heap := heap s; broker_consumers := broker_consumers s;
     next_consumer := next_consumer s; threads_started := threads_started s;
     trace := trace s |}.

Definition set_session (v : option Handle) (s : JVMThread) : JVMThread :=
  {| connection := connection s; session := v;
     monitor_running := monitor_running s; message_cache := message_cache s;
     topic_consumers := topic_consumers s;
     monitored_queues := monitored_queues s;
     monitored_topics := monitored_topics s;
     _cached_queues := _cached_queues s; _cached_topics := _cached_topics s;
     heap := heap s; broker_consumers := broker_consumers s;
     next_consumer := next_consumer s; threads_started := threads_started s;
     trace := trace s |}.

Definition set_monitor_running (v : bool) (s : JVMThread) : JVMThread :=
  {| connection := connection s; session := session s;
     monitor_running := v; message_cache := message_cache s;
     topic_consumers := topic_consumers s;
     monitored_queues := monitored_queues s;
     monitored_topics := monitored_topics s;
     _cached_queues := _cached_queues s; _cached_topics := _cached_topics s;
     heap := heap s; broker_consumers := broker_consumers s;
     next_consumer := next_consumer s; threads_started := threads_started s;
     trace := trace s |}.

Definition set_message_cache (v : gmap string (list Message)) (s : JVMThread)
    : JVMThread :=
  {| connection := connection s; session := session s;
     monitor_running := monitor_running s; message_cache := v;
     topic_consumers := topic_consumers s;
     monitored_queues := monitored_queues s;
     monitored_topics := monitored_topics s;
     _cached_queues := _cached_queues s; _cached_topics := _cached_topics s;
     heap := heap s; broker_consumers := broker_consumers s;
     next_consumer := next_consumer s; threads_started := threads_started s;
     trace := trace s |}.

Definition set_topic_consumers (v : gmap string Consumer) (s : JVMThread)
    : JVMThread :=
  {| connection := connection s; session := session s;
     monitor_running := monitor_running s; message_cache := message_cache s;
     topic_consumers := v;
     monitored_queues := monitored_queues s;
     monitored_topics := monitored_topics s;
     _cached_queues := _cached_queues s; _cached_topics := _cached_topics s;
     heap := heap s; broker_consumers := broker_consumers s;
     next_consumer := next_consumer s; threads_started := threads_started s;
     trace := trace s |}.

Definition set_monitored_queues (v : loc) (s : JVMThread) : JVMThread :=
  {| connection := connection s; session := session s;
     monitor_running := monitor_running s; message_cache := message_cache s;
     topic_consumers := topic_consumers s;
     monitored_queues := v;
     monitored_topics := monitored_topics s;
     _cached_queues := _cached_queues s; _cached_topics := _cached_topics s;
     heap := heap s; broker_consumers := broker_consumers s;
     next_consumer := next_consumer s; threads_started := threads_started s;
     trace := trace s |}.

Definition set_monitored_topics (v : loc) (s : JVMThread) : JVMThread :=
  {| connection := connection s; session := session s;
     monitor_running := monitor_running s; message_cache := message_cache s;
     topic_consumers := topic_consumers s;
     monitored_queues := monitored_queues s;
     monitored_topics := v;
     _cached_queues := _cached_queues s; _cached_topics := _cached_topics s;
     heap := heap s; broker_consumers := broker_consumers s;
     next_consumer := next_consumer s; threads_started := threads_started s;
     trace := trace s |}.

Definition set_cached_destinations (qs ts : list string) (s : JVMThread)
    : JVMThread :=
  {| connection := connection s; session := session s;
     monitor_running := monitor_running s; message_cache := message_cache s;
     topic_consumers := topic_consumers s;
     monitored_queues := monitored_queues s;
     monitored_topics := monitored_topics s;
     _cached_queues := Some qs; _cached_topics := Some ts;
     heap := heap s; broker_consumers := broker_consumers s;
     next_consumer := next_consumer s; threads_started := threads_started s;
     trace := trace s |}.

Definition set_heap (v : gmap loc (list string)) (s : JVMThread) : JVMThread :=
  {| connection := connection s; session := session s;
     monitor_running := monitor_running s; message_cache := message_cache s;
     topic_consumers := topic_consumers s;
     monitored_queues := monitored_queues s;
     monitored_topics := monitored_topics s;
     _cached_queues := _cached_queues s; _cached_topics := _cached_topics s;
     heap := v; broker_consumers := broker_consumers s;
     next_consumer := next_consumer s; threads_started := threads_started s;
     trace := trace s |}.

Definition set_broker_consumers (v : list Consumer) (n : nat) (s : JVMThread)
    : JVMThread :=
  {| connection := connection s; session := session s;
     monitor_running := monitor_running s; message_cache := message_cache s;
     topic_consumers := topic_consumers s;
     monitored_queues := monitored_queues s;
     monitored_topics := monitored_topics s;
     _cached_queues := _cached_queues s; _cached_topics := _cached_topics s;
     heap := heap s; broker_consumers := v;
     next_consumer := n; threads_started := threads_started s;
     trace := trace s |}.

Definition set_threads_started (n : nat) (s : JVMThread) : JVMThread :=
  {| connection := connection s; session := session s;
     monitor_running := monitor_running s; message_cache := message_cache s;
     topic_consumers := topic_consumers s;
     monitored_queues := monitored_queues s;
     monitored_topics := monitored_topics s;
     _cached_queues := _cached_queues s; _cached_topics := _cached_topics s;
     heap := heap s; broker_consumers := broker_consumers s;
     next_consumer := next_consumer s; threads_started := n;
     trace := trace s |}.

Definition add_events (evs : list Event) (s : JVMThread) : JVMThread :=
  {| connection := connection s; session := session s;
     monitor_running := monitor_running s; message_cache := message_cache s;
     topic_consumers := topic_consumers s;
     monitored_queues := monitored_queues s;
     monitored_topics := monitored_topics s;
     _cached_queues := _cached_queues s; _cached_topics := _cached_topics s;
     heap := heap s; broker_consumers := broker_consumers s;
     next_consumer := next_consumer s; threads_started := threads_started s;
     trace := trace s ++ evs |}.

(** The object as [__init__] leaves it: [monitored_queues] and
    [monitored_topics] are two distinct empty lists. *)
Definition init : JVMThread :=
  {| connection := None; session := None;
     monitor_running := false; message_cache := ∅;
     topic_consumers := ∅;
     monitored_queues := 0; monitored_topics := 1;
     _cached_queues := None; _cached_topics := None;
     heap := {[ 0 := []; 1 := [] ]}; broker_consumers := [];
     next_consumer := 0; threads_started := 0;
     trace := [] |}.

(** ** The monad of methods *)

Definition Py (A : Type) : Type := JVMThread -> result A * JVMThread.

Definition py_ret {A} (a : A) : Py A := fun s => (Ok a, s).

Definition py_bind {A B} (m : Py A) (f : A -> Py B) : Py B :=
  fun s => match m s with
           | (Ok a, s') => f a s'
           | (Raise e, s') => (Raise e, s')
           end.

(** [try: m  except Exception as e: h e] *)
Definition try_except {A} (m : Py A) (h : string -> Py A) : Py A :=
  fun s => match m s with
           | (Ok a, s') => (Ok a, s')
           | (Raise e, s') => h e s'
           end.

Definition gets {A} (f : JVMThread -> A) : Py A := fun s => (Ok (f s), s).
Definition modify (f : JVMThread -> JVMThread) : Py unit :=
  fun s => (Ok tt, f s).
Definition emit (sg : Signal) : Py unit := modify (add_events [Emit sg]).

(** A call across the bridge: it is recorded and its outcome returned. *)
Definition call {A} (method : string) (r : result A) : Py A :=
  fun s => (r, add_events [Call method] s).

(** An outcome of a call that the trace does not record (accessors of a
    message). *)
Definition lift {A} (r : result A) : Py A := fun s => (r, s).

Declare Scope py_scope.
Delimit Scope py_scope with py.
Notation "x <- m ;; k" := (py_bind m (fun x => k))
  (at level 100, m at next level, k at level 200, right associativity)
  : py_scope.
Notation "m ;;; k" := (py_bind m (fun _ => k))
  (at level 100, k at level 200, right associativity) : py_scope.

(** Python truthiness of an attribute that is [None] or an object. *)
Definition truthy {A} (o : option A) : bool :=
  match o with Some _ => true | None => false end.

(** ** Connection manager: [disconnect] *)

Definition disconnect : Py bool :=
  try_except
    (sess <- gets session ;;
     match sess with
     | Some h => call "session.close" (close h) ;;; modify (set_session None)
     | None => py_ret tt
     end ;;;
     conn <- gets connection ;;
     match conn with
     | Some h =>
         call "connection.close" (close h) ;;; modify (set_connection None)
     | None => py_ret tt
     end ;;;
     emit (log_signal "Disconnected from broker") ;;;
     py_ret true)%py
    (fun e =>
       emit (error_signal ("Error disconnecting: " +:+ e)) ;;; py_ret false)%py.

(** ** Queue browser: [browse_queue] *)

Global Instance result_ret : MRet result := fun A a => Ok a.
Global Instance result_bind : MBind result := fun A B f r =>
  match r with
  | Ok a => f a
  | Raise e => Raise e
  end.

(** [needle in haystack] on Python strings. *)
Fixpoint contains (needle haystack : string) : bool :=
  String.prefix needle haystack ||
  match haystack with
  | EmptyString => false
  | String _ rest => contains needle rest
  end.

(** The [while property_enum.hasMoreElements()] loop filling the
    [properties] dict. *)
Fixpoint read_properties (message : JMessage) (names : list (result string))
    (props : gmap string string) : result (gmap string string) :=
  match names with
  | [] => Ok props
  | Raise e :: _ => Raise e
  | Ok prop_name :: rest =>
      match getStringProperty message prop_name with
      | Ok v => read_properties message rest (<[prop_name := v]> props)
      | Raise e => Raise e
      end
  end.

(** "Simple message body extraction": the pair [(body, message_type)].
    Inside the [try], [message_type = "text"] is assigned before
    [getText()] is called and [message_type = "string"] after [toString()]
    has returned; the handler only reassigns [body = str(message)]. *)
Definition simple_body (message : JMessage) : result (string * string) :=
  match getClassName message with
  | Ok message_class =>
      if contains "TextMessage" message_class then
        match getText message with
        | Ok text => Ok (text, "text")
        | Raise _ => b ← py_str message; Ok (b, "text")
        end
      else if hasattr_toString message then
        match toString message with
        | Ok text => Ok (text, "string")
        | Raise _ => b ← py_str message; Ok (b, "unknown")
        end
      else Ok ("Unknown data type", "unknown")
  | Raise _ => b ← py_str message; Ok (b, "unknown")
  end.

(** The body of the inner [try] of the scan ("Process valid message"):
    [Raise] is what the [except Exception: continue] catches. *)
Definition extract_message (queue_name : string) (message : JMessage)
    : result Message :=
  message_id ← getJMSMessageID message;
  names ← getPropertyNames message;
  props ← read_properties message names ∅;
  bt ← simple_body message;
  ts ← getJMSTimestamp message;
  Ok {| msg_id := message_id; msg_body := bt.1; msg_properties := props;
        msg_destination := queue_name; msg_type := "queue";
        msg_message_type := bt.2; msg_timestamp := ts |}.

(** One round of reading a browse cursor: [hasMoreElements()] raises, or
    it returns true and [nextElement()] has the given outcome, [Ok None]
    being a null element. *)
Inductive Step : Type :=
  | HasMoreRaises (e : string)
  | NextElement (r : result (option JMessage)).

(** The rounds of a browse cursor, up to the point where
    [hasMoreElements()] returns false. *)
Abbreviation Enumeration := (list Step).

(** The [while message_enum.hasMoreElements()] loop with its accumulators
    [messages] and [message_count].  The loop test is outside the [try]
    whose handler breaks: when it raises, so does the loop. *)
Fixpoint scan (queue_name : string) (steps : Enumeration)
    (messages : list Message) (message_count : nat)
    : result (list Message * nat) :=
  match steps with
  | [] => Ok (messages, message_count)
  | HasMoreRaises e :: _ => Raise e
  | NextElement (Raise _) :: _ => Ok (messages, message_count)
  | NextElement (Ok None) :: rest =>
      scan queue_name rest messages message_count
  | NextElement (Ok (Some message)) :: rest =>
      let message_count' :=
        match getJMSMessageID message with
        | Ok _ => S message_count
        | Raise _ => message_count
        end in
      match extract_message queue_name message with
      | Ok r => scan queue_name rest (messages ++ [r]) message_count'
      | Raise _ => scan queue_name rest messages message_count'
      end
  end.

Record Browser : Type := {
  getEnumeration : result Enumeration;
  browser_close : result unit
}.

(** What the broker answers during one [browse_queue] call. *)
Record BrowseEnv : Type := {
  createQueue : result unit;
  createSession : result Handle;
  temp_createBrowser : result Browser;
  createBrowser : result Browser
}.

(** [try: m except Exception: ...] with the outcome made a value. *)
Definition attempt {A} (m : Py A) : Py (result A) :=
  fun s => let (r, s') := m s in (Ok r, s').

Definition when (b : bool) (m : Py unit) : Py unit :=
  if b then m else py_ret tt.

Definition browse_queue (env : BrowseEnv) (queue_name : string)
    (update_ui auto_refresh force_new_browser : bool) : Py (list Message) :=
  try_except
    (conn <- gets connection ;;
     sess <- gets session ;;
     if negb (truthy conn) || negb (truthy sess) then
       emit (error_signal "Not connected to broker") ;;; py_ret []
     else
       call "session.createQueue" (createQueue env) ;;;
       bt <- (if force_new_browser then
                r <- attempt (call "connection.createSession"
                                (createSession env)) ;;
                match r with
                | Ok temp_session =>
                    r' <- attempt (call "temp_session.createBrowser"
                                     (temp_createBrowser env)) ;;
                    match r' with
                    | Ok browser => py_ret (browser, Some temp_session)
                    | Raise _ =>
                        browser <- call "session.createBrowser"
                                     (createBrowser env) ;;
                        py_ret (browser, Some temp_session)
                    end
                | Raise _ =>
                    browser <- call "session.createBrowser"
                                 (createBrowser env) ;;
                    py_ret (browser, None)
                end
              else
                browser <- call "session.createBrowser" (createBrowser env) ;;
                py_ret (browser, None)) ;;
       message_enum <- call "browser.getEnumeration" (getEnumeration bt.1) ;;
       scanned <- lift (scan queue_name message_enum [] 0) ;;
       match scanned with
       | (messages, message_count) =>
           try_except
             (call "browser.close" (browser_close bt.1) ;;;
              match bt.2 with
              | Some temp_session =>
                  try_except (call "temp_session.close" (close temp_session))
                             (fun _ => py_ret tt)
              | None => py_ret tt
              end)
             (fun _ => py_ret tt) ;;;
           when (bool_decide (0 < message_count) && negb auto_refresh)
             (emit (log_signal (">>> UPDATE: Queue " +:+ queue_name +:+
                                " found " +:+ pretty message_count +:+
                                " messages"))) ;;;
           when update_ui (emit (update_messages_signal messages)) ;;;
           py_ret messages
       end)%py
    (fun e =>
       emit (error_signal ("Error browsing queue " +:+ queue_name +:+ ": " +:+
                           e +:+ "::non-critical")) ;;;
       py_ret [])%py.

(** ** Destination discovery: [get_destinations] *)

Record QueueObj : Type := {
  hasattr_getQueueName : bool;
  getQueueName : result string
}.

Record AdvisoryMsg : Type := {
  hasattr_getStringProperty : bool;
  destinationName : result (option string)
}.

(** What the broker answers on one advisory topic: [receive i] is the
    outcome of the [i]-th [temp_consumer.receive(100)], [Ok None] a
    timeout. *)
Record AdvisoryEnv : Type := {
  adv_createTopic : result unit;
  adv_createConsumer : result unit;
  adv_receive : nat -> result (option AdvisoryMsg);
  adv_close : result unit
}.

(** What the broker answers during one [get_destinations] call.
    [getTopics] lists [str(topic)] of each topic. *)
Record DiscoverEnv : Type := {
  hasattr_getDestinationSource : bool;
  getDestinationSource : result unit;
  getQueues : list QueueObj;
  getTopics : list string;
  advisory_queue : AdvisoryEnv;
  advisory_topic : AdvisoryEnv
}.

Definition is_nil {A} (l : list A) : bool :=
  match l with [] => true | _ => false end.

Definition advisory (name : string) : bool :=
  String.prefix "ActiveMQ.Advisory" name.

(** The queue loop of the primary strategy.  The list under construction
    survives an exception, so it is returned next to the outcome. *)
Fixpoint collect_queues (all_queues : list QueueObj) (queues : list string)
    : Py (list string * result unit) :=
  match all_queues with
  | [] => py_ret (queues, Ok tt)
  | queue :: rest =>
      if hasattr_getQueueName queue then
        match getQueueName queue with
        | Ok queue_name =>
            if bool_decide (queue_name ∈ queues) then
              collect_queues rest queues
            else
              (emit (log_signal ("Found queue: " +:+ queue_name)) ;;;
               collect_queues rest (queues ++ [queue_name]))%py
        | Raise e => py_ret (queues, Raise e)
        end
      else collect_queues rest queues
  end.

Fixpoint collect_topics (all_topics : list string) (topics : list string)
    : Py (list string) :=
  match all_topics with
  | [] => py_ret topics
  | topic_name :: rest =>
      if bool_decide (topic_name ∈ topics) || advisory topic_name then
        collect_topics rest topics
      else
        (emit (log_signal ("Found topic: " +:+ topic_name)) ;;;
         collect_topics rest (topics ++ [topic_name]))%py
  end.

Definition count_line (prefix : string) (queues topics : list string)
    (suffix : string) : string :=
  prefix +:+ pretty (length queues) +:+ " queues and " +:+
  pretty (length topics) +:+ " topics" +:+ suffix.

(** Primary strategy: the connection's [DestinationSource]. *)
Definition destination_source (env : DiscoverEnv)
    : Py (list string * list string) :=
  (let failed (e : string) (queues : list string) :=
     emit (log_signal ("DestinationSource error: " +:+ e +:+
                       "::non-critical")) ;;;
     py_ret (queues, []) in
   if hasattr_getDestinationSource env then
     r <- attempt (call "connection.getDestinationSource"
                     (getDestinationSource env)) ;;
     match r with
     | Raise e => failed e []
     | Ok _ =>
         qr <- collect_queues (getQueues env) [] ;;
         match qr.2 with
         | Raise e => failed e qr.1
         | Ok _ =>
             topics <- collect_topics (getTopics env) [] ;;
             when (negb (is_nil qr.1) || negb (is_nil topics))
               (emit (log_signal (count_line "Found " qr.1 topics
                                    " via DestinationSource"))) ;;;
             py_ret (qr.1, topics)
         end
     end
   else py_ret ([], []))%py.

(** The [for _ in range(3)] loop draining one advisory consumer; [topic]
    selects the topic variant, which also filters advisory names. *)
Fixpoint drain (topic : bool) (env : AdvisoryEnv) (range : list nat)
    (names : list string) : Py (list string * result unit) :=
  match range with
  | [] => py_ret (names, Ok tt)
  | i :: rest =>
      (r <- attempt (call "temp_consumer.receive" (adv_receive env i)) ;;
       match r with
       | Raise e => py_ret (names, Raise e)
       | Ok None => drain topic env rest names
       | Ok (Some msg) =>
           if hasattr_getStringProperty msg then
             match destinationName msg with
             | Ok (Some name) =>
                 if negb (String.eqb name "") &&
                    negb (bool_decide (name ∈ names)) &&
                    negb (topic && advisory name) then
                   emit (log_signal ((if topic then "Discovered topic: "
                                      else "Discovered queue: ") +:+ name)) ;;;
                   drain topic env rest (names ++ [name])
                 else drain topic env rest names
             | _ => drain topic env rest names
             end
           else drain topic env rest names
       end)%py
  end.

(** Fallback strategy: temporary consumers on the advisory topics. *)
Definition advisory_discovery (env : DiscoverEnv)
    : Py (list string * list string) :=
  (let failed (e : string) (queues topics : list string) :=
     emit (log_signal ("Advisory discovery error: " +:+ e +:+
                       "::non-critical")) ;;;
     py_ret (queues, topics) in
   r <- attempt (call "session.createTopic"
                   (adv_createTopic (advisory_queue env)) ;;;
                 call "session.createConsumer"
                   (adv_createConsumer (advisory_queue env))) ;;
   match r with
   | Raise e => failed e [] []
   | Ok _ =>
   qr <- drain false (advisory_queue env) (seq 0 3) [] ;;
   match qr.2 with
   | Raise e => failed e qr.1 []
   | Ok _ =>
   r <- attempt (call "temp_consumer.close" (adv_close (advisory_queue env)) ;;;
                 call "session.createTopic"
                   (adv_createTopic (advisory_topic env)) ;;;
                 call "session.createConsumer"
                   (adv_createConsumer (advisory_topic env))) ;;
   match r with
   | Raise e => failed e qr.1 []
   | Ok _ =>
   tr <- drain true (advisory_topic env) (seq 0 3) [] ;;
   match tr.2 with
   | Raise e => failed e qr.1 tr.1
   | Ok _ =>
   r <- attempt (call "temp_consumer.close" (adv_close (advisory_topic env))) ;;
   match r with
   | Raise e => failed e qr.1 tr.1
   | Ok _ => py_ret (qr.1, tr.1)
   end end end end end)%py.

(** Both strategies in order: what this attempt found. *)
Definition strategies (env : DiscoverEnv) : Py (list string * list string) :=
  (found <- destination_source env ;;
   if is_nil found.1 && is_nil found.2 then advisory_discovery env
   else py_ret found)%py.

Definition get_destinations (env : DiscoverEnv)
    : Py (list string * list string) :=
  try_except
    (conn <- gets connection ;;
     sess <- gets session ;;
     if negb (truthy conn) || negb (truthy sess) then
       emit (error_signal "Not connected to broker") ;;; py_ret ([], [])
     else
       found <- strategies env ;;
       res <- (if negb (is_nil found.1) || negb (is_nil found.2) then
                 emit (log_signal (count_line "Total: " found.1 found.2 "")) ;;;
                 modify (set_cached_destinations found.1 found.2) ;;;
                 py_ret found
               else
                 cq <- gets _cached_queues ;;
                 ct <- gets _cached_topics ;;
                 match cq, ct with
                 | Some queues, Some topics =>
                     emit (log_signal "Using cached destination list") ;;;
                     py_ret (queues, topics)
                 | _, _ =>
                     emit (log_signal "No destinations found") ;;;
                     modify (set_cached_destinations [] []) ;;;
                     py_ret ([], [])
                 end) ;;
       emit (update_queues_signal res.1) ;;;
       emit (update_topics_signal res.2) ;;;
       py_ret res)%py
    (fun e =>
       emit (error_signal ("Error getting destinations: " +:+ e)) ;;;
       emit (update_queues_signal []) ;;;
       emit (update_topics_signal []) ;;;
       py_ret ([], []))%py.

(** ** Topic subscription manager *)

Definition queue_key (queue : string) : string := "queue:" +:+ queue.
Definition topic_key (topic_name : string) : string := "topic:" +:+ topic_name.

(** "Get message body - simple approach". *)
Definition topic_body (message : JMessage) : string :=
  match (if hasattr_getText message then getText message
         else py_str message) with
  | Ok text => text
  | Raise _ => "[Could not extract message body]"
  end.

(** All cached messages, flattened ([for msgs in cache.values()]); the
    order across keys is that of the map, not Python's insertion order. *)
Definition all_cached (cache : gmap string (list Message)) : list Message :=
  concat (snd <$> map_to_list cache).

(** The record that [_on_topic_message] builds. *)
Definition message_info (message_id text topic_name : string) (ts : Z)
    : Message :=
  {| msg_id := message_id; msg_body := text; msg_properties := ∅;
     msg_destination := topic_name; msg_type := "topic";
     msg_message_type := "text"; msg_timestamp := ts |}.

(** The listener callback; [None] is a null message. *)
Definition _on_topic_message (message : option JMessage) (topic_name : string)
    : Py unit :=
  try_except
    (match message with
     | None => py_ret tt
     | Some message =>
         message_id <- lift (getJMSMessageID message) ;;
         emit (log_signal (">>> NEW MESSAGE RECEIVED on topic " +:+
                           topic_name +:+ ": " +:+ message_id)) ;;;
         let text := topic_body message in
         emit (log_signal ("Message body: " +:+ String.substring 0 100 text +:+
                           (if bool_decide (100 < String.length text)
                            then " (truncated)" else ""))) ;;;
         ts <- lift (getJMSTimestamp message) ;;
         let dest_key := topic_key topic_name in
         cache <- gets message_cache ;;
         let entry := default [] (cache !! dest_key) in
         let cache' :=
           <[dest_key := entry ++ [message_info message_id text topic_name ts]]>
             cache in
         modify (set_message_cache cache') ;;;
         when (negb (is_nil (all_cached cache')))
           (emit (update_messages_signal (all_cached cache')))
     end)%py
    (fun e => emit (error_signal ("Error handling topic message: " +:+ e))).

(** What the broker answers during one [create_topic_message_listener]
    call; [createConsumer] gives the [close()] outcome of the consumer
    it creates. *)
Record ListenerEnv : Type := {
  createTopic : result unit;
  createConsumer : result (result unit);
  setMessageListener : result unit
}.

(** [self.session.createConsumer(topic_dest)]: on success a new consumer is
    open on the broker. *)
Definition session_createConsumer (r : result (result unit))
    (topic_name : string) : Py Consumer :=
  fun s =>
    match r with
    | Ok closes =>
        let consumer := {| consumer_id := next_consumer s;
                           consumer_topic := topic_name;
                           consumer_close := closes |} in
        (Ok consumer,
         add_events [Call "session.createConsumer"]
           (set_broker_consumers (broker_consumers s ++ [consumer])
              (S (next_consumer s)) s))
    | Raise e => (Raise e, add_events [Call "session.createConsumer"] s)
    end.

(** [consumer.close()]: on success the consumer is gone from the broker. *)
Definition consumer_close_call (consumer : Consumer) : Py unit :=
  fun s =>
    match consumer_close consumer with
    | Ok _ =>
        (Ok tt,
         add_events [Call "consumer.close"]
           (set_broker_consumers
              (filter (fun c => consumer_id c ≠ consumer_id consumer)
                 (broker_consumers s))
              (next_consumer s) s))
    | Raise e => (Raise e, add_events [Call "consumer.close"] s)
    end.

(** Returns the consumer of the tuple [(consumer, None)]; [None] stands for
    [(None, None)]. *)
Definition create_topic_message_listener (env : ListenerEnv)
    (topic_name : string) : Py (option Consumer) :=
  try_except
    (conn <- gets connection ;;
     sess <- gets session ;;
     if negb (truthy conn) || negb (truthy sess) then
       emit (error_signal "Not connected to broker") ;;; py_ret None
     else
       call "session.createTopic" (createTopic env) ;;;
       consumer <- session_createConsumer (createConsumer env) topic_name ;;
       call "consumer.setMessageListener" (setMessageListener env) ;;;
       consumers <- gets topic_consumers ;;
       modify (set_topic_consumers
                 (<[topic_key topic_name := consumer]> consumers)) ;;;
       emit (log_signal ("Created active subscription for topic " +:+
                         topic_name)) ;;;
       py_ret (Some consumer))%py
    (fun e =>
       emit (error_signal ("Error creating topic listener: " +:+ e)) ;;;
       py_ret None)%py.

(** ** Monitor coordinator *)

(** [[]] or [list(l)]: a new list object. *)
Definition new_list (l : list string) : Py loc :=
  fun s =>
    let a := fresh (dom (heap s)) in
    (Ok a, set_heap (<[a := l]> (heap s)) s).

Definition deref (a : loc) : Py (list string) :=
  gets (fun s => default [] (heap s !! a)).

(** [l.append(x)] on the list object at [a]. *)
Definition list_append (a : loc) (x : string) : Py unit :=
  modify (fun s =>
            set_heap (<[a := default [] (heap s !! a) ++ [x]]> (heap s)) s).

Fixpoint close_consumers (consumers : list (string * Consumer)) : Py unit :=
  match consumers with
  | [] => py_ret tt
  | (key, consumer) :: rest =>
      (try_except
         (consumer_close_call consumer ;;;
          emit (log_signal ("Closed consumer for " +:+ key)))
         (fun _ => py_ret tt) ;;;
       close_consumers rest)%py
  end.

Definition emergency_stop_monitoring : Py unit :=
  try_except
    (modify (set_monitor_running false) ;;;
     consumers <- gets (fun s => map_to_list (topic_consumers s)) ;;
     close_consumers consumers ;;;
     modify (set_topic_consumers ∅) ;;;
     a <- new_list [] ;;
     modify (set_monitored_queues a) ;;;
     b <- new_list [] ;;
     modify (set_monitored_topics b) ;;;
     modify (set_message_cache ∅) ;;;
     emit (log_signal "All monitoring stopped"))%py
    (fun e => emit (error_signal ("Error in emergency stop: " +:+ e))).

(** The [for topic in topics] loop of [monitor_all]. *)
Fixpoint setup_topics (envs : string -> ListenerEnv) (topics : list string)
    : Py unit :=
  match topics with
  | [] => py_ret tt
  | topic :: rest =>
      (try_except
         (consumer <- create_topic_message_listener (envs topic) topic ;;
          when (negb (truthy consumer))
            (emit (error_signal ("Failed to create listener for topic " +:+
                                 topic))))
         (fun e =>
            emit (error_signal ("Error setting up topic " +:+ topic +:+ ": "
                                +:+ e))) ;;;
       setup_topics envs rest)%py
  end.

(** [queues] and [topics] are the list objects the caller passes; the
    spawned [queue_monitor_thread] is [monitor_initial] followed by
    [monitor_tick]s, below. *)
Definition monitor_all (envs : string -> ListenerEnv) (queues topics : loc)
    : Py unit :=
  (emergency_stop_monitoring ;;;
   qs <- deref queues ;;
   ts <- deref topics ;;
   if is_nil qs && is_nil ts then
     emit (log_signal "No destinations to monitor")
   else
     a <- new_list qs ;;
     modify (set_monitored_queues a) ;;;
     b <- new_list ts ;;
     modify (set_monitored_topics b) ;;;
     modify (set_message_cache ∅) ;;;
     setup_topics envs ts ;;;
     modify (set_monitor_running true) ;;;
     modify (fun s => set_threads_started (S (threads_started s)) s) ;;;
     emit (log_signal (count_line "Monitoring started for " qs ts "")))%py.

Definition start_monitoring (envs : string -> ListenerEnv)
    (destination_name destination_type : string) : Py unit :=
  try_except
    (mq <- gets monitored_queues ;;
     qs <- deref mq ;;
     mt <- gets monitored_topics ;;
     ts <- deref mt ;;
     (if String.eqb destination_type "queue" &&
         negb (bool_decide (destination_name ∈ qs)) then
        list_append mq destination_name
      else if String.eqb destination_type "topic" &&
              negb (bool_decide (destination_name ∈ ts)) then
        list_append mt destination_name
      else py_ret tt) ;;;
     monitor_all envs mq mt)%py
    (fun e => emit (error_signal ("Error starting monitoring: " +:+ e))).

(** ** The poll loop, [queue_monitor_thread] *)

(** The thread's locals.  Times are the readings of [time.time()] in
    milliseconds. *)
Record MonitorLocals : Type := {
  last_checks : gmap string Z;
  last_message_ids : gmap string (gset string)
}.

(** [{msg['id'] for msg in messages}] *)
Definition ids (messages : list Message) : gset string :=
  list_to_set (msg_id <$> messages).

(** The body of [for queue in self.monitored_queues] in the main loop; the
    flag is [new_messages_detected]. *)
Definition poll_queue (env : BrowseEnv) (current_time : Z) (queue : string)
    (st : MonitorLocals * bool) : Py (MonitorLocals * bool) :=
  if bool_decide (current_time - default 0%Z (last_checks st.1 !! queue)
                  < 1000)%Z then
    py_ret st
  else
    try_except
      (messages <- browse_queue env queue false true true ;;
       let checks := <[queue := current_time]> (last_checks st.1) in
       if is_nil messages then
         py_ret ({| last_checks := checks;
                    last_message_ids := last_message_ids st.1 |}, st.2)
       else
         let current_ids := ids messages in
         detected <-
           match last_message_ids st.1 !! queue with
           | Some seen =>
               let new_ids := current_ids ∖ seen in
               if bool_decide (new_ids ≠ ∅) then
                 emit (log_signal (">>> Found " +:+ pretty (size new_ids) +:+
                                   " new messages in queue " +:+ queue)) ;;;
                 cache <- gets message_cache ;;
                 modify (set_message_cache
                           (<[queue_key queue := messages]> cache)) ;;;
                 py_ret true
               else py_ret st.2
           | None => py_ret st.2
           end ;;
         py_ret ({| last_checks := checks;
                    last_message_ids :=
                      <[queue := current_ids]> (last_message_ids st.1) |},
                 detected))%py
      (fun e =>
         emit (error_signal ("Error monitoring queue " +:+ queue +:+ ": " +:+
                             e +:+ "::non-critical")) ;;;
         py_ret st)%py.

Fixpoint poll_queues (envs : string -> BrowseEnv) (current_time : Z)
    (queues : list string) (st : MonitorLocals * bool)
    : Py (MonitorLocals * bool) :=
  match queues with
  | [] => py_ret st
  | queue :: rest =>
      (st' <- poll_queue (envs queue) current_time queue st ;;
       poll_queues envs current_time rest st')%py
  end.

(** One iteration of [while self.monitor_running], after the sleep;
    [envs queue] is what the broker answers when [queue] is browsed in this
    iteration. *)
Definition monitor_tick (envs : string -> BrowseEnv) (current_time : Z)
    (locals : MonitorLocals) : Py MonitorLocals :=
  (mq <- gets monitored_queues ;;
   queues <- deref mq ;;
   st <- poll_queues envs current_time queues (locals, false) ;;
   when st.2
     (cache <- gets message_cache ;;
      when (negb (is_nil (all_cached cache)))
        (emit (update_messages_signal (all_cached cache)))) ;;;
   py_ret st.1)%py.

(** The initial pass of the thread: browse every monitored queue into the
    cache, then seed the locals from the cache. *)
Fixpoint initial_browse (envs : string -> BrowseEnv) (queues : list string)
    (all_messages : list Message) : Py (list Message) :=
  match queues with
  | [] => py_ret all_messages
  | queue :: rest =>
      (r <- attempt (browse_queue (envs queue) queue false true true) ;;
       match r with
       | Ok messages =>
           cache <- gets message_cache ;;
           modify (set_message_cache (<[queue_key queue := messages]> cache)) ;;;
           initial_browse envs rest (all_messages ++ messages)
       | Raise _ => initial_browse envs rest all_messages
       end)%py
  end.

Fixpoint seed_locals (now : Z) (cache : gmap string (list Message))
    (queues : list string) (locals : MonitorLocals) : MonitorLocals :=
  match queues with
  | [] => locals
  | queue :: rest =>
      seed_locals now cache rest
        {| last_checks := <[queue := now]> (last_checks locals);
           last_message_ids :=
             <[queue := match cache !! queue_key queue with
                        | Some messages => ids messages
                        | None => ∅
                        end]> (last_message_ids locals) |}
  end.

Definition monitor_initial (envs : string -> BrowseEnv) (now : Z)
    : Py MonitorLocals :=
  (mq <- gets monitored_queues ;;
   queues <- deref mq ;;
   all_messages <- initial_browse envs queues [] ;;
   when (negb (is_nil all_messages))
     (emit (update_messages_signal all_messages)) ;;;
   cache <- gets message_cache ;;
   py_ret (seed_locals now cache queues
             {| last_checks := ∅; last_message_ids := ∅ |}))%py.

(** [while self.monitor_running], for as many iterations as [ticks] gives
    clock readings and broker answers. *)
Fixpoint main_loop (ticks : list (Z * (string -> BrowseEnv)))
    (locals : MonitorLocals) : Py unit :=
  match ticks with
  | [] => py_ret tt
  | (current_time, envs) :: rest =>
      (running <- gets monitor_running ;;
       if running then
         locals' <- monitor_tick envs current_time locals ;;
         main_loop rest locals'
       else py_ret tt)%py
  end.

Definition queue_monitor_thread (envs : string -> BrowseEnv) (now : Z)
    (ticks : list (Z * (string -> BrowseEnv))) : Py unit :=
  try_except
    (locals <- monitor_initial envs now ;;
     main_loop ticks locals)%py
    (fun e => emit (error_signal ("Error in queue monitor: " +:+ e))).

(** ** Derived notions used by the statements *)

(** Every handle the object holds closes without error (in particular: the
    object holds none). *)
Definition closes_cleanly (s : JVMThread) : Prop :=
  (∀ h, session s = Some h → close h = Ok tt) ∧
  (∀ h, connection s = Some h → close h = Ok tt).

Definition is_connected (s : JVMThread) : bool :=
  truthy (connection s) && truthy (session s).

(** The browser [browse_queue] ends up reading from. *)
Definition opened_browser (env : BrowseEnv) (force_new_browser : bool)
    : result Browser :=
  _ ← createQueue env;
  if force_new_browser then
    match createSession env with
    | Ok _ =>
        match temp_createBrowser env with
        | Ok browser => Ok browser
        | Raise _ => createBrowser env
        end
    | Raise _ => createBrowser env
    end
  else createBrowser env.

(** The list [browse_queue] returns, see [browse_queue_run]. *)
Definition browse_messages (conn : bool) (env : BrowseEnv)
    (queue_name : string) (force_new_browser : bool) : list Message :=
  if conn then
    match opened_browser env force_new_browser ≫= getEnumeration with
    | Ok steps =>
        match scan queue_name steps [] 0 with
        | Ok scanned => scanned.1
        | Raise _ => []
        end
    | Raise _ => []
    end
  else [].

(** The non-null messages a cursor delivers before one of its calls
    first raises. *)
Fixpoint delivered (steps : Enumeration) : list JMessage :=
  match steps with
  | [] => []
  | HasMoreRaises _ :: _ => []
  | NextElement (Raise _) :: _ => []
  | NextElement (Ok None) :: rest => delivered rest
  | NextElement (Ok (Some message)) :: rest => message :: delivered rest
  end.

(** The loop over the cursor ends by its test returning false or by the
    [break] of a failing [nextElement()]: no [hasMoreElements()] that the
    loop reaches raises. *)
Fixpoint unbroken (steps : Enumeration) : bool :=
  match steps with
  | [] => true
  | HasMoreRaises _ :: _ => false
  | NextElement (Raise _) :: _ => true
  | NextElement (Ok _) :: rest => unbroken rest
  end.

Definition ok {A} (r : result A) : option A :=
  match r with Ok a => Some a | Raise _ => None end.

(** The records of those messages whose extraction succeeds, in order. *)
Definition extracted (queue_name : string) (messages : list JMessage)
    : list Message :=
  omap (fun message => ok (extract_message queue_name message)) messages.

(** A cursor that delivers exactly [messages]. *)
Definition delivering (messages : list JMessage) : Enumeration :=
  (fun message => NextElement (Ok (Some message))) <$> messages.

(** Following the design document: the payload kind that goes with a
    declared message type, "Text/Bytes/Map/Object/Stream". *)
Definition declared_kind (message_class : string) : string :=
  if contains "TextMessage" message_class then "text"
  else if contains "BytesMessage" message_class then "bytes"
  else if contains "MapMessage" message_class then "map"
  else if contains "ObjectMessage" message_class then "object"
  else if contains "StreamMessage" message_class then "stream"
  else "unknown".

(** The cache entry of a topic, empty when the key is absent. *)
Definition topic_entry (s : JVMThread) (topic_name : string) : list Message :=
  default [] (message_cache s !! topic_key topic_name).

(** A computation whose only effect is on the trace and whose outcome
    does not depend on the object... *)
Definition traces {A} (m : Py A) : Prop :=
  ∃ r, ∀ s, ∃ evs, m s = (r, add_events evs s).

(** ...and one that, moreover, never raises. *)
Definition settles {A} (m : Py A) : Prop :=
  ∃ v, ∀ s, ∃ evs, m s = (Ok v, add_events evs s).

(** What the two discovery strategies yield against a given broker. *)
Definition found (env : DiscoverEnv) : list string * list string :=
  match (strategies env init).1 with
  | Ok v => v
  | Raise _ => ([], [])
  end.

Definition nothing (v : list string * list string) : bool :=
  is_nil v.1 && is_nil v.2.

(** One [get_destinations] call in the life of the object: the handles it
    holds at that moment (connects and disconnects may have happened since
    the previous call) and what the broker answers. *)
Record Discovery : Type := {
  connection_then : option Handle;
  session_then : option Handle;
  broker_then : DiscoverEnv
}.

Definition discover (d : Discovery) : Py (list string * list string) :=
  (modify (fun s => set_session (session_then d)
                      (set_connection (connection_then d) s)) ;;;
   get_destinations (broker_then d))%py.

(** The object after a sequence of such calls, oldest first. *)
Definition discover_all (ds : list Discovery) (s : JVMThread) : JVMThread :=
  fold_left (fun s d => (discover d s).2) ds s.

(** A successful non-empty discovery: connected, and the strategies found
    something. *)
Definition good (d : Discovery) : bool :=
  truthy (connection_then d) && truthy (session_then d) &&
  negb (nothing (found (broker_then d))).

(** The result of the most recent successful non-empty discovery of a
    history, oldest first. *)
Fixpoint last_good (ds : list Discovery)
    : option (list string * list string) :=
  match ds with
  | [] => None
  | d :: rest =>
      match last_good rest with
      | Some v => Some v
      | None => if good d then Some (found (broker_then d)) else None
      end
  end.

(** What a [get_destinations] call returns and what it leaves in the
    [_cached_queues]/[_cached_topics] attributes, see
    [get_destinations_run]. *)
Definition served (conn : bool) (v : list string * list string)
    (cq ct : option (list string)) : list string * list string :=
  if conn then
    if nothing v then
      match cq, ct with
      | Some queues, Some topics => (queues, topics)
      | _, _ => ([], [])
      end
    else v
  else ([], []).

Definition cached_after (conn : bool) (v : list string * list string)
    (cq ct : option (list string))
    : option (list string) * option (list string) :=
  if conn then
    if nothing v then
      match cq, ct with
      | Some queues, Some topics => (cq, ct)
      | _, _ => (Some [], Some [])
      end
    else (Some v.1, Some v.2)
  else (cq, ct).

Definition connected_then (d : Discovery) : bool :=
  truthy (connection_then d) && truthy (session_then d).

(** The list objects behind [self.monitored_queues] and
    [self.monitored_topics]. *)
Definition queues_of (s : JVMThread) : list string :=
  default [] (heap s !! monitored_queues s).
Definition topics_of (s : JVMThread) : list string :=
  default [] (heap s !! monitored_topics s).

(** The two attributes refer to two distinct list objects of the store,
    as they do from [__init__] on. *)
Definition lists_ok (s : JVMThread) : Prop :=
  monitored_queues s ∈ dom (heap s) ∧ monitored_topics s ∈ dom (heap s) ∧
  monitored_queues s ≠ monitored_topics s.

Definition same_lists (s s' : JVMThread) : Prop :=
  heap s' = heap s ∧ monitored_queues s' = monitored_queues s ∧
  monitored_topics s' = monitored_topics s.

(** A computation that leaves the monitored lists alone... *)
Definition keeps {A} (m : Py A) : Prop := ∀ s, same_lists s (m s).2.

(** ...and one that, moreover, never raises. *)
Definition steady {A} (m : Py A) : Prop :=
  ∀ s, (∃ v, (m s).1 = Ok v) ∧ same_lists s (m s).2.

(** A sequence of [start_monitoring] calls, each a name and a kind. *)
Definition start_each (envs : string -> ListenerEnv)
    (calls : list (string * string)) (s : JVMThread) : JVMThread :=
  fold_left (fun s c => (start_monitoring envs c.1 c.2 s).2) calls s.

(** [queue] is polled in an iteration that reads the clock as [now]. *)
Definition due (now : Z) (locals : MonitorLocals) (queue : string) : bool :=
  negb (bool_decide (now - default 0%Z (last_checks locals !! queue)
                     < 1000)%Z).

(** The browse is not empty, the queue has tracked ids, and some id of
    the browse is not among them. *)
Definition has_new_ids (locals : MonitorLocals) (queue : string)
    (messages : list Message) : bool :=
  negb (is_nil messages) &&
  match last_message_ids locals !! queue with
  | Some seen => bool_decide (ids messages ∖ seen ≠ ∅)
  | None => false
  end.

(** What polling [queue] does to the thread's locals and to the cache
    when the browse returns [messages], see [poll_queue_run]. *)
Definition polled (now : Z) (queue : string) (messages : list Message)
    (locals : MonitorLocals) (cache : gmap string (list Message))
    : MonitorLocals * gmap string (list Message) :=
  if due now locals queue then
    ({| last_checks := <[queue := now]> (last_checks locals);
        last_message_ids :=
          if is_nil messages then last_message_ids locals
          else <[queue := ids messages]> (last_message_ids locals) |},
     if has_new_ids locals queue messages
     then <[queue_key queue := messages]> cache else cache)
  else (locals, cache).

(** ** Further notions: stopping and starting *)

(** The consumers still open on the broker once each of [consumers] has
    been asked to close, in that order: a consumer whose [close()] raises
    stays open. *)
Fixpoint remaining (consumers : list Consumer) (opened : list Consumer)
    : list Consumer :=
  match consumers with
  | [] => opened
  | consumer :: rest =>
      remaining rest
        (match consumer_close consumer with
         | Ok _ =>
             filter (fun c => consumer_id c ≠ consumer_id consumer) opened
         | Raise _ => opened
         end)
  end.

(** The broker grants a topic listener: none of the three calls raises. *)
Definition granted (env : ListenerEnv) : bool :=
  match createTopic env, createConsumer env, setMessageListener env with
  | Ok _, Ok _, Ok _ => true
  | _, _, _ => false
  end.

(** An attribute that neither the trace nor the consumer bookkeeping is
    part of. *)
Definition listener_blind {X} (f : JVMThread -> X) : Prop :=
  (∀ evs s, f (add_events evs s) = f s) ∧
  (∀ v s, f (set_topic_consumers v s) = f s) ∧
  (∀ l n s, f (set_broker_consumers l n s) = f s).

(** A computation that leaves attribute [f] as it is, whatever its
    outcome. *)
Definition preserves {X A} (f : JVMThread -> X) (m : Py A) : Prop :=
  ∀ s, f (m s).2 = f s.

(** ** Further notions: discovery, browsing, broadcasts *)

(** A computation that only adds to the trace, never raises, and whose
    value satisfies [P]. *)
Definition settles_with {A} (P : A -> Prop) (m : Py A) : Prop :=
  ∃ v, P v ∧ ∀ s, ∃ evs, m s = (Ok v, add_events evs s).

(** A destination listing without repetitions and without advisory
    topics. *)
Definition clean (v : list string * list string) : Prop :=
  NoDup v.1 ∧ NoDup v.2 ∧ Forall (fun t => advisory t = false) v.2.

(** The "messages updated" signal. *)
Definition is_broadcast (ev : Event) : bool :=
  match ev with
  | Emit (update_messages_signal _) => true
  | _ => false
  end.

(** The browse opens its cursor and reads it to the end of the loop. *)
Definition scan_completes (conn : bool) (env : BrowseEnv)
    (force_new_browser : bool) : bool :=
  conn &&
  match opened_browser env force_new_browser ≫= getEnumeration with
  | Ok steps => unbroken steps
  | Raise _ => false
  end.

(** ** Further notions: the poll loop *)

(** A computation that emits no "messages updated" signal. *)
Definition quietly {A} (m : Py A) : Prop :=
  ∀ s, ∃ quiet, trace (m s).2 = trace s ++ quiet ∧
                Forall (fun ev => is_broadcast ev = false) quiet.

(** ** Message sender: [send_message] *)

(** What the broker answers during one [send_message] call;
    [setStringProperty key value] is the outcome of setting that property
    on the new text message. *)
Record SendEnv : Type := {
  send_createQueue : result unit;
  send_createTopic : result unit;
  createProducer : result unit;
  createTextMessage : result unit;
  setStringProperty : string -> string -> result unit;
  producer_send : result unit;
  producer_close : result unit
}.

(** [for key, value in properties.items()] *)
Fixpoint set_properties (env : SendEnv) (items : list (string * string))
    : Py unit :=
  match items with
  | [] => py_ret tt
  | (key, value) :: rest =>
      (call "text_message.setStringProperty"
         (setStringProperty env key value) ;;;
       set_properties env rest)%py
  end.

(** [properties] is the list of items of the dict, in its order; [None]
    and the empty dict are both [[]], as [if properties:] treats them
    alike. *)
Definition send_message (env : SendEnv)
    (destination_name destination_type message_body : string)
    (properties : list (string * string)) : Py bool :=
  try_except
    (conn <- gets connection ;;
     sess <- gets session ;;
     if negb (truthy conn) || negb (truthy sess) then
       emit (error_signal "Not connected to broker") ;;; py_ret false
     else
       (if String.eqb destination_type "queue" then
          call "session.createQueue" (send_createQueue env)
        else call "session.createTopic" (send_createTopic env)) ;;;
       call "session.createProducer" (createProducer env) ;;;
       call "session.createTextMessage" (createTextMessage env) ;;;
       set_properties env properties ;;;
       call "producer.send" (producer_send env) ;;;
       call "producer.close" (producer_close env) ;;;
       emit (log_signal ("Message sent to " +:+ destination_type +:+ " " +:+
                         destination_name)) ;;;
       py_ret true)%py
    (fun e =>
       emit (error_signal ("Error sending message: " +:+ e)) ;;;
       py_ret false)%py.

(** ** Further notions: sending *)

Definition succeeds {A} (r : result A) : bool :=
  match r with Ok _ => true | Raise _ => false end.

(** Every call that [send_message] makes before [producer.send]
    succeeds: the destination of the given kind, the producer, the text
    message and every property. *)
Definition prepared (env : SendEnv) (destination_type : string)
    (properties : list (string * string)) : bool :=
  succeeds (if String.eqb destination_type "queue"
            then send_createQueue env else send_createTopic env) &&
  succeeds (createProducer env) && succeeds (createTextMessage env) &&
  forallb (fun kv => succeeds (setStringProperty env kv.1 kv.2)) properties.
(** ** Topic subscription manager: [subscribe_to_topic] *)

(** A message as [subscribe_to_topic] reads it: the accessors of
    [JMessage] and those of the map and object variants.  [getMapNames]
    gives the outcomes of the successive rounds of the names cursor
    ([hasMoreElements()], then [nextElement()]; a raise of either ends the
    loop the same way), [getObject key] is [str(message.getObject(key))] and
    [getObjectClassName] is [message.getObject().getClass().getName()]. *)
Record TopicMessage : Type := {
  jms : JMessage;
  getMapNames : result (list (result string));
  getObject : string -> result string;
  getObjectClassName : result string
}.

(** What the broker and the runtime answer during one
    [subscribe_to_topic] call: [receive i] is the outcome of the [i]-th
    [consumer.receive(100)], [Ok None] a timeout; [jms_package] is the
    outcome of looking up [self.jakarta.jms] or [self.javax.jms];
    [str_dict] is Python's [str] of a dict of strings, given by its items
    in insertion order; [format_exc] is [traceback.format_exc()]. *)
Record SubscribeEnv : Type := {
  sub_createTopic : result unit;
  sub_createConsumer : result (result unit);
  receive : nat -> result (option TopicMessage);
  jms_package : result unit;
  str_dict : list (string * string) -> string;
  format_exc : string
}.

(** [d[key] = value] on a dict kept as the list of its items, in
    insertion order. *)
Fixpoint dict_set (d : list (string * string)) (key value : string)
    : list (string * string) :=
  match d with
  | [] => [(key, value)]
  | (k, v) :: rest =>
      if String.eqb k key then (k, value) :: rest
      else (k, v) :: dict_set rest key value
  end.

(** The [while map_names.hasMoreElements()] loop filling [map_content]. *)
Fixpoint read_map (message : TopicMessage) (names : list (result string))
    (map_content : list (string * string))
    : result (list (string * string)) :=
  match names with
  | [] => Ok map_content
  | Raise e :: _ => Raise e
  | Ok key :: rest =>
      read_map message rest
        (dict_set map_content key
           (match getObject message key with
            | Ok value => value
            | Raise _ => "[Complex object]"
            end))
  end.

(** The inner [try] of "Enhanced message body extraction": the body it
    assigns, or the exception it raises, next to [message_type] as last
    assigned.  Wherever the [try] raises, [body] is still
    ["Unknown data type"]. *)
Definition typed_body (env : SubscribeEnv) (message : TopicMessage)
    : result string * string :=
  match jms_package env with
  | Raise e => (Raise e, "unknown")
  | Ok _ =>
      match getClassName (jms message) with
      | Raise e => (Raise e, "unknown")
      | Ok message_class =>
          if contains "TextMessage" message_class then
            (getText (jms message), "text")
          else if contains "BytesMessage" message_class then
            (if hasattr_getText (jms message) then getText (jms message)
             else Ok "Binary data (not readable as text)", "bytes")
          else if contains "MapMessage" message_class then
            (names ← getMapNames message;
             map_content ← read_map message names [];
             Ok (str_dict env map_content), "map")
          else if contains "ObjectMessage" message_class then
            (Ok match getObjectClassName message with
                | Ok name => "Java object: " +:+ name
                | Raise _ => "Java object (not convertible to string)"
                end, "object")
          else if contains "StreamMessage" message_class then
            (Ok "Stream data (not displayed in text form)", "stream")
          else if hasattr_getText (jms message) then
            match getText (jms message) with
            | Ok text => (Ok text, "text (fallback)")
            | Raise e => (Raise e, "unknown")
            end
          else if hasattr_toString (jms message) then
            match toString (jms message) with
            | Ok text => (Ok text, "string (toString)")
            | Raise e => (Raise e, "unknown")
            end
          else (Ok "Unknown data type", "unknown")
      end
  end.

(** The body extraction with its handler: the pair
    [(body, message_type)]. *)
Definition enhanced_body (env : SubscribeEnv) (message : TopicMessage)
    : Py (string * string) :=
  match typed_body env message with
  | (Ok body, message_type) => py_ret (body, message_type)
  | (Raise e, message_type) =>
      (emit (error_signal ("Error extracting message body: " +:+ e +:+
                           "::non-critical")) ;;;
       match py_str (jms message) with
       | Ok body => py_ret (body, "string (str conversion)")
       | Raise _ => py_ret ("Unknown data type", message_type)
       end)%py
  end.

(** The body of the [try] inside [while message is not None]: the record
    appended to [messages]. *)
Definition topic_record (env : SubscribeEnv) (topic_name : string)
    (message : TopicMessage) : Py Message :=
  (message_id <- lift (getJMSMessageID (jms message)) ;;
   names <- lift (getPropertyNames (jms message)) ;;
   props <- lift (read_properties (jms message) names ∅) ;;
   bt <- enhanced_body env message ;;
   ts <- lift (getJMSTimestamp (jms message)) ;;
   py_ret {| msg_id := message_id; msg_body := bt.1; msg_properties := props;
             msg_destination := topic_name; msg_type := "topic";
             msg_message_type := bt.2; msg_timestamp := ts |})%py.

(** [while message is not None], for at most [fuel] iterations; [i] is
    the number of [receive] calls made so far.  The handler of the inner
    [try] ends in [continue], which goes back to the loop test without the
    [receive] at the end of the body.  [None]: the loop has not ended
    within [fuel] iterations. *)
Fixpoint receive_loop (fuel : nat) (env : SubscribeEnv) (topic_name : string)
    (message : TopicMessage) (i : nat) (messages : list Message)
    : Py (option (list Message)) :=
  match fuel with
  | 0 => py_ret None
  | S fuel' =>
      (r <- attempt (topic_record env topic_name message) ;;
       match r with
       | Ok record =>
           next <- call "consumer.receive" (receive env i) ;;
           match next with
           | None => py_ret (Some (messages ++ [record]))
           | Some message' =>
               receive_loop fuel' env topic_name message' (S i)
                 (messages ++ [record])
           end
       | Raise e =>
           emit (error_signal ("Error processing message from topic " +:+
                               topic_name +:+ ": " +:+ e +:+
                               "::non-critical")) ;;;
           receive_loop fuel' env topic_name message i messages
       end)%py
  end.

(** [None]: the call has not returned within [fuel] iterations of its
    loop. *)
Definition subscribe_to_topic (fuel : nat) (env : SubscribeEnv)
    (topic_name : string) (update_ui auto_refresh : bool)
    : Py (option (list Message)) :=
  try_except
    (conn <- gets connection ;;
     sess <- gets session ;;
     if negb (truthy conn) || negb (truthy sess) then
       emit (error_signal "Not connected to broker") ;;; py_ret (Some [])
     else
       consumers <- gets topic_consumers ;;
       if bool_decide (topic_key topic_name ∈ dom consumers) then
         cache <- gets message_cache ;;
         match cache !! topic_key topic_name with
         | Some messages =>
             when update_ui (emit (update_messages_signal messages)) ;;;
             py_ret (Some messages)
         | None =>
             when update_ui (emit (update_messages_signal [])) ;;;
             py_ret (Some [])
         end
       else
         call "session.createTopic" (sub_createTopic env) ;;;
         consumer <- session_createConsumer (sub_createConsumer env)
                       topic_name ;;
         first <- call "consumer.receive" (receive env 0) ;;
         match first with
         | None =>
             emit (log_signal ("No messages available on topic " +:+
                               topic_name)) ;;;
             consumer_close_call consumer ;;;
             when update_ui (emit (update_messages_signal [])) ;;;
             py_ret (Some [])
         | Some message =>
             r <- receive_loop fuel env topic_name message 1 [] ;;
             match r with
             | None => py_ret None
             | Some messages =>
                 consumer_close_call consumer ;;;
                 when update_ui (emit (update_messages_signal messages)) ;;;
                 py_ret (Some messages)
             end
         end)%py
    (fun e =>
       emit (error_signal ("Error subscribing to topic: " +:+ e +:+
                           "::non-critical")) ;;;
       emit (log_signal (format_exc env)) ;;;
       py_ret (Some []))%py.

(** ** Further notions: subscribing *)

(** The accessors that the record of a message needs all answer: its
    id, its property names and properties, and its timestamp. *)
Definition readable (message : TopicMessage) : bool :=
  succeeds (getJMSMessageID (jms message)) &&
  succeeds (names ← getPropertyNames (jms message);
            read_properties (jms message) names ∅) &&
  succeeds (getJMSTimestamp (jms message)).

(** A topic that holds exactly [pending] for a new consumer: the
    [receive] calls deliver them in order, then time out. *)
Definition holding (env : SubscribeEnv) (pending : list TopicMessage)
    : Prop :=
  (∀ i message, pending !! i = Some message →
     receive env i = Ok (Some message)) ∧
  receive env (length pending) = Ok None.

(** The number of calls of [method] in a trace. *)
Definition is_call (method : string) (ev : Event) : bool :=
  match ev with
  | Call m => String.eqb m method
  | Emit _ => false
  end.

Definition calls (method : string) (evs : list Event) : nat :=
  length (List.filter (is_call method) evs).

Definition is_error (ev : Event) : bool :=
  match ev with
  | Emit (error_signal _) => true
  | _ => false
  end.

(** The record of [message] carries its id and timestamp and is marked
    as coming from topic [topic_name]. *)
Definition record_of (topic_name : string) (message : TopicMessage)
    (r : Message) : Prop :=
  getJMSMessageID (jms message) = Ok (msg_id r) ∧
  getJMSTimestamp (jms message) = Ok (msg_timestamp r) ∧
  msg_type r = "topic" ∧ msg_destination r = topic_name.

(** The consumer that the next [createConsumer] on [topic_name] opens. *)
Definition next_on (s : JVMThread) (topic_name : string)
    (closes : result unit) : Consumer :=
  {| consumer_id := next_consumer s; consumer_topic := topic_name;
     consumer_close := closes |}.

(** The listener callback run on each of [arrivals], in order. *)
Definition deliver (topic_name : string) (arrivals : list JMessage)
    (s : JVMThread) : JVMThread :=
  fold_left (fun s message =>
               (_on_topic_message (Some message) topic_name s).2) arrivals s.

(** The record the callback caches for an arrival, if its id and
    timestamp can be read. *)
Definition arrived (topic_name : string) (message : JMessage)
    : option Message :=
  match getJMSMessageID message, getJMSTimestamp message with
  | Ok i, Ok t => Some (message_info i (topic_body message) topic_name t)
  | _, _ => None
  end.
(** ** Connection manager: [connect_to_broker] *)

(** The outcome of the reachability check: the socket is created, given
    its timeout, connected and closed ([Reachable]); [connect] or [close]
    raises [socket.error] ([SocketError]); or anything else is raised on
    the way, [int(port)] included ([ProbeRaises]). *)
Inductive Probe : Type :=
  | Reachable
  | SocketError
  | ProbeRaises (e : string).

(** What the runtime and the broker answer during one
    [connect_to_broker] call.  [jakarta_jms] and [javax_jms] are the
    outcomes of loading the two JMS packages, [JClass] that of looking up
    the connection factory class and [new_factory] that of constructing the
    factory; [AUTO_ACKNOWLEDGE] is the outcome of reading the constant from
    the loaded package, and [connect_createSession mode] that of
    [createSession(False, mode)]. *)
Record ConnectEnv : Type := {
  jakarta_jms : result unit;
  javax_jms : result unit;
  probe : Probe;
  JClass : result unit;
  new_factory : result unit;
  setUserName : result unit;
  setPassword : result unit;
  createConnection : result Handle;
  connection_start : result unit;
  AUTO_ACKNOWLEDGE : result Z;
  connect_createSession : Z -> result Handle;
  connect_format_exc : string
}.

(** [if username and password] *)
Definition credentials (username password : string) : bool :=
  negb (String.eqb username "") && negb (String.eqb password "").

(** The attributes [connection_params], which nothing reads, and
    [jakarta], [javax], [jms_package] and [using_jakarta], whose later
    reads are outcomes of the environment, are not part of [JVMThread]. *)
Definition connect_to_broker (env : ConnectEnv)
    (method host port username password : string) : Py bool :=
  try_except
    (match jakarta_jms env, javax_jms env with
     | Raise _, Raise e =>
         emit (error_signal ("Could not load JMS packages: " +:+ e)) ;;;
         emit (error_signal
                 "Make sure ActiveMQ JARs are in the correct location") ;;;
         py_ret false
     | _, _ =>
         let connection_url := method +:+ "://" +:+ host +:+ ":" +:+ port in
         emit (log_signal ("Connecting to ActiveMQ at " +:+ connection_url)) ;;;
         match probe env with
         | ProbeRaises e => lift (Raise e)
         | SocketError =>
             emit (error_signal ("Could not connect to " +:+ host +:+ ":" +:+
                                 port)) ;;;
             emit (error_signal
                     "Please make sure ActiveMQ is running and accessible") ;;;
             emit (error_signal
                     "You can start ActiveMQ using the LoadActiveMQ tab") ;;;
             emit (error_signal
                     "Wrong host/port - verify connection settings") ;;;
             py_ret false
         | Reachable =>
             call "jpype.JClass" (JClass env) ;;;
             call "ActiveMQConnectionFactory" (new_factory env) ;;;
             when (credentials username password)
               (call "factory.setUserName" (setUserName env) ;;;
                call "factory.setPassword" (setPassword env)) ;;;
             conn <- call "factory.createConnection" (createConnection env) ;;
             modify (set_connection (Some conn)) ;;;
             call "connection.start" (connection_start env) ;;;
             let mode := match AUTO_ACKNOWLEDGE env with
                         | Ok v => v
                         | Raise _ => 1%Z
                         end in
             sess <- call "connection.createSession"
                       (connect_createSession env mode) ;;
             modify (set_session (Some sess)) ;;;
             emit (log_signal ("Connected to broker at " +:+ connection_url)) ;;;
             py_ret true
         end
     end)%py
    (fun e =>
       emit (error_signal ("Error connecting to broker: " +:+ e)) ;;;
       emit (error_signal (connect_format_exc env)) ;;;
       py_ret false)%py.

(** ** Further notions: connecting *)

(** Everything before [createConnection] succeeds: a JMS package loads,
    the broker is reachable, the factory is built and, if credentials are
    given, accepts them. *)
Definition reaches_broker (env : ConnectEnv) (username password : string)
    : bool :=
  (succeeds (jakarta_jms env) || succeeds (javax_jms env)) &&
  match probe env with Reachable => true | _ => false end &&
  succeeds (JClass env) && succeeds (new_factory env) &&
  (if credentials username password
   then succeeds (setUserName env) && succeeds (setPassword env)
   else true).

(** The acknowledge mode passed to [createSession]. *)
Definition ack_mode (env : ConnectEnv) : Z :=
  match AUTO_ACKNOWLEDGE env with
  | Ok v => v
  | Raise _ => 1%Z
  end.

(** The connection and the session of a connect that goes through. *)
Definition established (env : ConnectEnv) (username password : string)
    : option (Handle * Handle) :=
  if reaches_broker env username password then
    match createConnection env, connection_start env,
          connect_createSession env (ack_mode env) with
    | Ok conn, Ok _, Ok sess => Some (conn, sess)
    | _, _, _ => None
    end
  else None.

(** Two objects that differ at most in their handles and their trace. *)
Definition same_but_handles (s s' : JVMThread) : Prop :=
  monitor_running s' = monitor_running s ∧
  message_cache s' = message_cache s ∧
  topic_consumers s' = topic_consumers s ∧
  same_lists s s' ∧
  _cached_queues s' = _cached_queues s ∧
  _cached_topics s' = _cached_topics s ∧
  broker_consumers s' = broker_consumers s.

Definition is_emit (ev : Event) : bool :=
  match ev with Emit _ => true | Call _ => false end.

(** ** The properties line of the message editor

    [message_selected] shows the properties of a message as one line and
    [send_edited_message] parses that line back into a dict.  Characters
    are code points below 256. *)

Definition comma : Ascii.ascii := Ascii.ascii_of_nat 44.
Definition equals_sign : Ascii.ascii := Ascii.ascii_of_nat 61.

(** [c.isspace()], which is what [str.strip()] removes. *)
Definition py_isspace (c : Ascii.ascii) : bool :=
  let n := Ascii.nat_of_ascii c in
  (9 <=? n) && (n <=? 13) || (28 <=? n) && (n <=? 32) ||
  (n =? 133) || (n =? 160).

Fixpoint lstrip (s : string) : string :=
  match s with
  | EmptyString => EmptyString
  | String c rest => if py_isspace c then lstrip rest else s
  end.

Fixpoint rstrip (s : string) : string :=
  match s with
  | EmptyString => EmptyString
  | String c rest =>
      match rstrip rest with
      | EmptyString => if py_isspace c then EmptyString
                       else String c EmptyString
      | r => String c r
      end
  end.

(** [s.strip()] *)
Definition strip (s : string) : string := rstrip (lstrip s).

(** [s.split(sep)] for a separator of one character. *)
Fixpoint split (sep : Ascii.ascii) (s : string) : list string :=
  match s with
  | EmptyString => [EmptyString]
  | String c rest =>
      if Ascii.eqb c sep then EmptyString :: split sep rest
      else match split sep rest with
           | head :: tail => String c head :: tail
           | [] => [String c EmptyString]
           end
  end.

(** [s.split(sep, 1)] when [sep in s]; [None] when [sep] is not in [s]. *)
Fixpoint split_once (sep : Ascii.ascii) (s : string) : option (string * string) :=
  match s with
  | EmptyString => None
  | String c rest =>
      if Ascii.eqb c sep then Some (EmptyString, rest)
      else match split_once sep rest with
           | Some (key, value) => Some (String c key, value)
           | None => None
           end
  end.

(** "Parse properties" in [send_edited_message]: the dict, as the list of
    its items in insertion order. *)
Definition parse_properties (properties_str : string)
    : list (string * string) :=
  if String.eqb properties_str "" then []
  else
    fold_left
      (fun properties prop =>
         match split_once equals_sign prop with
         | Some (key, value) => dict_set properties (strip key) (strip value)
         | None => properties
         end)
      (split comma properties_str) [].

(** "Display properties" in [message_selected]: the text put into the
    properties line for a dict with the given items. *)
Definition properties_line (items : list (string * string)) : string :=
  String.concat "," ((fun kv => kv.1 +:+ "=" +:+ kv.2) <$> items).

(** ** Further notions: the properties line *)

Fixpoint has_char (c : Ascii.ascii) (s : string) : bool :=
  match s with
  | EmptyString => false
  | String c' rest => Ascii.eqb c' c || has_char c rest
  end.

(** A property that survives the properties line: its name has neither
    a comma nor an equals sign, its value has no comma, and neither begins
    or ends with white space. *)
Definition survives (kv : string * string) : Prop :=
  has_char comma kv.1 = false ∧ has_char equals_sign kv.1 = false ∧
  has_char comma kv.2 = false ∧ strip kv.1 = kv.1 ∧ strip kv.2 = kv.2.

(** ** The messages table: [update_messages_table]

    The slot of [update_messages_signal].  Of the widget state, the rows
    of [messagesTable] and the text of [statusTextBox] are modelled;
    headers, column sizes, scrolling and the update flag are display
    only. *)

(** A row of the table: the items of its five columns, [None] where no
    item has been set.  The item of column 0 carries the message dict as
    its [Qt.UserRole] data once [setData] has been called on it. *)
Record Row : Type := {
  id_item : option (string * option Message);
  destination_item : option string;
  type_item : option string;
  timestamp_item : option string;
  body_item : option string
}.

Record Tab : Type := {
  messagesTable : list Row;
  statusTextBox : list string
}.

(** [message.replace("::non-critical", "")]: the occurrences are removed
    from left to right; [skip] counts the characters of an occurrence that
    are still to be dropped. *)
Fixpoint remove_marker (skip : nat) (message : string) : string :=
  match message with
  | EmptyString => EmptyString
  | String c rest =>
      match skip with
      | S skip' => remove_marker skip' rest
      | 0 =>
          if String.prefix "::non-critical" message
          then remove_marker (String.length "::non-critical" - 1) rest
          else String c (remove_marker 0 rest)
      end
  end.

Definition log_message (message : string) (ui : Tab) : Tab :=
  {| messagesTable := messagesTable ui;
     statusTextBox := statusTextBox ui ++ [message] |}.

Definition log_error (message : string) (ui : Tab) : Tab :=
  log_message
    ("ERROR: " +:+
     (if contains "::non-critical" message then remove_marker 0 message
      else message)) ui.

(** [item and item.data(Qt.UserRole)] for the item of column 0. *)
Definition stored (row : Row) : option Message :=
  match id_item row with
  | Some (_, data) => data
  | None => None
  end.

(** "Build a set of existing message IDs". *)
Definition existing_ids (table : list Row) : gset string :=
  list_to_set (msg_id <$> omap stored table).

(** The body of [for i, message in enumerate(new_messages)]: the row is
    filled item by item and the message stored last; [strftime] is the
    outcome of formatting the timestamp, and when it raises the row is
    left as far as it got and the error is logged. *)
Definition add_row (strftime : Z -> result string) (ui : Tab)
    (message : Message) : Tab :=
  let id_text := String.substring 0 20 (msg_id message) in
  let dest := msg_type message +:+ ":" +:+ msg_destination message in
  match strftime (msg_timestamp message) with
  | Ok ts =>
      let body :=
        String.substring 0 100 (msg_body message) +:+
        (if bool_decide (100 < String.length (msg_body message))
         then "..." else "") in
      {| messagesTable :=
           messagesTable ui ++
           [{| id_item := Some (id_text, Some message);
               destination_item := Some dest;
               type_item := Some (msg_message_type message);
               timestamp_item := Some ts;
               body_item := Some body |}];
         statusTextBox := statusTextBox ui |}
  | Raise e =>
      log_error ("Error adding message to table: " +:+ e)
        {| messagesTable :=
             messagesTable ui ++
             [{| id_item := Some (id_text, None);
                 destination_item := Some dest;
                 type_item := Some (msg_message_type message);
                 timestamp_item := None;
                 body_item := None |}];
           statusTextBox := statusTextBox ui |}
  end.

Definition update_messages_table (strftime : Z -> result string)
    (messages : list Message) (ui : Tab) : Tab :=
  if is_nil messages then ui
  else
    let seen := existing_ids (messagesTable ui) in
    let new_messages := filter (fun message => msg_id message ∉ seen)
                          messages in
    if is_nil new_messages && negb (is_nil (messagesTable ui)) then ui
    else fold_left (add_row strftime) new_messages ui.

(** ** Selecting a destination: [TabContent.destination_selected]

    The widget owns the thread object and calls its methods directly.  The
    signals that the thread object emits are recorded in its trace; the
    lines the widget writes itself go to its status box. *)
Record TabContent : Type := {
  ui : Tab;
  jvm_thread : JVMThread;
  current_destination : option string;
  current_destination_type : option string
}.

Definition set_ui (v : Tab) (w : TabContent) : TabContent :=
  {| ui := v; jvm_thread := jvm_thread w;
     current_destination := current_destination w;
     current_destination_type := current_destination_type w |}.

Definition set_jvm_thread (v : JVMThread) (w : TabContent) : TabContent :=
  {| ui := ui w; jvm_thread := v;
     current_destination := current_destination w;
     current_destination_type := current_destination_type w |}.

Definition set_current_destination (name kind : string) (w : TabContent)
    : TabContent :=
  {| ui := ui w; jvm_thread := jvm_thread w;
     current_destination := Some name;
     current_destination_type := Some kind |}.

(** [self.jvm_thread.m(...)] *)
Definition thread_call {A} (m : Py A) (w : TabContent)
    : result A * TabContent :=
  match m (jvm_thread w) with
  | (r, s') => (r, set_jvm_thread s' w)
  end.

(** [self.log_message(message)] *)
Definition tab_log_message (message : string) (w : TabContent) : TabContent :=
  set_ui (log_message message (ui w)) w.

(** [destination_name] is [item.text()]; [browse_env] and [listener_env]
    are what the broker answers should the call browse or subscribe. *)
Definition destination_selected (browse_env : BrowseEnv)
    (listener_env : ListenerEnv) (destination_name destination_type : string)
    (w : TabContent) : result unit * TabContent :=
  if bool_decide (current_destination w = Some destination_name) &&
     bool_decide (current_destination_type w = Some destination_type)
  then (Ok tt, w)
  else
    let w := set_current_destination destination_name destination_type w in
    if String.eqb destination_type "queue" then
      match thread_call
              (browse_queue browse_env destination_name true false true) w with
      | (Ok _, w) => (Ok tt, w)
      | (Raise e, w) => (Raise e, w)
      end
    else
      let key := topic_key destination_name in
      match
        (if bool_decide (key ∉ dom (topic_consumers (jvm_thread w)))
         then
           match thread_call
                   (create_topic_message_listener listener_env
                      destination_name) w with
           | (Ok consumer, w) =>
               (Ok tt,
                if truthy consumer then
                  tab_log_message
                    ("Subscribed to topic " +:+ destination_name +:+
                     " - messages will appear when published") w
                else w)
           | (Raise e, w) => (Raise e, w)
           end
         else
           (Ok tt,
            tab_log_message
              ("Already subscribed to topic " +:+ destination_name +:+
               " - messages will appear when published") w))
      with
      | (Ok _, w) =>
          match message_cache (jvm_thread w) !! key with
          | Some messages =>
              if negb (is_nil messages) then
                thread_call (emit (update_messages_signal messages))
                  (tab_log_message
                     ("Found " +:+ pretty (length messages) +:+
                      " cached messages for topic " +:+ destination_name) w)
              else (Ok tt, w)
          | None => (Ok tt, w)
          end
      | (Raise e, w) => (Raise e, w)
      end.

(** ** Further notions: the messages table *)

(** The messages of a list whose id is not stored in the table. *)
Definition unseen (table : list Row) (messages : list Message)
    : list Message :=
  filter (fun message => msg_id message ∉ existing_ids table) messages.

(** [row] is a row added for [message]: it stores the message, unless
    its timestamp could not be formatted. *)
Definition row_for (strftime : Z -> result string) (message : Message)
    (row : Row) : Prop :=
  stored row = if succeeds (strftime (msg_timestamp message))
               then Some message else None.

(** ** Further notions: what the monitor thread may touch *)

(** [s'] differs from [s] at most in the trace and in the cache entries
    of [queues]. *)
Definition lane (queues : list string) (s s' : JVMThread) : Prop :=
  connection s' = connection s ∧ session s' = session s ∧
  monitor_running s' = monitor_running s ∧
  topic_consumers s' = topic_consumers s ∧
  same_lists s s' ∧
  _cached_queues s' = _cached_queues s ∧
  _cached_topics s' = _cached_topics s ∧
  broker_consumers s' = broker_consumers s ∧
  (∀ key, key ∉ queue_key <$> queues →
     message_cache s' !! key = message_cache s !! key).
(** ** Further notions: what discovery and browsing put on the wire *)

(** A computation whose outcome does not depend on the object, whose
    only effect is on the trace, and all of whose events pass [allowed]. *)
Definition confined {A} (allowed : Event -> bool) (m : Py A) : Prop :=
  ∃ r, ∀ s, ∃ evs, m s = (r, add_events evs s) ∧
                   Forall (fun ev => allowed ev = true) evs.

(** The two destination signals. *)
Definition is_listing (ev : Event) : bool :=
  match ev with
  | Emit (update_queues_signal _) | Emit (update_topics_signal _) => true
  | _ => false
  end.

(** Neither a destination signal nor a call that sets up an advisory
    consumer. *)
Definition passive (ev : Event) : bool :=
  negb (is_listing ev) && negb (is_call "session.createTopic" ev) &&
  negb (is_call "session.createConsumer" ev).

(** What the primary strategy alone lists. *)
Definition listed (env : DiscoverEnv) : list string * list string :=
  match (destination_source env init).1 with
  | Ok v => v
  | Raise _ => ([], [])
  end.

(** The browse opens a temporary session. *)
Definition opens_temp_session (env : BrowseEnv) (force_new_browser : bool)
    : bool :=
  force_new_browser && succeeds (createQueue env) &&
  succeeds (createSession env).

(** The [close()] of the browser that the browse reads from succeeds. *)
Definition browser_closes (env : BrowseEnv) (force_new_browser : bool)
    : bool :=
  match opened_browser env force_new_browser with
  | Ok browser => succeeds (browser_close browser)
  | Raise _ => false
  end.

(** ** Further notions: consumers and the table *)

(** The consumers open on the broker are those of the table, one per
    entry; each closes without error and sits under the key of its
    topic. *)
Definition in_sync (s : JVMThread) : Prop :=
  broker_consumers s ≡ₚ (map_to_list (topic_consumers s)).*2 ∧
  ∀ key c, topic_consumers s !! key = Some c →
    consumer_close c = Ok tt ∧ key = topic_key (consumer_topic c).

(** A broker that grants every listener, with consumers that close. *)
Definition generous (envs : string -> ListenerEnv) : Prop :=
  ∀ t, createTopic (envs t) = Ok tt ∧ createConsumer (envs t) = Ok (Ok tt) ∧
       setMessageListener (envs t) = Ok tt.

(** ** Further notions: selections and consumers *)

(** The consumers open on the broker are those of the table, one per
    entry, each under the key of its topic. *)
Definition tracked (s : JVMThread) : Prop :=
  broker_consumers s ≡ₚ (map_to_list (topic_consumers s)).*2 ∧
  ∀ key c, topic_consumers s !! key = Some c →
    key = topic_key (consumer_topic c).

(** The consumers open on the broker for topic [name]. *)
Definition consumers_for (name : string) (s : JVMThread) : list Consumer :=
  filter (fun c => consumer_topic c = name) (broker_consumers s).

(** A consumer that the broker creates accepts its listener. *)
Definition registers (env : ListenerEnv) : Prop :=
  ∀ closes, createConsumer env = Ok closes → setMessageListener env = Ok tt.

(** One click on a destination list: the name and the kind of the item,
    and what the broker answers during the call. *)
Record Selection : Type := {
  selected_name : string;
  selected_type : string;
  browse_answers : BrowseEnv;
  listener_answers : ListenerEnv
}.

Definition select (c : Selection) (w : TabContent) : result unit * TabContent :=
  destination_selected (browse_answers c) (listener_answers c)
    (selected_name c) (selected_type c) w.

(** A sequence of clicks. *)
Definition select_each (selections : list Selection) (w : TabContent)
    : TabContent :=
  fold_left (fun w c => (select c w).2) selections w.

(** * Sample inputs *)

Definition sample_handle (n : nat) (r : result unit) : Handle :=
  {| handle_id := n; close := r |}.

(** A connected object whose handles close without error. *)
Definition connected : JVMThread :=
  set_session (Some (sample_handle 2 (Ok tt)))
    (set_connection (Some (sample_handle 1 (Ok tt))) init).

(** A connected object whose session refuses to close. *)
Definition stuck_session : JVMThread :=
  set_session (Some (sample_handle 2 (Raise "session is busy")))
    (set_connection (Some (sample_handle 1 (Ok tt))) init).

(** A JMS message of class [cls] with id [i], no properties, [toString]
    [dump] and, when [text] is given, [getText] returning it. *)
Definition sample_message (cls i dump : string) (text : option string)
    : JMessage :=
  {| getJMSMessageID := Ok i;
     getPropertyNames := Ok [];
     getStringProperty := fun _ => Ok "None";
     getClassName := Ok cls;
     hasattr_getText := truthy text;
     getText := match text with
                | Some t => Ok t
                | None => Raise "no attribute getText"
                end;
     hasattr_toString := true;
     toString := Ok dump;
     py_str := Ok dump;
     getJMSTimestamp := Ok 1700000000000%Z |}.

Definition text_message (i text : string) : JMessage :=
  sample_message "org.apache.activemq.command.ActiveMQTextMessage" i
    ("ActiveMQTextMessage {text = " +:+ text +:+ "}") (Some text).

Definition map_message (i : string) : JMessage :=
  sample_message "org.apache.activemq.command.ActiveMQMapMessage" i
    "ActiveMQMapMessage {theTable = {k=v}}" None.

(** A text message whose property enumeration raises. *)
Definition broken_message (i text : string) : JMessage :=
  {| getJMSMessageID := Ok i;
     getPropertyNames := Raise "MessageFormatException";
     getStringProperty := fun _ => Ok "None";
     getClassName := Ok "org.apache.activemq.command.ActiveMQTextMessage";
     hasattr_getText := true;
     getText := Ok text;
     hasattr_toString := true;
     toString := Ok text;
     py_str := Ok text;
     getJMSTimestamp := Ok 1700000000000%Z |}.

Definition sample_browser (steps : Enumeration) : Browser :=
  {| getEnumeration := Ok steps; browser_close := Ok tt |}.

(** A broker that opens every session and browser asked for; the queue
    holds [steps]. *)
Definition sample_browse_env (steps : Enumeration) : BrowseEnv :=
  {| createQueue := Ok tt;
     createSession := Ok (sample_handle 3 (Ok tt));
     temp_createBrowser := Ok (sample_browser steps);
     createBrowser := Ok (sample_browser steps) |}.

(** A cursor that delivers two messages and whose loop test then raises. *)
Definition interrupted_cursor : Enumeration :=
  delivering [text_message "ID:1" "a"; text_message "ID:2" "b"] ++
  [HasMoreRaises "JMSException"].

Definition five_messages : list JMessage :=
  [text_message "ID:1" "a"; text_message "ID:2" "b";
   broken_message "ID:3" "c";
   text_message "ID:4" "d"; text_message "ID:5" "e"].

Definition text_record (queue_name i text : string) : Message :=
  {| msg_id := i; msg_body := text; msg_properties := ∅;
     msg_destination := queue_name; msg_type := "queue";
     msg_message_type := "text"; msg_timestamp := 1700000000000%Z |}.

(** A map message that carries a broker-side property and whose id
    cannot be read, and one that is readable. *)
Definition unreadable_message : JMessage :=
  {| getJMSMessageID := Raise "JMSException";
     getPropertyNames := Ok [Ok "JMSXGroupID"];
     getStringProperty := fun _ => Ok "g1";
     getClassName := Ok "org.apache.activemq.command.ActiveMQMapMessage";
     hasattr_getText := false;
     getText := Raise "no attribute getText";
     hasattr_toString := true;
     toString := Ok "ActiveMQMapMessage {}";
     py_str := Ok "ActiveMQMapMessage {}";
     getJMSTimestamp := Ok 1700000000000%Z |}.

Definition grouped_map_message : JMessage :=
  {| getJMSMessageID := Ok "ID:9";
     getPropertyNames := Ok [Ok "JMSXGroupID"];
     getStringProperty := fun _ => Ok "g1";
     getClassName := Ok "org.apache.activemq.command.ActiveMQMapMessage";
     hasattr_getText := false;
     getText := Raise "no attribute getText";
     hasattr_toString := true;
     toString := Ok "ActiveMQMapMessage {}";
     py_str := Ok "ActiveMQMapMessage {}";
     getJMSTimestamp := Ok 1700000000000%Z |}.

(** An object whose cache already holds message "ID:9" of topic
    "alerts". *)
Definition alerts_cached : JVMThread :=
  set_message_cache
    {[ topic_key "alerts" :=
         [message_info "ID:9" "ActiveMQMapMessage {}" "alerts"
            1700000000000%Z] ]}
    connected.

(** A broker that grants every topic listener asked for. *)
Definition willing_listener : ListenerEnv :=
  {| createTopic := Ok tt; createConsumer := Ok (Ok tt);
     setMessageListener := Ok tt |}.

(** The consumers two successive subscriptions to "alerts" create. *)
Definition alerts_consumer (n : nat) : Consumer :=
  {| consumer_id := n; consumer_topic := "alerts"; consumer_close := Ok tt |}.

Definition subscribed_once : JVMThread :=
  (create_topic_message_listener willing_listener "alerts" connected).2.

Definition quiet_advisory : AdvisoryEnv :=
  {| adv_createTopic := Ok tt; adv_createConsumer := Ok tt;
     adv_receive := fun _ => Ok None; adv_close := Ok tt |}.

(** A broker whose destination source lists [queues] and no topics, and
    whose advisory topics are silent. *)
Definition broker_with (queues : list string) : DiscoverEnv :=
  {| hasattr_getDestinationSource := true;
     getDestinationSource := Ok tt;
     getQueues := (fun q => {| hasattr_getQueueName := true;
                               getQueueName := Ok q |}) <$> queues;
     getTopics := [];
     advisory_queue := quiet_advisory;
     advisory_topic := quiet_advisory |}.

Definition while_connected (env : DiscoverEnv) : Discovery :=
  {| connection_then := Some (sample_handle 1 (Ok tt));
     session_then := Some (sample_handle 2 (Ok tt));
     broker_then := env |}.

(** A connected object that monitors queue "orders", after the initial
    pass of its monitor thread at time 0 found message "ID:1" there; and
    the thread's locals at that point. *)
Definition orders_watched : result MonitorLocals * JVMThread :=
  monitor_initial
    (fun _ => sample_browse_env (delivering [text_message "ID:1" "a"])) 0
    (start_each (fun _ => willing_listener) [("orders", "queue")] connected).

Definition orders_locals : MonitorLocals :=
  match orders_watched.1 with
  | Ok locals => locals
  | Raise _ => {| last_checks := ∅; last_message_ids := ∅ |}
  end.

(** The broker once the message has been consumed: the queue is empty. *)
Definition drained : string -> BrowseEnv :=
  fun _ => sample_browse_env [].

(** The broker once a second message has arrived. *)
Definition refilled : string -> BrowseEnv :=
  fun _ => sample_browse_env
             (delivering [text_message "ID:1" "a"; text_message "ID:2" "b"]).

(** A consumer on topic "news" whose [close()] raises, and a broker that
    hands it out. *)
Definition stubborn_listener : ListenerEnv :=
  {| createTopic := Ok tt; createConsumer := Ok (Raise "already closing");
     setMessageListener := Ok tt |}.

(** A broker that refuses every topic listener. *)
Definition unwilling_listener : ListenerEnv :=
  {| createTopic := Raise "topic refused"; createConsumer := Ok (Ok tt);
     setMessageListener := Ok tt |}.

(** A connected object subscribed to "alerts" (consumer 0, closes) and
    "news" (consumer 1, does not close). *)
Definition two_subscriptions : JVMThread :=
  (create_topic_message_listener stubborn_listener "news"
     subscribed_once).2.

(** The listeners of a broker that grants "alerts" but not "news". *)
Definition alerts_only : string -> ListenerEnv :=
  fun topic => if String.eqb topic "alerts" then willing_listener
               else unwilling_listener.

(** A connected object with two fresh list objects, holding "orders" and
    the topics "news" and "alerts", to pass to [monitor_all]. *)
Definition with_argument_lists : JVMThread :=
  set_heap (<[11 := ["news"; "alerts"]]> (<[10 := ["orders"]]> (heap connected)))
    connected.

(** A broker whose destination source lists queue "orders" twice, topic
    "alerts" twice and an advisory topic. *)
Definition noisy_broker : DiscoverEnv :=
  {| hasattr_getDestinationSource := true;
     getDestinationSource := Ok tt;
     getQueues := (fun q => {| hasattr_getQueueName := true;
                               getQueueName := Ok q |}) <$>
                  ["orders"; "orders"];
     getTopics := ["alerts"; "ActiveMQ.Advisory.Queue"; "alerts"];
     advisory_queue := quiet_advisory;
     advisory_topic := quiet_advisory |}.

(** A text message carrying two properties. *)
Definition tagged_message : JMessage :=
  {| getJMSMessageID := Ok "ID:5";
     getPropertyNames := Ok [Ok "region"; Ok "priority"; Ok "region"];
     getStringProperty := fun k => if String.eqb k "region" then Ok "eu"
                                   else Ok "7";
     getClassName := Ok "org.apache.activemq.command.ActiveMQTextMessage";
     hasattr_getText := true;
     getText := Ok "hello";
     hasattr_toString := true;
     toString := Ok "ActiveMQTextMessage {text = hello}";
     py_str := Ok "ActiveMQTextMessage {text = hello}";
     getJMSTimestamp := Ok 1700000000000%Z |}.

(** A plain JMS message as [subscribe_to_topic] sees it: it is neither a
    map nor an object message. *)
Definition plain (message : JMessage) : TopicMessage :=
  {| jms := message;
     getMapNames := Raise "no attribute getMapNames";
     getObject := fun _ => Raise "no attribute getObject";
     getObjectClassName := Raise "no attribute getObject" |}.

(** A topic that holds [pending] for a new consumer, on a broker that
    hands out consumers whose [close()] has outcome [closes]. *)
Definition topic_holding (pending : list TopicMessage)
    (closes : result unit) : SubscribeEnv :=
  {| sub_createTopic := Ok tt; sub_createConsumer := Ok closes;
     receive := fun i => Ok (pending !! i); jms_package := Ok tt;
     str_dict := fun items =>
       "{" +:+ String.concat ", "
                 ((fun kv => "'" +:+ kv.1 +:+ "': '" +:+ kv.2 +:+ "'")
                    <$> items) +:+ "}";
     format_exc := "Traceback (most recent call last)" |}.
(** A broker that accepts anonymous connections, and a host on which
    nothing listens. *)
Definition open_broker : ConnectEnv :=
  {| jakarta_jms := Ok tt; javax_jms := Ok tt; probe := Reachable;
     JClass := Ok tt; new_factory := Ok tt;
     setUserName := Ok tt; setPassword := Ok tt;
     createConnection := Ok (sample_handle 1 (Ok tt));
     connection_start := Ok tt;
     AUTO_ACKNOWLEDGE := Ok 1%Z;
     connect_createSession := fun _ => Ok (sample_handle 2 (Ok tt));
     connect_format_exc := "Traceback (most recent call last)" |}.

Definition unreachable_broker : ConnectEnv :=
  {| jakarta_jms := Ok tt; javax_jms := Ok tt; probe := SocketError;
     JClass := Ok tt; new_factory := Ok tt;
     setUserName := Ok tt; setPassword := Ok tt;
     createConnection := Raise "JMSException";
     connection_start := Ok tt;
     AUTO_ACKNOWLEDGE := Ok 1%Z;
     connect_createSession := fun _ => Raise "JMSException";
     connect_format_exc := "Traceback (most recent call last)" |}.

(** A tab whose table has one row, for message "ID:0" of queue
    "orders". *)
Definition one_row : Tab :=
  update_messages_table (fun _ => Ok "2023-11-14 22:13:20")
    [text_record "orders" "ID:0" "z"]
    {| messagesTable := []; statusTextBox := [] |}.

(** A widget whose thread object is connected, nothing selected yet. *)
Definition fresh_tab : TabContent :=
  {| ui := {| messagesTable := []; statusTextBox := [] |};
     jvm_thread := connected;
     current_destination := None; current_destination_type := None |}.

Definition click (name kind : string) : Selection :=
  {| selected_name := name; selected_type := kind;
     browse_answers := sample_browse_env [];
     listener_answers := willing_listener |}.

(** A click answered by a broker whose consumer refuses its listener. *)
Definition refused_click (name kind : string) : Selection :=
  {| selected_name := name; selected_type := kind;
     browse_answers := sample_browse_env [];
     listener_answers :=
       {| createTopic := Ok tt; createConsumer := Ok (Ok tt);
          setMessageListener := Raise "listener refused" |} |}.

(** * Properties *)

Ltac py_unfold :=
  unfold when, emit, call, lift, attempt, try_except, py_bind, py_ret, gets,
    modify in *.

Lemma add_events_app (e1 e2 : list Event) (s : JVMThread) :
  add_events e2 (add_events e1 s) = add_events (e1 ++ e2) s.
Proof. unfold add_events; simpl. by rewrite <- app_assoc. Qed.

Lemma add_events_nil (s : JVMThread) : add_events [] s = s.
Proof. destruct s; unfold add_events; simpl. by rewrite app_nil_r. Qed.

Ltac trace_done :=
  repeat match goal with
         | H : ?x = (_, _) |- context [?x] => rewrite H
         end;
  simpl; rewrite ?add_events_app; eexists; reflexivity.

(** ** Connection manager *)

Lemma disconnect_returns (s : JVMThread) : ∃ b, (disconnect s).1 = Ok b.
Proof.
  destruct s; unfold disconnect; py_unfold; simpl.
  repeat case_match; simplify_eq/=; eauto.
Qed.

(** C8, as stated, fails: [disconnect] does not always leave both handles
    cleared.  When [session.close()] raises, the handler returns [False]
    and both the session and the connection handle stay set. *)
Lemma disconnect_not_always_cleared :
  ¬ (∀ s : JVMThread,
       session (disconnect s).2 = None ∧ connection (disconnect s).2 = None).
Proof.
  intros H. destruct (H stuck_session) as [Hs _].
  vm_compute in Hs. discriminate Hs.
Qed.

(** C8, amended: [disconnect] never raises; when every handle the object
    holds closes without error (vacuously so when it is not connected) the
    call reports success and leaves both handles cleared, and so does a
    second call after it; when closing the session fails the call reports
    failure with both handles as they were; when the session closes but the
    connection does not, the call reports failure with the session handle
    cleared and the connection handle still set. *)
Theorem disconnect_total_and_clears_on_clean_close (s : JVMThread) :
  (∃ b, (disconnect s).1 = Ok b) ∧
  (closes_cleanly s →
     (disconnect s).1 = Ok true ∧
     session (disconnect s).2 = None ∧ connection (disconnect s).2 = None ∧
     (disconnect (disconnect s).2).1 = Ok true ∧
     session (disconnect (disconnect s).2).2 = None ∧
     connection (disconnect (disconnect s).2).2 = None) ∧
  (∀ h e, session s = Some h → close h = Raise e →
     (disconnect s).1 = Ok false ∧
     session (disconnect s).2 = session s ∧
     connection (disconnect s).2 = connection s) ∧
  (∀ h e, (∀ h', session s = Some h' → close h' = Ok tt) →
     connection s = Some h → close h = Raise e →
     (disconnect s).1 = Ok false ∧
     session (disconnect s).2 = None ∧
     connection (disconnect s).2 = Some h).
Proof.
  split; [apply disconnect_returns|].
  destruct s as [conn sess ? ? ? ? ? ? ? ? ? ? ? ?].
  unfold closes_cleanly, disconnect; py_unfold; simpl.
  split; [|split].
  - intros [Hs Hc].
    destruct sess as [hs|], conn as [hc|]; simpl;
      try rewrite (Hs _ eq_refl); simpl;
      try rewrite (Hc _ eq_refl); simpl; auto 10.
  - intros h e -> ->; simpl. auto.
  - intros h e Hs -> Hr.
    destruct sess as [hs|]; simpl;
      try rewrite (Hs _ eq_refl); simpl; rewrite Hr; simpl; auto.
Qed.

Lemma disconnect_total_and_clears_on_clean_close_witness :
  closes_cleanly connected ∧
  (disconnect connected).1 = Ok true ∧
  session (disconnect connected).2 = None ∧
  connection (disconnect connected).2 = None.
Proof.
  assert (Hc : closes_cleanly connected).
  { split; intros h Hh; vm_compute in Hh; by inversion Hh. }
  split; [exact Hc|].
  destruct (disconnect_total_and_clears_on_clean_close connected)
    as (_ & Hclean & _).
  destruct (Hclean Hc) as (H1 & H2 & H3 & _). auto.
Defined.

(** ** Queue browser *)

(** [browse_queue] never raises, returns [browse_messages], and only adds
    to the trace. *)
Lemma browse_queue_run env q u a f s :
  ∃ evs, browse_queue env q u a f s =
         (Ok (browse_messages (is_connected s) env q f), add_events evs s).
Proof.
  unfold browse_queue, browse_messages, is_connected, opened_browser.
  py_unfold. unfold mbind, result_bind.
  destruct (connection s), (session s); simpl; try trace_done.
  destruct (createQueue env); simpl; [|trace_done].
  destruct f; simpl;
    repeat (first [trace_done | case_match; simplify_eq/=]).
Qed.

Lemma scan_messages q steps acc n scanned :
  scan q steps acc n = Ok scanned →
  scanned.1 = acc ++ extracted q (delivered steps).
Proof.
  revert acc n.
  induction steps as [|[e|[[message|]|e]] rest IH]; intros acc n; simpl.
  - intros [= <-]. simpl. by rewrite app_nil_r.
  - done.
  - unfold extracted in *. simpl.
    destruct (extract_message q message) as [r|e]; simpl; intros E;
      rewrite (IH _ _ E); [by rewrite <- app_assoc|done].
  - apply IH.
  - intros [= <-]. simpl. by rewrite app_nil_r.
Qed.

(** The loop over the cursor ends normally exactly when its test never
    raises. *)
Lemma scan_unbroken q steps acc n :
  unbroken steps = true → ∃ scanned, scan q steps acc n = Ok scanned.
Proof.
  revert acc n.
  induction steps as [|[e|[[message|]|e]] rest IH]; intros acc n; simpl;
    try done; eauto.
  intros H. destruct (extract_message q message); by apply IH.
Qed.

Lemma scan_broken q steps acc n :
  unbroken steps = false → ∃ e, scan q steps acc n = Raise e.
Proof.
  revert acc n.
  induction steps as [|[e|[[message|]|e]] rest IH]; intros acc n; simpl;
    try done; eauto.
  intros H. destruct (extract_message q message); by apply IH.
Qed.

Lemma scan_outcome q steps acc n :
  match scan q steps acc n with
  | Ok _ => unbroken steps = true
  | Raise _ => unbroken steps = false
  end.
Proof.
  destruct (unbroken steps) eqn:Hu.
  - by destruct (scan_unbroken q steps acc n Hu) as [? ->].
  - by destruct (scan_broken q steps acc n Hu) as [? ->].
Qed.






(** A browse whose loop test raises, evaluated: the outer handler reports
    the error and returns the empty list; the browser and the temporary
    session are not closed and no "messages updated" signal is emitted. *)
Lemma interrupted_browse_evaluated :
  browse_queue (sample_browse_env interrupted_cursor) "orders" true false true
    connected =
  (Ok [],
   add_events
     [Call "session.createQueue"; Call "connection.createSession";
      Call "temp_session.createBrowser"; Call "browser.getEnumeration";
      Emit (error_signal
              "Error browsing queue orders: JMSException::non-critical")]
     connected).
Proof. vm_compute. reflexivity. Qed.




(** C6, as stated, fails: the record [browse_queue] builds does not carry
    the payload kind of the declared type.  A map message is browsed as
    [message_type = "string"] with its [toString()] as body. *)
Lemma browse_does_not_classify_by_declared_type :
  ¬ (∀ q message r cls,
       extract_message q message = Ok r → getClassName message = Ok cls →
       msg_message_type r = declared_kind cls).
Proof.
  intros H.
  pose proof (H "orders" (map_message "ID:7") _ _ eq_refl eq_refl) as Hk.
  vm_compute in Hk. discriminate Hk.
Qed.

(** C6, amended: [browse_queue] tells text messages from all others.  For
    every browsed message, [message_type] is one of "text", "string" and
    "unknown".  A message whose class name contains "TextMessage" is
    browsed as "text" with its text verbatim as body.  Every other message
    (bytes, map, object and stream messages alike) is rendered through
    [toString()] as "string", or, where it has no [toString], as the
    placeholder "Unknown data type" with type "unknown".  When reading the
    class name or the body raises, the body is [str(message)] and the type
    is the one assigned up to then: "text" where [getText()] raised,
    "unknown" otherwise. *)
Theorem browse_simple_body_extraction q message r :
  extract_message q message = Ok r →
  (msg_message_type r = "text" ∨ msg_message_type r = "string" ∨
   msg_message_type r = "unknown") ∧
  (∀ cls, getClassName message = Ok cls →
     contains "TextMessage" cls = true →
     msg_message_type r = "text" ∧
     (∀ text, getText message = Ok text → msg_body r = text) ∧
     (∀ e, getText message = Raise e → py_str message = Ok (msg_body r))) ∧
  (∀ cls, getClassName message = Ok cls →
     contains "TextMessage" cls = false → hasattr_toString message = true →
     (∀ text, toString message = Ok text →
        msg_message_type r = "string" ∧ msg_body r = text) ∧
     (∀ e, toString message = Raise e →
        msg_message_type r = "unknown" ∧ py_str message = Ok (msg_body r))) ∧
  (∀ cls, getClassName message = Ok cls →
     contains "TextMessage" cls = false → hasattr_toString message = false →
     msg_message_type r = "unknown" ∧ msg_body r = "Unknown data type") ∧
  (∀ e, getClassName message = Raise e →
     msg_message_type r = "unknown" ∧ py_str message = Ok (msg_body r)).
Proof.
  unfold extract_message, simple_body, mbind, result_bind. intros H.
  destruct (getJMSMessageID message); [|done].
  destruct (getPropertyNames message); [|done].
  destruct (read_properties message _ ∅); [|done].
  destruct (getClassName message) as [cls|e0].
  - destruct (contains "TextMessage" cls) eqn:Ht.
    + destruct (getText message) as [t|e1];
        [|destruct (py_str message); [|done]];
        (destruct (getJMSTimestamp message); [|done]);
        simplify_eq/=; repeat split; intros; simplify_eq/=;
        try congruence; auto.
    + destruct (hasattr_toString message) eqn:Hh.
      * destruct (toString message) as [t|e1];
          [|destruct (py_str message); [|done]];
          (destruct (getJMSTimestamp message); [|done]);
          simplify_eq/=; repeat split; intros; simplify_eq/=;
          try congruence; auto.
      * destruct (getJMSTimestamp message); [|done].
        simplify_eq/=; repeat split; intros; simplify_eq/=;
          try congruence; auto.
  - destruct (py_str message); [|done].
    destruct (getJMSTimestamp message); [|done].
    simplify_eq/=; repeat split; intros; simplify_eq/=;
    try congruence; auto.
Qed.

Lemma browse_simple_body_extraction_witness :
  msg_message_type (text_record "orders" "ID:1" "a") = "text" ∧
  msg_body (text_record "orders" "ID:1" "a") = "a".
Proof.
  destruct (browse_simple_body_extraction "orders" (text_message "ID:1" "a")
              (text_record "orders" "ID:1" "a") eq_refl)
    as (_ & Htext & _).
  destruct (Htext _ eq_refl eq_refl) as (Ht & Hb & _).
  split; [exact Ht|]. apply Hb. reflexivity.
Defined.

(** ** Topic subscription manager *)

(** What the listener callback does to the cache. *)
Lemma on_topic_message_cache message topic s :
  message_cache (_on_topic_message (Some message) topic s).2 =
  match getJMSMessageID message, getJMSTimestamp message with
  | Ok i, Ok t =>
      <[topic_key topic :=
          topic_entry s topic ++ [message_info i (topic_body message) topic t]]>
        (message_cache s)
  | _, _ => message_cache s
  end.
Proof.
  unfold _on_topic_message, topic_entry. py_unfold.
  destruct (getJMSMessageID message) as [i|e]; simpl; [|done].
  destruct (getJMSTimestamp message) as [t|e]; simpl; [|done].
  by destruct (negb (is_nil _)).
Qed.

Lemma on_topic_message_entry message topic s :
  topic_entry (_on_topic_message (Some message) topic s).2 topic =
  match getJMSMessageID message, getJMSTimestamp message with
  | Ok i, Ok t =>
      topic_entry s topic ++ [message_info i (topic_body message) topic t]
  | _, _ => topic_entry s topic
  end.
Proof.
  unfold topic_entry at 1. rewrite on_topic_message_cache.
  destruct (getJMSMessageID message), (getJMSTimestamp message); try done.
  by rewrite lookup_insert_eq.
Qed.

(** C3, as stated, fails: a callback with a non-null message does not
    always append.  When the message id cannot be read the handler reports
    the error and the entry stays as it was. *)
Lemma topic_callback_may_append_nothing :
  ¬ (∀ s message topic,
       ∃ r, topic_entry (_on_topic_message (Some message) topic s).2 topic =
            topic_entry s topic ++ [r]).
Proof.
  intros H. destruct (H init unreadable_message "alerts") as [r Hr].
  vm_compute in Hr. discriminate Hr.
Qed.

(** C3, amended: a topic callback with a non-null message whose id and
    timestamp can be read appends exactly one record to the entry of its
    topic and removes nothing, so the entry grows by one with every such
    callback; this is so also when the id is already present in the entry
    (no deduplication, nothing replaced).  A callback whose message id or
    timestamp cannot be read leaves the whole cache as it was and reports
    the error: the last thing it does, and all it does when it is the id
    that cannot be read, is to emit the error signal "Error handling topic
    message: ..." with the text of the exception.  No callback touches the
    entry of another key. *)
Theorem topic_callback_appends message topic s :
  let s' := (_on_topic_message (Some message) topic s).2 in
  (∀ i t, getJMSMessageID message = Ok i → getJMSTimestamp message = Ok t →
     topic_entry s' topic =
       topic_entry s topic ++ [message_info i (topic_body message) topic t] ∧
     length (topic_entry s' topic) = S (length (topic_entry s topic)) ∧
     (i ∈ msg_id <$> topic_entry s topic →
        topic_entry s topic `prefix_of` topic_entry s' topic ∧
        length (topic_entry s' topic) = S (length (topic_entry s topic)))) ∧
  (∀ e, getJMSMessageID message = Raise e ∨ getJMSTimestamp message = Raise e →
     message_cache s' = message_cache s) ∧
  (∀ e, getJMSMessageID message = Raise e →
     _on_topic_message (Some message) topic s =
       (Ok tt,
        add_events
          [Emit (error_signal ("Error handling topic message: " +:+ e))] s)) ∧
  (∀ i e, getJMSMessageID message = Ok i →
     getJMSTimestamp message = Raise e →
     ∃ logged,
       _on_topic_message (Some message) topic s =
         (Ok tt,
          add_events
            (logged ++
             [Emit (error_signal ("Error handling topic message: " +:+ e))])
            s) ∧
       Forall (fun ev => ∃ line, ev = Emit (log_signal line)) logged) ∧
  topic_entry s topic `prefix_of` topic_entry s' topic ∧
  (∀ key, key ≠ topic_key topic →
     message_cache s' !! key = message_cache s !! key).
Proof.
  simpl.
  pose proof (on_topic_message_entry message topic s) as He.
  pose proof (on_topic_message_cache message topic s) as Hc.
  split; [intros i t Hi Ht; split; [|split; [|intros _; split]]|].
  - by rewrite He, Hi, Ht.
  - rewrite He, Hi, Ht, length_app; simpl. lia.
  - rewrite He, Hi, Ht. by apply prefix_app_r.
  - rewrite He, Hi, Ht, length_app; simpl. lia.
  - split; [|split; [|split; [|split]]].
    + intros e [H|H]; rewrite Hc, H; [done|].
      by destruct (getJMSMessageID message).
    + intros e Hi. unfold _on_topic_message. py_unfold. by rewrite Hi.
    + intros i e Hi Ht. unfold _on_topic_message. py_unfold.
      rewrite Hi, Ht. simpl. rewrite !add_events_app. simpl.
      eexists [_; _]. split; [reflexivity|].
      repeat constructor; eexists; reflexivity.
    + rewrite He.
      destruct (getJMSMessageID message), (getJMSTimestamp message);
        try done. by apply prefix_app_r.
    + intros key Hk. rewrite Hc.
      destruct (getJMSMessageID message), (getJMSTimestamp message);
        try done. by rewrite lookup_insert_ne.
Qed.

Lemma topic_callback_appends_witness :
  length (topic_entry
            (_on_topic_message (Some grouped_map_message) "alerts"
               alerts_cached).2 "alerts") = 2.
Proof.
  destruct (topic_callback_appends grouped_map_message "alerts" alerts_cached)
    as (H & _).
  destruct (H "ID:9" 1700000000000%Z eq_refl eq_refl) as (_ & _ & Hdup).
  destruct Hdup as [_ Hlen].
  - vm_compute. apply list_elem_of_here.
  - rewrite Hlen. reflexivity.
Defined.

(** C10: every record the topic callback produces has an empty
    [properties] map and [message_type] "text", whatever the class of the
    delivered message and whatever properties it carries on the broker;
    and a callback that cannot read the message produces no record. *)
Theorem topic_records_carry_no_properties message topic s :
  let s' := (_on_topic_message (Some message) topic s).2 in
  (∀ i t, getJMSMessageID message = Ok i → getJMSTimestamp message = Ok t →
     ∃ r, topic_entry s' topic = topic_entry s topic ++ [r] ∧
          msg_properties r = ∅ ∧ msg_message_type r = "text" ∧
          msg_id r = i ∧ msg_type r = "topic" ∧ msg_destination r = topic) ∧
  ((∀ i, getJMSMessageID message ≠ Ok i) ∨
   (∀ t, getJMSTimestamp message ≠ Ok t) →
     topic_entry s' topic = topic_entry s topic).
Proof.
  simpl. pose proof (on_topic_message_entry message topic s) as He.
  split.
  - intros i t Hi Ht. rewrite He, Hi, Ht. eexists. split; [done|]. done.
  - intros H. rewrite He.
    destruct (getJMSMessageID message) as [i|], (getJMSTimestamp message)
      as [t|]; try done.
    destruct H as [H|H]; [by destruct (H i)|by destruct (H t)].
Qed.

Lemma topic_records_carry_no_properties_witness :
  ∃ r, topic_entry
         (_on_topic_message (Some grouped_map_message) "alerts" connected).2
         "alerts" = topic_entry connected "alerts" ++ [r] ∧
       msg_properties r = ∅ ∧ msg_message_type r = "text".
Proof.
  destruct (topic_records_carry_no_properties grouped_map_message "alerts"
              connected) as (H & _).
  destruct (H "ID:9" 1700000000000%Z eq_refl eq_refl)
    as (r & Hr & Hp & Ht & _).
  exists r. auto.
Defined.

(** Whatever the table holds for the topic, a granted call creates a
    consumer of its own and records it in place of any earlier one. *)
Lemma create_topic_message_listener_creates env topic closes s :
  is_connected s = true →
  createTopic env = Ok tt → createConsumer env = Ok closes →
  setMessageListener env = Ok tt →
  let consumer := {| consumer_id := next_consumer s;
                     consumer_topic := topic; consumer_close := closes |} in
  (create_topic_message_listener env topic s).1 = Ok (Some consumer) ∧
  broker_consumers (create_topic_message_listener env topic s).2 =
    broker_consumers s ++ [consumer] ∧
  topic_consumers (create_topic_message_listener env topic s).2 =
    <[topic_key topic := consumer]> (topic_consumers s).
Proof.
  unfold is_connected, create_topic_message_listener, session_createConsumer.
  py_unfold. intros Hc -> -> ->.
  by destruct (connection s), (session s).
Qed.

(** [create_topic_message_listener], evaluated without the test of its
    callers: a second call for "alerts" returns a new consumer, not the
    existing one; both consumers are then open on the broker, and the
    table, which holds one consumer per key, keeps only the second, so that
    the first can no longer be closed by [emergency_stop_monitoring]. *)
Lemma unguarded_subscribe_overwrites :
  (create_topic_message_listener willing_listener "alerts" connected).1 =
    Ok (Some (alerts_consumer 0)) ∧
  topic_consumers subscribed_once !! topic_key "alerts" =
    Some (alerts_consumer 0) ∧
  broker_consumers subscribed_once = [alerts_consumer 0] ∧
  (create_topic_message_listener willing_listener "alerts" subscribed_once).1 =
    Ok (Some (alerts_consumer 1)) ∧
  broker_consumers
    (create_topic_message_listener willing_listener "alerts"
       subscribed_once).2 = [alerts_consumer 0; alerts_consumer 1] ∧
  topic_consumers
    (create_topic_message_listener willing_listener "alerts"
       subscribed_once).2 !! topic_key "alerts" = Some (alerts_consumer 1) ∧
  broker_consumers
    (emergency_stop_monitoring
       (create_topic_message_listener willing_listener "alerts"
          subscribed_once).2).2 = [alerts_consumer 0].
Proof. repeat split; vm_compute; reflexivity. Qed.

(** C2, as stated, fails: [create_topic_message_listener] does not look
    the topic up in [topic_consumers] before it creates a consumer.  Called
    for "alerts" on an object that already holds a consumer for "alerts",
    it returns a new consumer, not the existing one, and a second consumer
    is open on the broker. *)
Lemma second_subscribe_creates_second_consumer :
  ¬ (∀ env topic s consumer,
       topic_consumers s !! topic_key topic = Some consumer →
       (create_topic_message_listener env topic s).1 = Ok (Some consumer) ∧
       broker_consumers (create_topic_message_listener env topic s).2 =
         broker_consumers s).
Proof.
  intros H.
  destruct (H willing_listener "alerts" subscribed_once (alerts_consumer 0)
              eq_refl) as [Hr _].
  vm_compute in Hr. discriminate Hr.
Qed.

(** What one [create_topic_message_listener] call does to the consumers:
    nothing, or a consumer is created that refuses its listener and is
    left out of the table, or a consumer is created and stored. *)
Lemma create_topic_message_listener_cases env topic s :
  ∃ r s', create_topic_message_listener env topic s = (Ok r, s') ∧
    message_cache s' = message_cache s ∧
    ((r = None ∧ topic_consumers s' = topic_consumers s ∧
      broker_consumers s' = broker_consumers s) ∨
     (r = None ∧ topic_consumers s' = topic_consumers s ∧
      ∃ closes e, createConsumer env = Ok closes ∧
                  setMessageListener env = Raise e) ∨
     (∃ c, r = Some c ∧ consumer_topic c = topic ∧
           topic_consumers s' = <[topic_key topic := c]> (topic_consumers s) ∧
           broker_consumers s' = broker_consumers s ++ [c])).
Proof.
  unfold create_topic_message_listener, session_createConsumer. py_unfold.
  assert (Hnone : ∀ evs,
    ∃ r s', (Ok (@None Consumer), add_events evs s) = (Ok r, s') ∧
      message_cache s' = message_cache s ∧
      ((r = None ∧ topic_consumers s' = topic_consumers s ∧
        broker_consumers s' = broker_consumers s) ∨
       (r = None ∧ topic_consumers s' = topic_consumers s ∧
        ∃ closes e, createConsumer env = Ok closes ∧
                    setMessageListener env = Raise e) ∨
       (∃ c, r = Some c ∧ consumer_topic c = topic ∧
             topic_consumers s' =
               <[topic_key topic := c]> (topic_consumers s) ∧
             broker_consumers s' = broker_consumers s ++ [c]))).
  { intros evs. eexists _, _. split; [reflexivity|]. split; [done|].
    by left. }
  destruct (connection s), (session s); simpl; try apply Hnone.
  destruct (createTopic env); simpl;
    [|rewrite add_events_app; apply Hnone].
  destruct (createConsumer env) as [closes|e]; simpl;
    [|rewrite !add_events_app; apply Hnone].
  destruct (setMessageListener env) as [[]|e]; simpl.
  - eexists _, _. split; [done|]. split; [done|]. right. right.
    eexists. by repeat split.
  - eexists _, _. split; [done|]. split; [done|]. right. left. eauto 10.
Qed.

Lemma tracked_only_trace s s' :
  topic_consumers s' = topic_consumers s →
  broker_consumers s' = broker_consumers s →
  tracked s → tracked s'.
Proof. unfold tracked. by intros -> ->. Qed.

(** Storing a new consumer under a key that has no entry keeps the table
    and the broker in step; it is here that the test of the caller is
    needed. *)
Lemma tracked_insert topic c s s' :
  topic_key topic ∉ dom (topic_consumers s) →
  consumer_topic c = topic →
  topic_consumers s' = <[topic_key topic := c]> (topic_consumers s) →
  broker_consumers s' = broker_consumers s ++ [c] →
  tracked s → tracked s'.
Proof.
  intros Hnew Htopic Htc Hb [Hperm Hkeys]. split.
  - rewrite Hb, Htc. rewrite map_to_list_insert by by apply not_elem_of_dom.
    simpl. rewrite <- Hperm. by rewrite Permutation_app_comm.
  - intros key c'. rewrite Htc. intros Hk.
    destruct (decide (key = topic_key topic)) as [->|Hne].
    + rewrite lookup_insert_eq in Hk. injection Hk as <-. by rewrite Htopic.
    + rewrite lookup_insert_ne in Hk by done. by apply Hkeys.
Qed.

Lemma keyed_at_most_one name (l : list (string * Consumer)) :
  NoDup l.*1 →
  (∀ key c, (key, c) ∈ l → key = topic_key (consumer_topic c)) →
  length (filter (fun c => consumer_topic c = name) l.*2) ≤
    (if bool_decide (topic_key name ∈ l.*1) then 1 else 0).
Proof.
  induction l as [|[k c] rest IH]; intros Hnd Hkeys; [simpl; lia|].
  rewrite !fmap_cons in *. simpl in *. apply NoDup_cons in Hnd as [Hk Hnd].
  specialize (IH Hnd).
  assert (Hrest : ∀ key c', (key, c') ∈ rest →
                            key = topic_key (consumer_topic c')).
  { intros key c' Hin. apply Hkeys. by right. }
  specialize (IH Hrest).
  rewrite filter_cons. destruct (decide (consumer_topic c = name)) as [Hc|Hc].
  - assert (k = topic_key name) as ->.
    { rewrite <- Hc. apply Hkeys. by left. }
    rewrite (bool_decide_false (topic_key name ∈ rest.*1)) in IH by done.
    rewrite bool_decide_true by by left. simpl. lia.
  - case_bool_decide as Hin1; [|lia].
    case_bool_decide as Hin2; [lia|]. destruct Hin2. by right.
Qed.

(** On a tracked object no topic has two consumers. *)
Lemma tracked_at_most_one name s :
  tracked s → length (consumers_for name s) ≤ 1.
Proof.
  intros [Hperm Hkeys]. unfold consumers_for. rewrite Hperm.
  etrans.
  - apply keyed_at_most_one; [apply NoDup_fst_map_to_list|].
    intros key c Hin. apply Hkeys. by apply elem_of_map_to_list.
  - case_bool_decide; lia.
Qed.

(** [destination_selected] for something else than a queue, when the
    table has an entry for the topic: only the status box and the trace
    change. *)
Lemma destination_selected_subscribed benv lenv name kind w :
  String.eqb kind "queue" = false →
  topic_key name ∈ dom (topic_consumers (jvm_thread w)) →
  ∃ lines evs,
    destination_selected benv lenv name kind w =
      (Ok tt,
       {| ui := {| messagesTable := messagesTable (ui w);
                   statusTextBox := statusTextBox (ui w) ++ lines |};
          jvm_thread := add_events evs (jvm_thread w);
          current_destination := Some name;
          current_destination_type := Some kind |}) ∧
    (evs = [] ∨
     ∃ messages, evs = [Emit (update_messages_signal messages)]).
Proof.
  intros Hkind Hin. unfold destination_selected.
  destruct (bool_decide (current_destination w = Some name) &&
            bool_decide (current_destination_type w = Some kind)) eqn:Hsame.
  - apply andb_true_iff in Hsame as [H1 H2].
    apply bool_decide_eq_true in H1, H2.
    exists [], []. split; [|by left].
    rewrite app_nil_r, add_events_nil. destruct w as [[] ? ? ?]; simpl in *.
    by subst.
  - rewrite Hkind. simpl. rewrite bool_decide_false by (intros Hn; done).
    simpl.
    destruct (message_cache (jvm_thread w) !! topic_key name)
      as [messages|]; simpl.
    + destruct (negb (is_nil messages)); simpl.
      * unfold thread_call, emit, modify. simpl.
        eexists [_; _], [_]. split; [|right; eauto].
        unfold tab_log_message, set_ui, log_message. simpl.
        by rewrite <- app_assoc.
      * eexists [_], []. rewrite add_events_nil. split; [done|by left].
    + eexists [_], []. rewrite add_events_nil. split; [done|by left].
Qed.

(** One click keeps a tracked object tracked, and never raises. *)
Lemma select_tracked c w :
  registers (listener_answers c) → tracked (jvm_thread w) →
  (select c w).1 = Ok tt ∧ tracked (jvm_thread (select c w).2).
Proof.
  intros Hreg Htr. unfold select, destination_selected.
  destruct (bool_decide (current_destination w = Some (selected_name c)) &&
            bool_decide (current_destination_type w = Some (selected_type c)));
    [done|].
  destruct (String.eqb (selected_type c) "queue"); simpl.
  { unfold thread_call. simpl.
    destruct (browse_queue_run (browse_answers c) (selected_name c) true false
                true (jvm_thread w)) as [evs ->].
    simpl. split; [done|]. by apply (tracked_only_trace (jvm_thread w)). }
  assert (Hcached : ∀ w1, tracked (jvm_thread w1) →
    let r := match message_cache (jvm_thread w1) !!
                   topic_key (selected_name c) with
             | Some messages =>
                 if negb (is_nil messages) then
                   thread_call (emit (update_messages_signal messages))
                     (tab_log_message
                        ("Found " +:+ pretty (length messages) +:+
                         " cached messages for topic " +:+ selected_name c)
                        w1)
                 else (Ok tt, w1)
             | None => (Ok tt, w1)
             end in
    r.1 = Ok tt ∧ tracked (jvm_thread r.2)).
  { intros w1 H1. simpl.
    destruct (message_cache (jvm_thread w1) !! topic_key (selected_name c))
      as [messages|]; [|done].
    destruct (negb (is_nil messages)); [|done]. simpl. split; [done|].
    by apply (tracked_only_trace (jvm_thread w1)). }
  case_bool_decide as Hnew;
    [|apply (Hcached (tab_log_message _
                        (set_current_destination _ _ w))); exact Htr].
  unfold thread_call. cbn [jvm_thread set_current_destination].
  destruct (create_topic_message_listener_cases (listener_answers c)
              (selected_name c) (jvm_thread w))
    as (r & s' & -> & _ & Hcases).
  assert (Htr' : tracked s').
  { destruct Hcases as [(_ & Htc & Hb)|[(_ & _ & closes & e & Hc & Hl)|
                        (cons & _ & Htopic & Htc & Hb)]].
    - by apply (tracked_only_trace (jvm_thread w)).
    - rewrite (Hreg _ Hc) in Hl. discriminate Hl.
    - by apply (tracked_insert (selected_name c) cons (jvm_thread w)). }
  destruct (truthy r).
  - apply (Hcached (tab_log_message _
                      (set_jvm_thread s'
                         (set_current_destination _ _ w)))); exact Htr'.
  - apply (Hcached (set_jvm_thread s' (set_current_destination _ _ w)));
      exact Htr'.
Qed.

Lemma select_each_tracked selections :
  Forall (fun c => registers (listener_answers c)) selections →
  ∀ w, tracked (jvm_thread w) → tracked (jvm_thread (select_each selections w)).
Proof.
  induction 1 as [|c rest Hc _ IH]; intros w Htr; [done|].
  simpl. apply IH. by apply select_tracked.
Qed.

(** C2, amended: subscribing by selecting a topic is idempotent.  The test
    for an existing subscription is in [destination_selected], the caller
    of [create_topic_message_listener].  Selecting a topic, or anything
    that is not a queue, whose key is in [topic_consumers] never raises,
    makes no call to the broker, leaves the table with the existing
    consumer and the consumers on the broker as they are, and changes
    nothing of the thread object but the trace, to which it adds at most
    the broadcast of the cached messages.  So, starting from an object
    whose consumers on the broker are those of the table, after any
    sequence of selections the consumers on the broker are again those of
    the table and no topic has more than one consumer, as long as every
    consumer the broker creates accepts its listener. *)
Theorem selecting_subscribed_topic_is_idempotent :
  (∀ benv lenv name kind w consumer,
     String.eqb kind "queue" = false →
     topic_consumers (jvm_thread w) !! topic_key name = Some consumer →
     let r := destination_selected benv lenv name kind w in
     r.1 = Ok tt ∧
     topic_consumers (jvm_thread r.2) !! topic_key name = Some consumer ∧
     topic_consumers (jvm_thread r.2) = topic_consumers (jvm_thread w) ∧
     broker_consumers (jvm_thread r.2) = broker_consumers (jvm_thread w) ∧
     ∃ evs, jvm_thread r.2 = add_events evs (jvm_thread w) ∧
       (evs = [] ∨
        ∃ messages, evs = [Emit (update_messages_signal messages)])) ∧
  (∀ selections w,
     tracked (jvm_thread w) →
     Forall (fun c => registers (listener_answers c)) selections →
     let w' := select_each selections w in
     tracked (jvm_thread w') ∧
     ∀ name, length (consumers_for name (jvm_thread w')) ≤ 1).
Proof.
  split.
  - intros benv lenv name kind w consumer Hkind Hc. simpl.
    destruct (destination_selected_subscribed benv lenv name kind w Hkind)
      as (lines & evs & -> & Hevs).
    { apply elem_of_dom. eauto. }
    simpl. repeat (split; [done|]). by exists evs.
  - intros selections w Htr Hreg. simpl.
    pose proof (select_each_tracked selections Hreg w Htr) as Htr'.
    split; [done|]. intros name. by apply tracked_at_most_one.
Qed.

Lemma selecting_subscribed_topic_is_idempotent_witness :
  broker_consumers
    (jvm_thread
       (select_each [click "alerts" "topic"; click "orders" "queue";
                     click "alerts" "topic"] fresh_tab)) =
    [alerts_consumer 0] ∧
  length
    (consumers_for "alerts"
       (jvm_thread
          (select_each [click "alerts" "topic"; click "orders" "queue";
                        click "alerts" "topic"] fresh_tab))) ≤ 1.
Proof.
  split; [vm_compute; reflexivity|].
  destruct selecting_subscribed_topic_is_idempotent as [_ H].
  apply (H [click "alerts" "topic"; click "orders" "queue";
            click "alerts" "topic"] fresh_tab).
  - split; [vm_compute; reflexivity|].
    intros key c Hk. vm_compute in Hk. discriminate Hk.
  - repeat constructor; intros closes _; reflexivity.
Defined.

(** Why the proviso on the listener: a consumer whose listener cannot be
    set stays open on the broker without an entry in the table, so that a
    later selection of the same topic creates a second one. *)
Lemma refused_listener_leaves_consumer_open :
  broker_consumers
    (jvm_thread
       (select_each [refused_click "alerts" "topic"; click "orders" "queue";
                     click "alerts" "topic"] fresh_tab)) =
    [alerts_consumer 0; alerts_consumer 1].
Proof. vm_compute. reflexivity. Qed.

(** ** Destination discovery *)

Section Traces.
Context {A B : Type}.

Lemma traces_call method (r : result A) : traces (call method r).
Proof. exists r. intros s. by eexists. Qed.

Lemma traces_lift (r : result A) : traces (lift r).
Proof. exists r. intros s. exists []. by rewrite add_events_nil. Qed.

Lemma settles_traces (m : Py A) : settles m → traces m.
Proof. intros [v H]. by exists (Ok v). Qed.

Lemma traces_bind (m : Py A) (f : A → Py B) :
  traces m → (∀ a, traces (f a)) → traces (py_bind m f).
Proof.
  intros [[a|e] Hm] Hf.
  - destruct (Hf a) as [r Hr]. exists r. intros s.
    destruct (Hm s) as [evs Hs]. unfold py_bind. rewrite Hs.
    destruct (Hr (add_events evs s)) as [evs' ->].
    rewrite add_events_app. by eexists.
  - exists (Raise e). intros s. destruct (Hm s) as [evs Hs].
    unfold py_bind. rewrite Hs. by eexists.
Qed.

Lemma settles_ret (a : A) : settles (py_ret a).
Proof. exists a. intros s. exists []. by rewrite add_events_nil. Qed.

Lemma settles_attempt (m : Py A) : traces m → settles (attempt m).
Proof.
  intros [r Hm]. exists r. intros s. destruct (Hm s) as [evs Hs].
  unfold attempt. rewrite Hs. by eexists.
Qed.

Lemma settles_bind (m : Py A) (f : A → Py B) :
  settles m → (∀ a, settles (f a)) → settles (py_bind m f).
Proof.
  intros [a Hm] Hf. destruct (Hf a) as [v Hv]. exists v. intros s.
  destruct (Hm s) as [evs Hs]. unfold py_bind. rewrite Hs.
  destruct (Hv (add_events evs s)) as [evs' ->].
  rewrite add_events_app. by eexists.
Qed.
End Traces.

Lemma settles_emit sg : settles (emit sg).
Proof. exists tt. intros s. by eexists. Qed.

Lemma settles_when b m : settles m → settles (when b m).
Proof. destruct b; [done|]. intros _. apply settles_ret. Qed.

Ltac settle :=
  repeat first
    [ apply settles_ret | apply settles_emit | apply settles_attempt
    | apply settles_when | apply traces_call | apply traces_lift
    | apply settles_bind | apply traces_bind | intros ?
    | progress (cbv beta; cbn [fst snd])
    | match goal with
      | |- settles (match ?x with _ => _ end) => destruct x
      | |- settles (if ?x then _ else _) => destruct x
      | |- traces (match ?x with _ => _ end) => destruct x
      end ].

Lemma collect_queues_settles all_queues queues :
  settles (collect_queues all_queues queues).
Proof.
  revert queues. induction all_queues as [|queue rest IH]; intros queues;
    simpl; [apply settles_ret|].
  destruct (hasattr_getQueueName queue); [|apply IH].
  destruct (getQueueName queue); [|apply settles_ret].
  case_bool_decide; [apply IH|].
  apply settles_bind; [apply settles_emit|intros _; apply IH].
Qed.

Lemma collect_topics_settles all_topics topics :
  settles (collect_topics all_topics topics).
Proof.
  revert topics. induction all_topics as [|topic rest IH]; intros topics;
    simpl; [apply settles_ret|].
  destruct (_ || _); [apply IH|].
  apply settles_bind; [apply settles_emit|intros _; apply IH].
Qed.

Lemma drain_settles topic env range names :
  settles (drain topic env range names).
Proof.
  revert names. induction range as [|i rest IH]; intros names;
    simpl; [apply settles_ret|].
  apply settles_bind; [apply settles_attempt, traces_call|].
  intros [[msg|]|e]; [|apply IH|apply settles_ret].
  destruct (hasattr_getStringProperty msg); [|apply IH].
  destruct (destinationName msg) as [[name|]|]; try apply IH.
  destruct (_ && _); [|apply IH].
  apply settles_bind; [apply settles_emit|intros _; apply IH].
Qed.

Lemma destination_source_settles env : settles (destination_source env).
Proof.
  unfold destination_source.
  destruct (hasattr_getDestinationSource env); [|apply settles_ret].
  apply settles_bind; [apply settles_attempt, traces_call|].
  intros [?|?]; [|settle].
  apply settles_bind; [apply collect_queues_settles|].
  intros [queues [?|?]]; cbn [fst snd]; [|settle].
  apply settles_bind; [apply collect_topics_settles|]. settle.
Qed.

Lemma advisory_discovery_settles env : settles (advisory_discovery env).
Proof.
  unfold advisory_discovery.
  apply settles_bind; [settle|]. intros [?|?]; [|settle].
  apply settles_bind; [apply drain_settles|].
  intros [queues [?|?]]; cbn [fst snd]; [|settle].
  apply settles_bind; [settle|]. intros [?|?]; [|settle].
  apply settles_bind; [apply drain_settles|].
  intros [topics [?|?]]; cbn [fst snd]; [|settle].
  apply settles_bind; [settle|]. intros [?|?]; settle.
Qed.

Lemma strategies_settles env : settles (strategies env).
Proof.
  unfold strategies.
  apply settles_bind; [apply destination_source_settles|].
  intros v. destruct (_ && _); [apply advisory_discovery_settles|].
  apply settles_ret.
Qed.

(** Both strategies together never raise, yield [found env] whatever the
    state of the object, and only add to the trace. *)
Lemma strategies_found env s :
  ∃ evs, strategies env s = (Ok (found env), add_events evs s).
Proof.
  destruct (strategies_settles env) as [v Hv].
  unfold found. destruct (Hv init) as [evs0 ->]. simpl. apply Hv.
Qed.

Lemma get_destinations_run env s :
  (get_destinations env s).1 =
    Ok (served (is_connected s) (found env)
          (_cached_queues s) (_cached_topics s)) ∧
  (_cached_queues (get_destinations env s).2,
   _cached_topics (get_destinations env s).2) =
    cached_after (is_connected s) (found env)
      (_cached_queues s) (_cached_topics s).
Proof.
  unfold get_destinations, served, cached_after, is_connected, nothing.
  py_unfold.
  destruct (connection s), (session s); simpl; try done.
  destruct (strategies_found env s) as [evs ->]; simpl.
  destruct (found env) as [[|q queues] [|t topics]]; simpl; try done.
  destruct (_cached_queues s) eqn:Eq, (_cached_topics s) eqn:Et; simpl;
    by rewrite ?Eq, ?Et.
Qed.

Lemma discover_run d s :
  (discover d s).1 =
    Ok (served (connected_then d) (found (broker_then d))
          (_cached_queues s) (_cached_topics s)) ∧
  (_cached_queues (discover d s).2, _cached_topics (discover d s).2) =
    cached_after (connected_then d) (found (broker_then d))
      (_cached_queues s) (_cached_topics s).
Proof.
  unfold discover, py_bind, modify.
  pose proof (get_destinations_run (broker_then d)
                (set_session (session_then d)
                   (set_connection (connection_then d) s))) as H.
  by destruct (get_destinations _ _) as [[v|e] s'].
Qed.

Lemma last_good_snoc ds d :
  last_good (ds ++ [d]) =
  if good d then Some (found (broker_then d)) else last_good ds.
Proof.
  induction ds as [|d0 rest IH]; simpl.
  - by destruct (good d).
  - rewrite IH. by destruct (good d), (last_good rest).
Qed.

Lemma last_good_nonempty ds v : last_good ds = Some v → nothing v = false.
Proof.
  induction ds as [|d rest IH]; simpl; [done|].
  destruct (last_good rest) as [w|]; [intros; simplify_eq; by apply IH|].
  destruct (good d) eqn:Hg; [|done]. intros; simplify_eq.
  unfold good in Hg. apply andb_true_iff in Hg as [_ Hg].
  by apply negb_true_iff.
Qed.

Lemma discover_all_snoc ds d s :
  discover_all (ds ++ [d]) s = (discover d (discover_all ds s)).2.
Proof. unfold discover_all. by rewrite fold_left_app. Qed.

(** The cached attributes always hold the last good result; before the
    first one they are absent or hold two empty lists. *)
Lemma cached_last_good s0 ds :
  _cached_queues s0 = None → _cached_topics s0 = None →
  let s := discover_all ds s0 in
  match last_good ds with
  | Some v => _cached_queues s = Some v.1 ∧ _cached_topics s = Some v.2
  | None =>
      (_cached_queues s = None ∧ _cached_topics s = None) ∨
      (_cached_queues s = Some [] ∧ _cached_topics s = Some [])
  end.
Proof.
  intros Hq Ht. induction ds as [|d ds IH] using rev_ind; simpl.
  - auto.
  - rewrite last_good_snoc, discover_all_snoc.
    destruct (discover_run d (discover_all ds s0)) as [_ Hc].
    pose proof (f_equal fst Hc) as Hcq. pose proof (f_equal snd Hc) as Hct.
    simpl in Hcq, Hct. rewrite Hcq, Hct. clear Hc Hcq Hct.
    simpl in IH. unfold good, cached_after. fold (connected_then d).
    destruct (connected_then d); simpl; [|done].
    destruct (nothing (found (broker_then d))); simpl; [|done].
    destruct (last_good ds) as [v|].
    + destruct IH as [E1 E2]. by rewrite E1, E2.
    + destruct IH as [[E1 E2]|[E1 E2]]; rewrite E1, ?E2; auto.
Qed.


Lemma nothing_empty v : nothing v = true ↔ v = ([], []).
Proof.
  destruct v as [[|q qs] [|t ts]]; unfold nothing; simpl; split; try done.
Qed.

(** C5: over every sequence of [get_destinations] calls on an object that
    starts without cached destinations, a call in which both strategies
    yield nothing returns the result of the most recent successful
    non-empty discovery when there is one, and two empty lists when there
    is none; such a call returns empty lists only when no successful
    non-empty discovery has occurred before it; and every call whose
    strategies find something returns what they found and overwrites the
    cached result with it, so that it is the last good result from then
    on.  (The strategies run in the calls made while connected; a call made
    while not connected runs neither, returns empty lists at once and
    leaves the cached result as it is.) *)
Theorem discovery_serves_last_good s0 ds d :
  _cached_queues s0 = None → _cached_topics s0 = None →
  let s := discover_all ds s0 in
  (connected_then d = true → nothing (found (broker_then d)) = true →
     (discover d s).1 = Ok (default ([], []) (last_good ds))) ∧
  (connected_then d = true → (discover d s).1 = Ok ([], []) →
     nothing (found (broker_then d)) = true ∧ last_good ds = None) ∧
  (connected_then d = true → nothing (found (broker_then d)) = false →
     (discover d s).1 = Ok (found (broker_then d)) ∧
     _cached_queues (discover d s).2 = Some (found (broker_then d)).1 ∧
     _cached_topics (discover d s).2 = Some (found (broker_then d)).2 ∧
     last_good (ds ++ [d]) = Some (found (broker_then d))) ∧
  (connected_then d = false →
     (discover d s).1 = Ok ([], []) ∧
     _cached_queues (discover d s).2 = _cached_queues s ∧
     _cached_topics (discover d s).2 = _cached_topics s ∧
     last_good (ds ++ [d]) = last_good ds).
Proof.
  intros Hq Ht. simpl.
  pose proof (cached_last_good s0 ds Hq Ht) as Hinv. simpl in Hinv.
  destruct (discover_run d (discover_all ds s0)) as [Hres Hcached].
  pose proof (f_equal fst Hcached) as Hcq.
  pose proof (f_equal snd Hcached) as Hct.
  simpl in Hcq, Hct. clear Hcached.
  rewrite Hres, Hcq, Hct. unfold served, cached_after.
  assert (Hserved : nothing (found (broker_then d)) = true →
    match _cached_queues (discover_all ds s0),
          _cached_topics (discover_all ds s0) with
    | Some queues, Some topics => (queues, topics)
    | _, _ => ([], [])
    end = default ([], []) (last_good ds)).
  { intros _. destruct (last_good ds) as [[q t]|].
    - destruct Hinv as [E1 E2]. by rewrite E1, E2.
    - destruct Hinv as [[E1 E2]|[E1 E2]]; by rewrite E1, ?E2. }
  split; [|split; [|split]].
  - intros Hc Hn. rewrite Hc, Hn. f_equal. by apply Hserved.
  - intros Hc. rewrite Hc.
    destruct (nothing (found (broker_then d))) eqn:Hn.
    + rewrite (Hserved eq_refl).
      destruct (last_good ds) as [v|] eqn:Hg; [|done].
      simpl. intros Hv. apply last_good_nonempty in Hg.
      by simplify_eq.
    + intros Hv. simplify_eq. rewrite Hv in Hn. done.
  - intros Hc Hn. rewrite Hc, Hn. repeat split.
    rewrite last_good_snoc. unfold good.
    fold (connected_then d). by rewrite Hc, Hn.
  - intros Hc. rewrite Hc. repeat split.
    rewrite last_good_snoc. unfold good.
    fold (connected_then d). by rewrite Hc.
Qed.

Lemma discovery_serves_last_good_witness :
  (discover (while_connected (broker_with []))
     (discover_all [while_connected (broker_with ["orders"])] init)).1 =
  Ok (["orders"], []).
Proof.
  destruct (discovery_serves_last_good init
              [while_connected (broker_with ["orders"])]
              (while_connected (broker_with []))) as (H & _);
    [reflexivity|reflexivity|].
  apply H; reflexivity.
Defined.

(** ** Monitor coordinator *)

Lemma same_lists_refl s : same_lists s s.
Proof. by repeat split. Qed.

Lemma same_lists_trans s1 s2 s3 :
  same_lists s1 s2 → same_lists s2 s3 → same_lists s1 s3.
Proof. unfold same_lists. intros (-> & -> & ->) (-> & -> & ->). done. Qed.

Section Keeps.
Context {A B : Type}.

Lemma steady_keeps (m : Py A) : steady m → keeps m.
Proof. intros H s. apply H. Qed.

Lemma keeps_call method (r : result A) : keeps (call method r).
Proof. intros s. by repeat split. Qed.

Lemma steady_ret (a : A) : steady (py_ret a).
Proof. intros s. split; [by eexists|apply same_lists_refl]. Qed.

Lemma steady_gets (f : JVMThread → A) : steady (gets f).
Proof. intros s. split; [by eexists|apply same_lists_refl]. Qed.

Lemma keeps_bind (m : Py A) (f : A → Py B) :
  keeps m → (∀ a, keeps (f a)) → keeps (py_bind m f).
Proof.
  intros Hm Hf s. unfold py_bind. specialize (Hm s).
  destruct (m s) as [[a|e] s1]; simpl in *; [|done].
  eapply same_lists_trans; [exact Hm|apply Hf].
Qed.

Lemma steady_bind (m : Py A) (f : A → Py B) :
  steady m → (∀ a, steady (f a)) → steady (py_bind m f).
Proof.
  intros Hm Hf s. unfold py_bind. destruct (Hm s) as [[a Ha] Hs].
  destruct (m s) as [r s1]; simpl in *; subst r.
  destruct (Hf a s1) as [Hv Hs']. split; [done|].
  eapply same_lists_trans; [exact Hs|exact Hs'].
Qed.

Lemma steady_try (m : Py A) (h : string → Py A) :
  keeps m → (∀ e, steady (h e)) → steady (try_except m h).
Proof.
  intros Hm Hh s. unfold try_except. specialize (Hm s).
  destruct (m s) as [[a|e] s1]; simpl in *; [by eauto|].
  destruct (Hh e s1) as [Hv Hs']. split; [done|].
  eapply same_lists_trans; [exact Hm|exact Hs'].
Qed.
End Keeps.

Lemma steady_emit sg : steady (emit sg).
Proof. intros s. split; [by eexists|by repeat split]. Qed.

Lemma steady_when b m : steady m → steady (when b m).
Proof. destruct b; [done|]. intros _. apply steady_ret. Qed.

Lemma steady_modify f :
  (∀ s, same_lists s (f s)) → steady (modify f).
Proof. intros H s. split; [by eexists|apply H]. Qed.

Lemma keeps_consumer_close_call consumer : keeps (consumer_close_call consumer).
Proof.
  intros s. unfold consumer_close_call.
  by destruct (consumer_close consumer).
Qed.

Lemma keeps_session_createConsumer r topic :
  keeps (session_createConsumer r topic).
Proof. intros s. unfold session_createConsumer. by destruct r. Qed.

Lemma steady_close_consumers consumers : steady (close_consumers consumers).
Proof.
  induction consumers as [|[key consumer] rest IH]; simpl;
    [apply steady_ret|].
  apply steady_bind; [|intros _; apply IH].
  apply steady_try; [|intros _; apply steady_ret].
  apply keeps_bind; [apply keeps_consumer_close_call|].
  intros _. apply steady_keeps, steady_emit.
Qed.

Lemma steady_create_topic_message_listener env topic :
  steady (create_topic_message_listener env topic).
Proof.
  unfold create_topic_message_listener.
  apply steady_try.
  - apply keeps_bind; [apply steady_keeps, steady_gets|intros conn].
    apply keeps_bind; [apply steady_keeps, steady_gets|intros sess].
    destruct (_ || _).
    { apply steady_keeps, steady_bind; [apply steady_emit|].
      intros _. apply steady_ret. }
    apply keeps_bind; [apply keeps_call|intros _].
    apply keeps_bind; [apply keeps_session_createConsumer|intros consumer].
    apply keeps_bind; [apply keeps_call|intros _].
    apply steady_keeps.
    apply steady_bind; [apply steady_gets|intros consumers].
    apply steady_bind; [by apply steady_modify|intros _].
    apply steady_bind; [apply steady_emit|intros _]. apply steady_ret.
  - intros e. apply steady_bind; [apply steady_emit|intros _].
    apply steady_ret.
Qed.

Lemma steady_setup_topics envs topics : steady (setup_topics envs topics).
Proof.
  induction topics as [|topic rest IH]; simpl; [apply steady_ret|].
  apply steady_bind; [|intros _; apply IH].
  apply steady_try; [|intros e; apply steady_emit].
  apply keeps_bind;
    [apply steady_keeps, steady_create_topic_message_listener|].
  intros consumer. apply steady_keeps, steady_when, steady_emit.
Qed.

(** A steady computation, run. *)
Lemma steady_run {A} (m : Py A) s :
  steady m → ∃ v s', m s = (Ok v, s') ∧ same_lists s s'.
Proof.
  intros H. destruct (H s) as [[v Hv] Hs].
  destruct (m s) as [r s']; simpl in *; subst r. eauto.
Qed.

Ltac run_steady H :=
  match goal with
  | |- context [close_consumers ?cs ?s1] =>
      destruct (steady_run (close_consumers cs) s1
                  (steady_close_consumers cs)) as (? & ? & -> & H)
  | |- context [setup_topics ?envs ?ts ?s1] =>
      destruct (steady_run (setup_topics envs ts) s1
                  (steady_setup_topics envs ts)) as (? & ? & -> & H)
  end.

(** [emergency_stop_monitoring] never raises and rebinds both attributes
    to new empty lists; the lists they referred to stay in the store as
    they were. *)
Lemma emergency_stop_run s :
  ∃ s', emergency_stop_monitoring s = (Ok tt, s') ∧
    let a := fresh (dom (heap s)) in
    let h1 := <[a := []]> (heap s) in
    let b := fresh (dom h1) in
    heap s' = <[b := []]> h1 ∧
    monitored_queues s' = a ∧ monitored_topics s' = b.
Proof.
  unfold emergency_stop_monitoring. py_unfold. simpl.
  run_steady Hs. destruct Hs as (Hh & Hq & Ht); simpl in *.
  unfold new_list; simpl. rewrite Hh. eexists. split; [reflexivity|].
  simpl. done.
Qed.

Lemma fresh_not_in (h : gmap nat (list string)) : fresh (dom h) ∉ dom h.
Proof. apply is_fresh. Qed.

Lemma lookup_fresh_insert (h : gmap nat (list string)) l a :
  a ∈ dom h → <[fresh (dom h) := l]> h !! a = h !! a.
Proof.
  intros Ha. apply lookup_insert_ne. intros E. rewrite <- E in Ha.
  by apply fresh_not_in in Ha.
Qed.

Lemma dom_insert_old (h : gmap nat (list string)) k l x :
  x ∈ dom h → x ∈ dom (<[k := l]> h).
Proof. rewrite dom_insert_L. apply elem_of_union_r. Qed.

Lemma dom_insert_new (h : gmap nat (list string)) k l :
  k ∈ dom (<[k := l]> h).
Proof. rewrite dom_insert_L. apply elem_of_union_l, elem_of_singleton_2. done. Qed.

(** [monitor_all] never raises; afterwards the two attributes refer to
    distinct list objects holding what the argument lists held when the
    call was made. *)
Lemma monitor_all_run envs q t s :
  q ∈ dom (heap s) → t ∈ dom (heap s) →
  ∃ s', monitor_all envs q t s = (Ok tt, s') ∧
    queues_of s' = default [] (heap s !! q) ∧
    topics_of s' = default [] (heap s !! t) ∧
    lists_ok s'.
Proof.
  intros Hq Ht. unfold monitor_all.
  destruct (emergency_stop_run s) as (s1 & Hstop & Hh & Hmq & Hmt).
  unfold py_bind at 1. rewrite Hstop. clear Hstop.
  set (a := fresh (dom (heap s))) in *.
  set (h1 := <[a := []]> (heap s)) in *.
  set (b := fresh (dom h1)) in *.
  assert (Hq1 : q ∈ dom h1) by by apply dom_insert_old.
  assert (Ht1 : t ∈ dom h1) by by apply dom_insert_old.
  assert (Ha1 : a ∈ dom h1) by apply dom_insert_new.
  assert (Hab : a ≠ b).
  { intros E. rewrite E in Ha1. by apply fresh_not_in in Ha1. }
  assert (Hlq : heap s1 !! q = heap s !! q).
  { rewrite Hh. unfold b. rewrite lookup_fresh_insert by done.
    unfold h1, a. by rewrite lookup_fresh_insert. }
  assert (Hlt : heap s1 !! t = heap s !! t).
  { rewrite Hh. unfold b. rewrite lookup_fresh_insert by done.
    unfold h1, a. by rewrite lookup_fresh_insert. }
  unfold deref. py_unfold. simpl. rewrite Hlq, Hlt.
  destruct (is_nil (default [] (heap s !! q)) &&
            is_nil (default [] (heap s !! t))) eqn:Hnil.
  - eexists. split; [reflexivity|].
    apply andb_true_iff in Hnil as [Hnq Hnt].
    destruct (default [] (heap s !! q)); [|done].
    destruct (default [] (heap s !! t)); [|done].
    unfold queues_of, topics_of, lists_ok; simpl.
    rewrite Hh, Hmq, Hmt.
    rewrite lookup_insert_ne by done. unfold h1 at 1.
    rewrite !lookup_insert_eq. repeat split; try done;
      auto using dom_insert_old, dom_insert_new.
  - unfold new_list; simpl.
    set (qs := default [] (heap s !! q)).
    set (ts := default [] (heap s !! t)).
    set (c := fresh (dom (heap s1))).
    set (h2 := <[c := qs]> (heap s1)).
    set (d := fresh (dom h2)).
    run_steady Hs. destruct Hs as (Hh' & Hq' & Ht'); simpl in *.
    eexists. split; [reflexivity|].
    unfold queues_of, topics_of, lists_ok; simpl.
    rewrite Hh', Hq', Ht'.
    assert (Hc2 : c ∈ dom h2) by apply dom_insert_new.
    assert (Hcd : c ≠ d).
    { intros E. rewrite E in Hc2. by apply fresh_not_in in Hc2. }
    rewrite lookup_insert_ne by done. unfold h2 at 1.
    rewrite !lookup_insert_eq. repeat split; try done;
      auto using dom_insert_old, dom_insert_new.
Qed.

Ltac run_monitor_all s' E Hqs Hts Hok :=
  match goal with
  | |- context [monitor_all ?e ?q ?t ?s1] =>
      destruct (monitor_all_run e q t s1) as (s' & E & Hqs & Hts & Hok);
      [simpl; auto using dom_insert_old, dom_insert_new ..| rewrite E]
  end.

(** [start_monitoring] never raises; it appends the name to the list of
    its kind unless it is there already, and leaves both lists otherwise
    as they were. *)
Lemma start_monitoring_run envs name kind s :
  lists_ok s →
  ∃ s', start_monitoring envs name kind s = (Ok tt, s') ∧ lists_ok s' ∧
    queues_of s' =
      (if String.eqb kind "queue" && negb (bool_decide (name ∈ queues_of s))
       then queues_of s ++ [name] else queues_of s) ∧
    topics_of s' =
      (if String.eqb kind "queue" && negb (bool_decide (name ∈ queues_of s))
       then topics_of s
       else if String.eqb kind "topic" &&
               negb (bool_decide (name ∈ topics_of s))
       then topics_of s ++ [name] else topics_of s).
Proof.
  intros (Hq & Ht & Hne).
  unfold start_monitoring, deref, list_append. py_unfold. simpl.
  fold (queues_of s) (topics_of s).
  destruct (String.eqb kind "queue" && _); simpl;
    [|destruct (String.eqb kind "topic" && _); simpl].
  - run_monitor_all s' E Hqs Hts Hok.
    eexists. split; [reflexivity|]. split; [done|].
    rewrite Hqs, Hts. unfold queues_of, topics_of; simpl.
    by rewrite lookup_insert_eq, lookup_insert_ne.
  - run_monitor_all s' E Hqs Hts Hok.
    eexists. split; [reflexivity|]. split; [done|].
    rewrite Hqs, Hts. unfold queues_of, topics_of; simpl.
    by rewrite lookup_insert_eq, lookup_insert_ne.
  - run_monitor_all s' E Hqs Hts Hok.
    eexists. split; [reflexivity|]. split; [done|].
    by rewrite Hqs, Hts.
Qed.

Lemma start_each_snoc envs calls c s :
  start_each envs (calls ++ [c]) s =
  (start_monitoring envs c.1 c.2 (start_each envs calls s)).2.
Proof. unfold start_each. by rewrite fold_left_app. Qed.

(** C9: [start_monitoring] is additive.  Over every sequence of calls on
    an object whose two monitored lists are distinct objects (as they are
    from [__init__] on), no call discards an entry of either list, and
    every name started as a queue is in [monitored_queues] afterwards,
    every name started as a topic in [monitored_topics], although each
    call goes through [monitor_all] and thereby through
    [emergency_stop_monitoring], which rebinds both attributes to empty
    lists: [monitor_all] copies from the list objects it was passed, which
    the stop does not touch. *)
Theorem start_monitoring_additive envs calls s :
  lists_ok s →
  let s' := start_each envs calls s in
  lists_ok s' ∧
  (∀ q, q ∈ queues_of s → q ∈ queues_of s') ∧
  (∀ t, t ∈ topics_of s → t ∈ topics_of s') ∧
  (∀ name, (name, "queue") ∈ calls → name ∈ queues_of s') ∧
  (∀ name, (name, "topic") ∈ calls → name ∈ topics_of s').
Proof.
  intros Hok. simpl.
  induction calls as [|[name kind] calls IH] using rev_ind.
  - simpl. split; [done|]. split; [done|]. split; [done|].
    split; intros name H; by apply elem_of_nil in H.
  - rewrite start_each_snoc. simpl.
    destruct IH as (Hok' & IHq & IHt & IHcq & IHct).
    destruct (start_monitoring_run envs name kind _ Hok')
      as (s' & E & Hok'' & Hqs & Hts).
    rewrite E. simpl.
    set (s1 := start_each envs calls s) in *.
    assert (Hmq : ∀ q, q ∈ queues_of s1 → q ∈ queues_of s').
    { intros q Hin. rewrite Hqs. destruct (_ && _); [|done].
      apply elem_of_app. by left. }
    assert (Hmt : ∀ t, t ∈ topics_of s1 → t ∈ topics_of s').
    { intros t Hin. rewrite Hts.
      destruct (_ && _); [done|]. destruct (_ && _); [|done].
      apply elem_of_app. by left. }
    split; [done|]. split; [by auto|]. split; [by auto|]. split.
    + intros q Hin. apply elem_of_app in Hin as [Hin|Hin]; [by auto|].
      apply list_elem_of_singleton in Hin. simplify_eq.
      rewrite Hqs. clear Hqs Hts. simpl. case_bool_decide; simpl; [done|].
      apply elem_of_app. right. by apply list_elem_of_singleton.
    + intros t Hin. apply elem_of_app in Hin as [Hin|Hin]; [by auto|].
      apply list_elem_of_singleton in Hin. simplify_eq.
      rewrite Hts. clear Hqs Hts. simpl. case_bool_decide; simpl; [done|].
      apply elem_of_app. right. by apply list_elem_of_singleton.
Qed.

Lemma start_monitoring_additive_witness :
  lists_ok init ∧
  "Q1" ∈ queues_of (start_each (fun _ => willing_listener)
                      [("Q1", "queue"); ("Q2", "queue")] init) ∧
  "Q2" ∈ queues_of (start_each (fun _ => willing_listener)
                      [("Q1", "queue"); ("Q2", "queue")] init).
Proof.
  assert (Hok : lists_ok init).
  { unfold lists_ok. vm_compute. repeat split; try done;
      apply bool_decide_unpack; vm_compute; done. }
  split; [exact Hok|].
  destruct (start_monitoring_additive (fun _ => willing_listener)
              [("Q1", "queue"); ("Q2", "queue")] init Hok)
    as (_ & _ & _ & Hq & _).
  split; apply Hq.
  - apply list_elem_of_here.
  - apply list_elem_of_further, list_elem_of_here.
Defined.

Example start_q1_then_q2 :
  queues_of (start_each (fun _ => willing_listener)
               [("Q1", "queue"); ("Q2", "queue")] init) = ["Q1"; "Q2"].
Proof. vm_compute. reflexivity. Qed.

Example stop_resets_the_lists :
  queues_of (emergency_stop_monitoring
               (start_each (fun _ => willing_listener)
                  [("Q1", "queue"); ("Q2", "queue")] init)).2 = [].
Proof. vm_compute. reflexivity. Qed.

(** ** The poll loop *)

Lemma queue_key_inj q1 q2 : queue_key q1 = queue_key q2 → q1 = q2.
Proof. unfold queue_key. simpl. intros H. by simplify_eq. Qed.

(** Polling one queue never raises; it changes the locals and the cache as
    [polled] says and leaves the handles alone. *)
Lemma poll_queue_run env now q st s :
  ∃ s', poll_queue env now q st s =
          (Ok ((polled now q (browse_messages (is_connected s) env q true)
                  st.1 (message_cache s)).1,
               st.2 || (due now st.1 q &&
                        has_new_ids st.1 q
                          (browse_messages (is_connected s) env q true))),
           s') ∧
        message_cache s' =
          (polled now q (browse_messages (is_connected s) env q true)
             st.1 (message_cache s)).2 ∧
        is_connected s' = is_connected s.
Proof.
  unfold poll_queue, polled, due, has_new_ids. destruct st as [locals flag].
  simpl. case_bool_decide; simpl.
  { eexists. rewrite orb_false_r. by repeat split. }
  py_unfold.
  destruct (browse_queue_run env q false true true s) as [evs ->]. simpl.
  destruct (browse_messages _ _ _ _) as [|m ms] eqn:Hm; simpl.
  { eexists. rewrite orb_false_r. by repeat split. }
  destruct (last_message_ids locals !! q) as [seen|]; simpl.
  - case_bool_decide; simpl.
    + eexists. rewrite orb_true_r. by repeat split.
    + eexists. rewrite orb_false_r. by repeat split.
  - eexists. rewrite orb_false_r. by repeat split.
Qed.

Section Tick.
Variable envs : string → BrowseEnv.
Variable now : Z.
Variable q : string.

Lemma due_ext l1 l2 :
  last_checks l1 !! q = last_checks l2 !! q → due now l1 q = due now l2 q.
Proof. unfold due. by intros ->. Qed.

Lemma has_new_ids_ext l1 l2 messages :
  last_message_ids l1 !! q = last_message_ids l2 !! q →
  has_new_ids l1 q messages = has_new_ids l2 q messages.
Proof. unfold has_new_ids. by intros ->. Qed.

Lemma polled_other q0 messages locals cache :
  q0 ≠ q →
  last_checks (polled now q0 messages locals cache).1 !! q =
    last_checks locals !! q ∧
  last_message_ids (polled now q0 messages locals cache).1 !! q =
    last_message_ids locals !! q ∧
  (polled now q0 messages locals cache).2 !! queue_key q =
    cache !! queue_key q.
Proof.
  intros Hne. unfold polled. destruct (due now locals q0); simpl; [|done].
  assert (queue_key q0 ≠ queue_key q) by (intros E; by apply queue_key_inj in E).
  rewrite lookup_insert_ne by done.
  destruct (is_nil messages), (has_new_ids locals q0 messages);
    by rewrite ?lookup_insert_ne.
Qed.

Lemma polled_due messages locals cache :
  due now locals q = true →
  last_checks (polled now q messages locals cache).1 !! q = Some now ∧
  last_message_ids (polled now q messages locals cache).1 !! q =
    (if is_nil messages then last_message_ids locals !! q
     else Some (ids messages)) ∧
  (polled now q messages locals cache).2 !! queue_key q =
    (if has_new_ids locals q messages then Some messages
     else cache !! queue_key q).
Proof.
  intros Hd. unfold polled. rewrite Hd. simpl.
  rewrite lookup_insert_eq.
  destruct (is_nil messages), (has_new_ids locals q messages);
    by rewrite ?lookup_insert_eq.
Qed.

Lemma not_due_again locals :
  last_checks locals !! q = Some now → due now locals q = false.
Proof.
  unfold due. intros ->. simpl. rewrite Z.sub_diag.
  by rewrite bool_decide_true.
Qed.

(** A queue that is not due is left alone by the whole pass, however
    often it is listed. *)
Lemma poll_queues_skips queues st s :
  due now st.1 q = false →
  ∃ st' s', poll_queues envs now queues st s = (Ok st', s') ∧
    last_checks st'.1 !! q = last_checks st.1 !! q ∧
    last_message_ids st'.1 !! q = last_message_ids st.1 !! q ∧
    message_cache s' !! queue_key q = message_cache s !! queue_key q.
Proof.
  revert st s. induction queues as [|q0 rest IH]; intros st s Hd; simpl.
  { unfold py_ret. by eauto 10. }
  unfold py_bind.
  destruct (poll_queue_run (envs q0) now q0 st s) as (s1 & -> & Hc & _).
  set (messages := browse_messages _ _ _ _) in *.
  set (flag := _ || _).
  destruct (decide (q0 = q)) as [->|Hne].
  - unfold polled in *. rewrite Hd in *. simpl in *.
    destruct (IH (st.1, flag) s1 Hd) as (st' & s' & -> & H1 & H2 & H3).
    exists st', s'. simpl in *. by rewrite H1, H2, H3, Hc.
  - destruct (polled_other q0 messages st.1 (message_cache s) Hne)
      as (P1 & P2 & P3).
    destruct (IH ((polled now q0 messages st.1 (message_cache s)).1, flag)
                s1) as (st' & s' & -> & H1 & H2 & H3).
    { simpl. by rewrite (due_ext _ st.1 P1). }
    exists st', s'. simpl in *. by rewrite H1, H2, H3, Hc, P1, P2, P3.
Qed.

(** A listed queue that is due is browsed once, and the pass leaves its
    tracked ids and its cache entry as that one poll made them. *)
Lemma poll_queues_polls queues st s :
  q ∈ queues → due now st.1 q = true →
  let messages := browse_messages (is_connected s) (envs q) q true in
  ∃ st' s', poll_queues envs now queues st s = (Ok st', s') ∧
    last_message_ids st'.1 !! q =
      (if is_nil messages then last_message_ids st.1 !! q
       else Some (ids messages)) ∧
    message_cache s' !! queue_key q =
      (if has_new_ids st.1 q messages then Some messages
       else message_cache s !! queue_key q).
Proof.
  revert st s. induction queues as [|q0 rest IH]; intros st s Hin Hd;
    simpl; [by apply elem_of_nil in Hin|].
  unfold py_bind.
  destruct (poll_queue_run (envs q0) now q0 st s) as (s1 & -> & Hc & Hconn).
  set (flag := _ || _).
  destruct (decide (q0 = q)) as [->|Hne].
  - destruct (polled_due
                (browse_messages (is_connected s) (envs q) q true)
                st.1 (message_cache s) Hd) as (P1 & P2 & P3).
    destruct (poll_queues_skips rest
                ((polled now q
                    (browse_messages (is_connected s) (envs q) q true)
                    st.1 (message_cache s)).1, flag) s1)
      as (st' & s' & -> & H1 & H2 & H3).
    { by apply not_due_again. }
    exists st', s'. simpl in *. by rewrite H2, H3, Hc, P2, P3.
  - apply elem_of_cons in Hin as [->|Hin]; [done|].
    destruct (polled_other q0
                (browse_messages (is_connected s) (envs q0) q0 true)
                st.1 (message_cache s) Hne) as (P1 & P2 & P3).
    destruct (IH ((polled now q0
                     (browse_messages (is_connected s) (envs q0) q0 true)
                     st.1 (message_cache s)).1, flag) s1 Hin)
      as (st' & s' & -> & H2 & H3).
    { simpl. by rewrite (due_ext _ st.1 P1). }
    exists st', s'. simpl in *.
    rewrite H2, H3, Hconn, Hc, P2, P3.
    by rewrite (has_new_ids_ext _ st.1 _ P2).
Qed.

(** One iteration of the main loop, seen from a monitored queue that is
    due. *)
Lemma monitor_tick_run locals s :
  q ∈ queues_of s → due now locals q = true →
  let messages := browse_messages (is_connected s) (envs q) q true in
  ∃ locals' s', monitor_tick envs now locals s = (Ok locals', s') ∧
    last_message_ids locals' !! q =
      (if is_nil messages then last_message_ids locals !! q
       else Some (ids messages)) ∧
    message_cache s' !! queue_key q =
      (if has_new_ids locals q messages then Some messages
       else message_cache s !! queue_key q).
Proof.
  intros Hin Hd. unfold monitor_tick, deref. py_unfold. simpl.
  destruct (poll_queues_polls (queues_of s) (locals, false) s Hin Hd)
    as (st' & s' & E & H1 & H2).
  unfold queues_of in E. rewrite E.
  destruct st'.2; [destruct (negb _)|]; simpl; eauto.
Qed.
End Tick.

Lemma has_new_ids_spec locals q messages :
  has_new_ids locals q messages = true ↔
  messages ≠ [] ∧
  ∃ seen, last_message_ids locals !! q = Some seen ∧
          ∃ i, i ∈ ids messages ∧ i ∉ seen.
Proof.
  unfold has_new_ids. split.
  - intros H. apply andb_true_iff in H as [Hn H].
    split; [by destruct messages|].
    destruct (last_message_ids locals !! q) as [seen|]; [|done].
    exists seen. split; [done|].
    apply bool_decide_eq_true in H. apply set_choose_L in H as [i Hi].
    exists i. by apply elem_of_difference in Hi.
  - intros (Hn & seen & -> & i & Hi & Hs). apply andb_true_iff. split.
    + by destruct messages.
    + apply bool_decide_eq_true. intros E.
      assert (i ∈ ids messages ∖ seen) as Hd by by apply elem_of_difference.
      rewrite E in Hd. by apply not_elem_of_empty in Hd.
Qed.

Lemma browse_queue_value env q u a f s :
  (browse_queue env q u a f s).1 = Ok (browse_messages (is_connected s) env q f).
Proof. by destruct (browse_queue_run env q u a f s) as [evs ->]. Qed.

Lemma orders_is_watched : "orders" ∈ queues_of orders_watched.2.
Proof. vm_compute. apply list_elem_of_here. Qed.

(** C1, as stated, fails: after a poll the cache entry is not always the
    list the browse returned.  When the queue "orders", cached with one
    message, is found empty by the next poll, its entry still holds that
    message. *)
Lemma tick_keeps_entry_on_empty_browse :
  ¬ (∀ envs now locals s q messages,
       q ∈ queues_of s → due now locals q = true →
       (browse_queue (envs q) q false true true s).1 = Ok messages →
       message_cache (monitor_tick envs now locals s).2 !! queue_key q =
         Some messages).
Proof.
  intros H.
  pose proof (H drained 1500%Z orders_locals orders_watched.2 "orders" []
                orders_is_watched eq_refl eq_refl) as Hc.
  vm_compute in Hc. discriminate Hc.
Qed.

(** C1, amended: for every monitored queue and every iteration of the
    poll loop in which it is re-browsed, if the browse returns a non-empty
    list with at least one id that is not among the ids tracked for the
    queue, the cache entry of the queue afterwards is exactly the list the
    browse returned (replaced wholesale, nothing of the old entry kept);
    otherwise (the browse is empty, or brings no id that was not seen
    before, or no ids are tracked for the queue) the entry is left as it
    was.  (What a browse returns depends on the object only through its
    being connected, [browse_queue_run], so the browse of the iteration is
    the browse at its start.) *)
Theorem tick_replaces_entry_on_new_ids envs now locals s q :
  q ∈ queues_of s → due now locals q = true →
  ∃ messages,
    (browse_queue (envs q) q false true true s).1 = Ok messages ∧
    (has_new_ids locals q messages = true ↔
       messages ≠ [] ∧
       ∃ seen, last_message_ids locals !! q = Some seen ∧
               ∃ i, i ∈ ids messages ∧ i ∉ seen) ∧
    (has_new_ids locals q messages = true →
       message_cache (monitor_tick envs now locals s).2 !! queue_key q =
         Some messages) ∧
    (has_new_ids locals q messages = false →
       message_cache (monitor_tick envs now locals s).2 !! queue_key q =
         message_cache s !! queue_key q).
Proof.
  intros Hin Hd.
  destruct (monitor_tick_run envs now q locals s Hin Hd)
    as (locals' & s' & E & _ & Hc).
  exists (browse_messages (is_connected s) (envs q) q true).
  split; [apply browse_queue_value|].
  split; [apply has_new_ids_spec|].
  rewrite E; simpl. rewrite Hc.
  split; by intros ->.
Qed.

Lemma tick_replaces_entry_on_new_ids_witness :
  message_cache (monitor_tick refilled 1500%Z orders_locals
                   orders_watched.2).2 !! queue_key "orders" =
  Some [text_record "orders" "ID:1" "a"; text_record "orders" "ID:2" "b"].
Proof.
  assert (Hin : "orders" ∈ queues_of orders_watched.2)
    by (vm_compute; apply list_elem_of_here).
  destruct (tick_replaces_entry_on_new_ids refilled 1500%Z orders_locals
              orders_watched.2 "orders" Hin eq_refl)
    as (messages & Hb & _ & Hnew & _).
  vm_compute in Hb. injection Hb as <-.
  apply Hnew. vm_compute. reflexivity.
Defined.

(** C4, as stated, fails: after a poll the tracked ids are not always the
    id set of the browse.  When the queue "orders", tracked with id
    "ID:1", is found empty by the next poll, "ID:1" is still tracked. *)
Lemma tick_keeps_ids_on_empty_browse :
  ¬ (∀ envs now locals s q messages locals',
       q ∈ queues_of s → due now locals q = true →
       (browse_queue (envs q) q false true true s).1 = Ok messages →
       (monitor_tick envs now locals s).1 = Ok locals' →
       last_message_ids locals' !! q = Some (ids messages)).
Proof.
  intros H.
  epose proof (H drained 1500%Z orders_locals orders_watched.2 "orders" [] _
                 orders_is_watched eq_refl eq_refl eq_refl) as Hc.
  apply (f_equal (fun o => match o with
                           | Some seen => bool_decide ("ID:1" ∈ seen)
                           | None => false
                           end)) in Hc.
  vm_compute in Hc. discriminate Hc.
Qed.

(** C4, amended: for every monitored queue, after every poll of that
    queue in the poll loop whose browse result is not empty, the tracked
    ids of the queue are the id set of that browse result, whether or not
    the poll found new ids; after a poll whose browse result is empty the
    tracked ids are left as they were. *)
Theorem tick_tracks_ids_of_nonempty_browse envs now locals s q :
  q ∈ queues_of s → due now locals q = true →
  ∃ messages locals',
    (browse_queue (envs q) q false true true s).1 = Ok messages ∧
    (monitor_tick envs now locals s).1 = Ok locals' ∧
    (messages ≠ [] → last_message_ids locals' !! q = Some (ids messages)) ∧
    (messages = [] →
       last_message_ids locals' !! q = last_message_ids locals !! q).
Proof.
  intros Hin Hd.
  destruct (monitor_tick_run envs now q locals s Hin Hd)
    as (locals' & s' & E & Hl & _).
  exists (browse_messages (is_connected s) (envs q) q true), locals'.
  split; [apply browse_queue_value|].
  split; [by rewrite E|].
  rewrite Hl. split.
  - intros Hn. by destruct (browse_messages _ _ _ _).
  - by intros ->.
Qed.

Lemma tick_tracks_ids_of_nonempty_browse_witness :
  ∃ locals',
    (monitor_tick refilled 1500%Z orders_locals orders_watched.2).1 =
      Ok locals' ∧
    last_message_ids locals' !! "orders" =
      Some (ids [text_record "orders" "ID:1" "a";
                 text_record "orders" "ID:2" "b"]).
Proof.
  assert (Hin : "orders" ∈ queues_of orders_watched.2)
    by (vm_compute; apply list_elem_of_here).
  destruct (tick_tracks_ids_of_nonempty_browse refilled 1500%Z orders_locals
              orders_watched.2 "orders" Hin eq_refl)
    as (messages & locals' & Hb & Ht & Hne & _).
  exists locals'. split; [exact Ht|].
  vm_compute in Hb. injection Hb as <-.
  apply Hne. discriminate.
Defined.

(** * Further properties *)

(** ** Stopping *)

Lemma state_eta s :
  set_broker_consumers (broker_consumers s) (next_consumer s)
    (add_events [] s) = s.
Proof.
  destruct s. unfold set_broker_consumers, add_events; simpl.
  by rewrite app_nil_r.
Qed.

(** Closing the consumers of the table never raises, whatever the single
    [close()] calls do, and touches nothing but the trace and the set of
    consumers open on the broker. *)
Lemma close_consumers_run consumers s :
  ∃ evs, close_consumers consumers s =
    (Ok tt,
     set_broker_consumers (remaining consumers.*2 (broker_consumers s))
       (next_consumer s) (add_events evs s)).
Proof.
  revert s. induction consumers as [|[key consumer] rest IH]; intros s; simpl.
  { exists []. unfold py_ret. by rewrite state_eta. }
  py_unfold. unfold consumer_close_call.
  destruct (consumer_close consumer) as [u|e]; simpl.
  - match goal with |- context [close_consumers rest ?s1] =>
      destruct (IH s1) as [evs ->] end.
    exists ([Call "consumer.close";
             Emit (log_signal ("Closed consumer for " +:+ key))] ++ evs).
    unfold set_broker_consumers, add_events; simpl.
    by rewrite <- !app_assoc.
  - match goal with |- context [close_consumers rest ?s1] =>
      destruct (IH s1) as [evs ->] end.
    exists ([Call "consumer.close"] ++ evs).
    unfold set_broker_consumers, add_events; simpl.
    by rewrite <- !app_assoc.
Qed.

(** The table's consumers, as [emergency_stop_monitoring] walks them. *)
Lemma emergency_stop_full s :
  ∃ evs s', emergency_stop_monitoring s = (Ok tt, s') ∧
    monitor_running s' = false ∧ topic_consumers s' = ∅ ∧
    message_cache s' = ∅ ∧
    connection s' = connection s ∧ session s' = session s ∧
    _cached_queues s' = _cached_queues s ∧
    _cached_topics s' = _cached_topics s ∧
    threads_started s' = threads_started s ∧
    next_consumer s' = next_consumer s ∧
    broker_consumers s' =
      remaining (map_to_list (topic_consumers s)).*2 (broker_consumers s) ∧
    trace s' = trace s ++ evs ++ [Emit (log_signal "All monitoring stopped")].
Proof.
  unfold emergency_stop_monitoring. py_unfold. simpl.
  match goal with |- context [close_consumers ?cs ?s1] =>
    destruct (close_consumers_run cs s1) as [evs ->] end.
  unfold new_list; simpl. exists evs. eexists. split; [reflexivity|].
  simpl. repeat split. by rewrite <- app_assoc.
Qed.

Lemma remaining_subseteq consumers opened c :
  c ∈ remaining consumers opened → c ∈ opened.
Proof.
  revert opened. induction consumers as [|c0 rest IH]; intros opened; simpl;
    [done|].
  intros H. apply IH in H. destruct (consumer_close c0); [|done].
  by apply list_elem_of_filter in H as [_ H].
Qed.

Lemma remaining_closed consumers opened c :
  c ∈ consumers → consumer_close c = Ok tt →
  consumer_id c ∉ consumer_id <$> remaining consumers opened.
Proof.
  revert opened. induction consumers as [|c0 rest IH]; intros opened Hin Hc;
    simpl; [by apply elem_of_nil in Hin|].
  apply elem_of_cons in Hin as [->|Hin]; [|by apply IH].
  rewrite Hc. intros H. apply list_elem_of_fmap in H as (c' & Hid & H).
  apply remaining_subseteq in H.
  apply list_elem_of_filter in H as [Hne _]. by rewrite Hid in Hne.
Qed.

Lemma remaining_kept consumers opened c' :
  c' ∈ opened →
  (∀ c, c ∈ consumers → consumer_id c = consumer_id c' →
        ∃ e, consumer_close c = Raise e) →
  c' ∈ remaining consumers opened.
Proof.
  revert opened. induction consumers as [|c0 rest IH]; intros opened Hin Hk;
    simpl; [done|].
  apply IH.
  - destruct (consumer_close c0) as [u|e] eqn:Hc; [|done].
    apply list_elem_of_filter. split; [|done].
    intros Hid. destruct (Hk c0) as [e He]; [by left|done|].
    by rewrite Hc in He.
  - intros c Hc. apply Hk. by right.
Qed.

Lemma elem_of_table_consumers (table : gmap string Consumer) c :
  c ∈ (map_to_list table).*2 ↔ ∃ key, table !! key = Some c.
Proof.
  rewrite list_elem_of_fmap. split.
  - intros ([key c'] & -> & H). exists key. by apply elem_of_map_to_list.
  - intros [key H]. exists (key, c). split; [done|].
    by apply elem_of_map_to_list.
Qed.

Lemma emergency_stop_lists s :
  queues_of (emergency_stop_monitoring s).2 = [] ∧
  topics_of (emergency_stop_monitoring s).2 = [] ∧
  lists_ok (emergency_stop_monitoring s).2.
Proof.
  destruct (emergency_stop_run s) as (s' & -> & Hh & Hq & Htl). simpl.
  set (a := fresh (dom (heap s))) in *.
  set (h1 := <[a := []]> (heap s)) in *.
  set (b := fresh (dom h1)) in *.
  assert (Ha1 : a ∈ dom h1) by apply dom_insert_new.
  assert (Hab : a ≠ b).
  { intros Eab. rewrite Eab in Ha1. by apply fresh_not_in in Ha1. }
  unfold queues_of, topics_of, lists_ok. rewrite Hh, Hq, Htl.
  rewrite lookup_insert_ne by done. unfold h1 at 1.
  rewrite !lookup_insert_eq.
  repeat split; try done; auto using dom_insert_old, dom_insert_new.
Qed.

(** X1: [emergency_stop_monitoring] never raises and always leaves the
    object stopped: the running flag is cleared, the consumer table and
    the message cache are empty and both monitored lists are (new) empty
    lists, while the handles and the cached destinations are as before.
    That holds whatever the [close()] calls of the consumers do. *)
Theorem emergency_stop_resets s :
  ∃ s', emergency_stop_monitoring s = (Ok tt, s') ∧
    monitor_running s' = false ∧ topic_consumers s' = ∅ ∧
    message_cache s' = ∅ ∧ queues_of s' = [] ∧ topics_of s' = [] ∧
    lists_ok s' ∧
    connection s' = connection s ∧ session s' = session s ∧
    _cached_queues s' = _cached_queues s ∧
    _cached_topics s' = _cached_topics s.
Proof.
  destruct (emergency_stop_full s)
    as (evs & s' & E & Hr & Ht & Hc & Hcn & Hs & Hcq & Hct & _).
  destruct (emergency_stop_lists s) as (Hq & Htl & Hok).
  rewrite E in Hq, Htl, Hok. simpl in Hq, Htl, Hok.
  exists s'. repeat (split; [done|]). done.
Qed.

(** X2: the stop closes consumers best-effort.  Every consumer of the
    table whose [close()] succeeds is gone from the broker afterwards,
    also when the [close()] of another one raises; the stop opens no
    consumer; and a consumer that is open but not closable through the
    table (not in it, or with a raising [close()]) stays open, although
    the table is cleared. *)
Theorem emergency_stop_closes_best_effort s :
  let s' := (emergency_stop_monitoring s).2 in
  (∀ key c, topic_consumers s !! key = Some c → consumer_close c = Ok tt →
     consumer_id c ∉ consumer_id <$> broker_consumers s') ∧
  (∀ c', c' ∈ broker_consumers s' → c' ∈ broker_consumers s) ∧
  (∀ c', c' ∈ broker_consumers s →
     (∀ key c, topic_consumers s !! key = Some c →
        consumer_id c = consumer_id c' → ∃ e, consumer_close c = Raise e) →
     c' ∈ broker_consumers s').
Proof.
  simpl. destruct (emergency_stop_full s)
    as (evs & s' & -> & _ & _ & _ & _ & _ & _ & _ & _ & _ & Hb & _).
  simpl. rewrite Hb. split; [|split].
  - intros key c Hk Hc. apply remaining_closed; [|done].
    apply elem_of_table_consumers. eauto.
  - intros c'. apply remaining_subseteq.
  - intros c' Hin Hk. apply remaining_kept; [done|].
    intros c Hc Hid. apply elem_of_table_consumers in Hc as [key Hc]. eauto.
Qed.

Lemma emergency_stop_closes_best_effort_witness :
  consumer_id (alerts_consumer 0) ∉
    consumer_id <$> broker_consumers
                      (emergency_stop_monitoring two_subscriptions).2.
Proof.
  destruct (emergency_stop_closes_best_effort two_subscriptions) as (H & _).
  apply (H (topic_key "alerts") (alerts_consumer 0)); reflexivity.
Defined.

(** X3: stopping is idempotent.  A second stop right after a stop makes no
    call to the broker, leaves its consumers alone and leaves the object
    stopped; all it does is log "All monitoring stopped" again. *)
Theorem emergency_stop_twice s :
  let s1 := (emergency_stop_monitoring s).2 in
  let s2 := (emergency_stop_monitoring s1).2 in
  trace s2 = trace s1 ++ [Emit (log_signal "All monitoring stopped")] ∧
  broker_consumers s2 = broker_consumers s1 ∧
  monitor_running s2 = false ∧ topic_consumers s2 = ∅ ∧
  message_cache s2 = ∅ ∧ queues_of s2 = [] ∧ topics_of s2 = [].
Proof.
  simpl. destruct (emergency_stop_full s)
    as (evs & s1 & -> & _ & Ht & _). simpl.
  destruct (emergency_stop_lists s1) as (Hq & Htl & _).
  destruct (emergency_stop_full s1)
    as (evs2 & s2 & E & Hr & Ht2 & Hc & _ & _ & _ & _ & _ & _ & Hb & Htr).
  rewrite E in Hq, Htl. simpl in *.
  assert (evs2 = []) as ->.
  { unfold emergency_stop_monitoring in E. py_unfold. simpl in E.
    rewrite Ht, map_to_list_empty in E. simpl in E.
    unfold new_list in E; simpl in E. simplify_eq.
    simpl in Htr. apply app_inv_head in Htr.
    by apply (app_inv_tail _ [] evs2) in Htr. }
  rewrite E. simpl. rewrite Ht, map_to_list_empty in Hb. simpl in Hb.
  rewrite app_nil_l in Htr. repeat (split; [done|]). done.
Qed.

(** ** Starting *)

Section Preserves.
Context {X : Type} (f : JVMThread → X).

Lemma preserves_ret {A} (a : A) : preserves f (py_ret a).
Proof. by intros s. Qed.

Lemma preserves_gets {A} (g : JVMThread → A) : preserves f (gets g).
Proof. by intros s. Qed.

Lemma preserves_modify g : (∀ s, f (g s) = f s) → preserves f (modify g).
Proof. intros H s. apply H. Qed.

Lemma preserves_bind {A B} (m : Py A) (k : A → Py B) :
  preserves f m → (∀ a, preserves f (k a)) → preserves f (py_bind m k).
Proof.
  intros Hm Hk s. unfold py_bind. specialize (Hm s).
  destruct (m s) as [[a|e] s1]; simpl in *; [|done].
  by rewrite Hk.
Qed.

Lemma preserves_try {A} (m : Py A) (h : string → Py A) :
  preserves f m → (∀ e, preserves f (h e)) → preserves f (try_except m h).
Proof.
  intros Hm Hh s. unfold try_except. specialize (Hm s).
  destruct (m s) as [[a|e] s1]; simpl in *; [done|].
  by rewrite Hh.
Qed.

Lemma preserves_when b m : preserves f m → preserves f (when b m).
Proof. destruct b; [done|]. intros _. apply preserves_ret. Qed.

Hypothesis blind : listener_blind f.

Lemma preserves_emit sg : preserves f (emit sg).
Proof. intros s. apply blind. Qed.

Lemma preserves_call {A} method (r : result A) : preserves f (call method r).
Proof. intros s. apply blind. Qed.

Lemma preserves_create_listener env topic :
  preserves f (create_topic_message_listener env topic).
Proof.
  destruct blind as (He & Ht & Hb).
  unfold create_topic_message_listener.
  apply preserves_try.
  - apply preserves_bind; [apply preserves_gets|intros conn].
    apply preserves_bind; [apply preserves_gets|intros sess].
    destruct (_ || _).
    { apply preserves_bind; [apply preserves_emit|].
      intros _. apply preserves_ret. }
    apply preserves_bind; [apply preserves_call|intros _].
    apply preserves_bind.
    { intros s. unfold session_createConsumer.
      destruct (createConsumer env); simpl; by rewrite He, ?Hb. }
    intros consumer.
    apply preserves_bind; [apply preserves_call|intros _].
    apply preserves_bind; [apply preserves_gets|intros consumers].
    apply preserves_bind; [by apply preserves_modify|intros _].
    apply preserves_bind; [apply preserves_emit|intros _].
    apply preserves_ret.
  - intros e. apply preserves_bind; [apply preserves_emit|intros _].
    apply preserves_ret.
Qed.

Lemma preserves_setup_topics envs topics :
  preserves f (setup_topics envs topics).
Proof.
  induction topics as [|topic rest IH]; simpl; [apply preserves_ret|].
  apply preserves_bind; [|intros _; apply IH].
  apply preserves_try; [|intros e; apply preserves_emit].
  apply preserves_bind; [apply preserves_create_listener|].
  intros consumer. apply preserves_when, preserves_emit.
Qed.
End Preserves.

(** What one listener request does to the keys of the consumer table. *)
Lemma create_listener_dom env topic s :
  dom (topic_consumers (create_topic_message_listener env topic s).2) =
  if is_connected s && granted env
  then {[topic_key topic]} ∪ dom (topic_consumers s)
  else dom (topic_consumers s).
Proof.
  unfold create_topic_message_listener, is_connected, granted,
    session_createConsumer. py_unfold.
  destruct (connection s), (session s); simpl; try done.
  destruct (createTopic env); simpl; [|done].
  destruct (createConsumer env); simpl; [|done].
  destruct (setMessageListener env); simpl; [|done].
  by rewrite dom_insert_L.
Qed.

Lemma setup_topics_dom envs topics s :
  dom (topic_consumers (setup_topics envs topics s).2) =
  dom (topic_consumers s) ∪
  (if is_connected s
   then list_to_set (topic_key <$> filter (fun t => granted (envs t) = true)
                                     topics)
   else ∅).
Proof.
  revert s. induction topics as [|topic rest IH]; intros s; simpl.
  { destruct (is_connected s); set_solver. }
  unfold py_bind at 1.
  destruct (try_except _ _ s) as [r s1] eqn:E.
  assert (Hd : dom (topic_consumers s1) =
               if is_connected s && granted (envs topic)
               then {[topic_key topic]} ∪ dom (topic_consumers s)
               else dom (topic_consumers s)).
  { rewrite <- create_listener_dom. unfold try_except, py_bind, when, emit,
      modify, py_ret in E.
    destruct (create_topic_message_listener (envs topic) topic s)
      as [[[c|]|e] s0]; simpl in *; by simplify_eq. }
  assert (Hc : is_connected s1 = is_connected s).
  { change s1 with (r, s1).2. rewrite <- E.
    apply (preserves_try is_connected).
    - apply preserves_bind.
      + apply preserves_create_listener. by repeat split.
      + intros c. apply preserves_when, preserves_emit. by repeat split.
    - intros e. apply preserves_emit. by repeat split. }
  assert (Hr : ∃ u, r = Ok u).
  { unfold try_except, py_bind, when, emit, modify, py_ret in E.
    destruct (create_topic_message_listener (envs topic) topic s)
      as [[[c|]|e] s0]; simpl in *; simplify_eq; eauto. }
  destruct Hr as [u ->]. rewrite IH, Hd, Hc.
  destruct (is_connected s); simpl; [|set_solver].
  rewrite filter_cons. destruct (granted (envs topic)).
  - rewrite decide_True by done. simpl. set_solver.
  - rewrite decide_False by done. simpl. set_solver.
Qed.

Lemma blind_monitor_running : listener_blind monitor_running.
Proof. by repeat split. Qed.
Lemma blind_threads_started : listener_blind threads_started.
Proof. by repeat split. Qed.
Lemma blind_message_cache : listener_blind message_cache.
Proof. by repeat split. Qed.
Lemma blind_connection : listener_blind connection.
Proof. by repeat split. Qed.
Lemma blind_session : listener_blind session.
Proof. by repeat split. Qed.
Lemma blind_is_connected : listener_blind is_connected.
Proof. by repeat split. Qed.

(** [monitor_all], run: besides what [monitor_all_run] says about the
    lists. *)
Lemma monitor_all_full envs q t s :
  ∃ s', monitor_all envs q t s = (Ok tt, s') ∧
    message_cache s' = ∅ ∧
    connection s' = connection s ∧ session s' = session s ∧
    let qs := default [] (heap s !! q) in
    let ts := default [] (heap s !! t) in
    if is_nil (default [] (heap (emergency_stop_monitoring s).2 !! q)) &&
       is_nil (default [] (heap (emergency_stop_monitoring s).2 !! t))
    then monitor_running s' = false ∧
         threads_started s' = threads_started s ∧
         topic_consumers s' = ∅ ∧
         ∃ evs, trace s' =
                  trace s ++ evs ++
                  [Emit (log_signal "All monitoring stopped");
                   Emit (log_signal "No destinations to monitor")]
    else monitor_running s' = true ∧
         threads_started s' = S (threads_started s) ∧
         dom (topic_consumers s') =
           if is_connected s
           then list_to_set
                  (topic_key <$>
                   filter (fun t => granted (envs t) = true)
                     (default [] (heap (emergency_stop_monitoring s).2 !! t)))
           else ∅.
Proof.
  unfold monitor_all.
  destruct (emergency_stop_full s)
    as (evs & s1 & Hstop & Hr & Htc & Hc & Hcn & Hs & _ & _ & Hth & _ & _ & Htr).
  unfold py_bind at 1. rewrite Hstop. simpl.
  unfold deref. py_unfold. simpl.
  destruct (is_nil (default [] (heap s1 !! q)) &&
            is_nil (default [] (heap s1 !! t))) eqn:Hnil.
  - eexists. split; [reflexivity|]. simpl.
    repeat (split; [done|]). exists evs. rewrite Htr.
    by rewrite <- !app_assoc.
  - unfold new_list; simpl.
    match goal with |- context [setup_topics ?e ?ts ?s2] =>
      pose proof (preserves_setup_topics monitor_running
                    blind_monitor_running e ts s2) as P1;
      pose proof (preserves_setup_topics threads_started
                    blind_threads_started e ts s2) as P2;
      pose proof (preserves_setup_topics message_cache
                    blind_message_cache e ts s2) as P3;
      pose proof (preserves_setup_topics connection
                    blind_connection e ts s2) as P4;
      pose proof (preserves_setup_topics session
                    blind_session e ts s2) as P5;
      pose proof (setup_topics_dom e ts s2) as P6;
      destruct (steady_run (setup_topics e ts) s2
                  (steady_setup_topics e ts)) as (u & s3 & E & _)
    end.
    rewrite E in *. simpl in *.
    unfold is_connected in *. simpl in P6. rewrite Htc, Hcn, Hs in P6.
    rewrite dom_empty_L, (left_id_L ∅ (∪)) in P6.
    eexists. split; [reflexivity|]. simpl.
    rewrite ?P3, ?P4, ?P5, ?P2, ?Hth.
    repeat (split; [done|]). done.
Qed.

Lemma stop_keeps_objects s a :
  a ∈ dom (heap s) →
  heap (emergency_stop_monitoring s).2 !! a = heap s !! a.
Proof.
  intros Ha. destruct (emergency_stop_run s) as (s' & -> & Hh & _). simpl.
  rewrite Hh. rewrite lookup_fresh_insert by by apply dom_insert_old.
  by rewrite lookup_fresh_insert.
Qed.

Lemma topic_key_inj t1 t2 : topic_key t1 = topic_key t2 → t1 = t2.
Proof. unfold topic_key. simpl. intros H. by simplify_eq. Qed.

(** X4: [monitor_all] starts monitoring exactly when it is given a
    destination.  It never raises, always begins from an empty cache and
    leaves the monitored lists holding what the argument lists held.
    Given two empty lists it starts nothing: the object is left stopped, no
    thread is started and the consumer table is empty.  Given a queue or a
    topic it sets the running flag and starts exactly one monitor
    thread. *)
Theorem monitor_all_starts_iff_destinations envs q t s :
  q ∈ dom (heap s) → t ∈ dom (heap s) →
  ∃ s', monitor_all envs q t s = (Ok tt, s') ∧
    message_cache s' = ∅ ∧
    queues_of s' = default [] (heap s !! q) ∧
    topics_of s' = default [] (heap s !! t) ∧
    connection s' = connection s ∧ session s' = session s ∧
    (default [] (heap s !! q) = [] → default [] (heap s !! t) = [] →
       monitor_running s' = false ∧
       threads_started s' = threads_started s ∧
       topic_consumers s' = ∅) ∧
    (default [] (heap s !! q) ≠ [] ∨ default [] (heap s !! t) ≠ [] →
       monitor_running s' = true ∧
       threads_started s' = S (threads_started s)).
Proof.
  intros Hq Ht.
  destruct (monitor_all_run envs q t s Hq Ht) as (s' & E & Hqs & Hts & _).
  destruct (monitor_all_full envs q t s) as (s'' & E' & Hc & Hcn & Hs & H).
  rewrite E in E'. simplify_eq. exists s''.
  rewrite !stop_keeps_objects in H by done.
  repeat (split; [done|]). split.
  - intros Eq Et. rewrite Eq, Et in H. simpl in H.
    by destruct H as (? & ? & ? & _).
  - intros Hne.
    destruct (default [] (heap s !! q)), (default [] (heap s !! t));
      simpl in H; try by destruct H as (? & ? & _).
    by destruct Hne.
Qed.

Lemma monitor_all_starts_iff_destinations_witness :
  monitor_running (monitor_all alerts_only 10 11 with_argument_lists).2 = true ∧
  threads_started (monitor_all alerts_only 10 11 with_argument_lists).2 = 1.
Proof.
  assert (H10 : 10 ∈ dom (heap with_argument_lists))
    by (apply elem_of_dom; eexists; vm_compute; reflexivity).
  assert (H11 : 11 ∈ dom (heap with_argument_lists))
    by (apply elem_of_dom; eexists; vm_compute; reflexivity).
  destruct (monitor_all_starts_iff_destinations alerts_only 10 11
              with_argument_lists H10 H11)
    as (s' & E & _ & _ & _ & _ & _ & _ & H).
  rewrite E. simpl. apply H. left. vm_compute. discriminate.
Defined.

(** X5: listener set-up in [monitor_all] is per topic.  On a connected
    object the consumer table afterwards has an entry for a topic exactly
    when the topic was asked for and the broker granted its listener: a
    topic whose listener cannot be created is left out and does not keep
    the others from being set up.  On an object that is not connected no
    listener is set up at all. *)
Theorem monitor_all_listeners_isolated envs q t s :
  q ∈ dom (heap s) → t ∈ dom (heap s) →
  let s' := (monitor_all envs q t s).2 in
  (is_connected s = true →
     ∀ name, topic_key name ∈ dom (topic_consumers s') ↔
             name ∈ default [] (heap s !! t) ∧ granted (envs name) = true) ∧
  (is_connected s = false → topic_consumers s' = ∅).
Proof.
  intros Hq Ht. simpl.
  destruct (monitor_all_full envs q t s) as (s' & -> & _ & _ & _ & H).
  rewrite !stop_keeps_objects in H by done. simpl.
  destruct (is_nil (default [] (heap s !! q)) &&
            is_nil (default [] (heap s !! t))) eqn:Hnil.
  - destruct H as (_ & _ & -> & _).
    apply andb_true_iff in Hnil as [_ Hn].
    destruct (default [] (heap s !! t)); [|done].
    split; [|done]. intros _ name. rewrite dom_empty_L. split.
    + intros H. by apply not_elem_of_empty in H.
    + intros [H _]. by apply elem_of_nil in H.
  - destruct H as (_ & _ & Hd). split.
    + intros Hc name. rewrite Hd, Hc.
      rewrite elem_of_list_to_set, list_elem_of_fmap. split.
      * intros (t0 & Hk & Hin). apply topic_key_inj in Hk as <-.
        by apply list_elem_of_filter in Hin as [? ?].
      * intros [Hin Hg]. exists name. split; [done|].
        by apply list_elem_of_filter.
    + intros Hc. rewrite Hc in Hd. by apply dom_empty_inv_L in Hd.
Qed.

Lemma monitor_all_listeners_isolated_witness :
  topic_key "alerts" ∈
    dom (topic_consumers (monitor_all alerts_only 10 11
                            with_argument_lists).2) ∧
  topic_key "news" ∉
    dom (topic_consumers (monitor_all alerts_only 10 11
                            with_argument_lists).2).
Proof.
  assert (H10 : 10 ∈ dom (heap with_argument_lists))
    by (apply elem_of_dom; eexists; vm_compute; reflexivity).
  assert (H11 : 11 ∈ dom (heap with_argument_lists))
    by (apply elem_of_dom; eexists; vm_compute; reflexivity).
  destruct (monitor_all_listeners_isolated alerts_only 10 11
              with_argument_lists H10 H11) as (H & _).
  specialize (H eq_refl). split.
  - apply H. split; [|reflexivity].
    vm_compute. apply list_elem_of_further, list_elem_of_here.
  - intros Hin. apply H in Hin as [_ Hg]. vm_compute in Hg. discriminate Hg.
Defined.

(** ** Discovery, further *)

Section SettlesWith.
Context {A B : Type}.

Lemma settles_with_ret (P : A → Prop) (a : A) :
  P a → settles_with P (py_ret a).
Proof.
  intros H. exists a. split; [done|]. intros s. exists [].
  by rewrite add_events_nil.
Qed.

Lemma settles_with_bind (P : A → Prop) (Q : B → Prop) (m : Py A)
    (k : A → Py B) :
  settles_with P m → (∀ a, P a → settles_with Q (k a)) →
  settles_with Q (py_bind m k).
Proof.
  intros (a & Ha & Hm) Hk. destruct (Hk a Ha) as (v & Hv & Hr).
  exists v. split; [done|]. intros s.
  destruct (Hm s) as [evs Hs]. unfold py_bind. rewrite Hs.
  destruct (Hr (add_events evs s)) as [evs' ->].
  rewrite add_events_app. by eexists.
Qed.

Lemma settles_with_any (m : Py A) : settles m → settles_with (fun _ => True) m.
Proof. intros [v H]. by exists v. Qed.
End SettlesWith.

Lemma settles_with_emit_then {B} (Q : B → Prop) sg (k : Py B) :
  settles_with Q k → settles_with Q (py_bind (emit sg) (fun _ => k)).
Proof.
  intros H. eapply settles_with_bind; [|intros a _; exact H].
  apply settles_with_any, settles_emit.
Qed.

Lemma NoDup_snoc_new (l : list string) x : NoDup l → x ∉ l → NoDup (l ++ [x]).
Proof.
  intros Hl Hx. apply NoDup_app. split; [done|]. split.
  - intros y Hy Hin. apply list_elem_of_singleton in Hin. by subst.
  - apply NoDup_singleton.
Qed.

Lemma collect_queues_clean all_queues queues :
  NoDup queues →
  settles_with (fun v => NoDup v.1) (collect_queues all_queues queues).
Proof.
  revert queues. induction all_queues as [|queue rest IH]; intros queues Hn;
    simpl; [by apply settles_with_ret|].
  destruct (hasattr_getQueueName queue); [|by apply IH].
  destruct (getQueueName queue) as [name|e]; [|by apply settles_with_ret].
  case_bool_decide; [by apply IH|].
  apply settles_with_emit_then, IH. by apply NoDup_snoc_new.
Qed.

Lemma collect_topics_clean all_topics topics :
  NoDup topics → Forall (fun t => advisory t = false) topics →
  settles_with (fun v => NoDup v ∧ Forall (fun t => advisory t = false) v)
    (collect_topics all_topics topics).
Proof.
  revert topics. induction all_topics as [|topic rest IH];
    intros topics Hn Ha; simpl; [by apply settles_with_ret|].
  case_bool_decide; simpl; [by apply IH|].
  destruct (advisory topic) eqn:Hadv; [by apply IH|].
  apply settles_with_emit_then, IH; [by apply NoDup_snoc_new|].
  apply Forall_app. split; [done|]. by apply Forall_singleton.
Qed.

Lemma drain_clean topic env range names :
  NoDup names →
  Forall (fun t => topic = true → advisory t = false) names →
  settles_with
    (fun v => NoDup v.1 ∧
              Forall (fun t => topic = true → advisory t = false) v.1)
    (drain topic env range names).
Proof.
  revert names. induction range as [|i rest IH]; intros names Hn Ha;
    simpl; [by apply settles_with_ret|].
  eapply settles_with_bind;
    [apply settles_with_any, settles_attempt, traces_call|].
  intros [[msg|]|e] _; [|by apply IH|by apply settles_with_ret].
  destruct (hasattr_getStringProperty msg); [|by apply IH].
  destruct (destinationName msg) as [[name|]|]; try by apply IH.
  destruct (negb (String.eqb name "")); simpl; [|by apply IH].
  case_bool_decide; simpl; [by apply IH|].
  destruct (negb (topic && advisory name)) eqn:Hadv; [|by apply IH].
  apply settles_with_emit_then, IH; [by apply NoDup_snoc_new|].
  apply Forall_app. split; [done|]. apply Forall_singleton.
  intros ->. simpl in Hadv. by apply negb_true_iff in Hadv.
Qed.

Lemma clean_nil : clean ([], []).
Proof. repeat split; simpl; try apply NoDup_nil_2. apply Forall_nil_2. Qed.

Lemma clean_queues queues : NoDup queues → clean (queues, []).
Proof.
  intros H. split; [done|]. split; [apply NoDup_nil_2|apply Forall_nil_2].
Qed.

Lemma destination_source_clean env :
  settles_with clean (destination_source env).
Proof.
  unfold destination_source.
  destruct (hasattr_getDestinationSource env);
    [|apply settles_with_ret, clean_nil].
  eapply settles_with_bind;
    [apply settles_with_any, settles_attempt, traces_call|].
  intros [?|e] _;
    [|apply settles_with_emit_then, settles_with_ret, clean_nil].
  eapply settles_with_bind; [apply collect_queues_clean, NoDup_nil_2|].
  intros [queues [?|e]] Hq; cbn [fst snd] in *.
  - eapply settles_with_bind;
      [apply collect_topics_clean; [apply NoDup_nil_2|apply Forall_nil_2]|].
    intros topics [Hn Ha].
    eapply settles_with_bind;
      [apply settles_with_any, settles_when, settles_emit|].
    intros _ _. by apply settles_with_ret.
  - by apply settles_with_emit_then, settles_with_ret, clean_queues.
Qed.

Lemma advisory_discovery_clean env :
  settles_with clean (advisory_discovery env).
Proof.
  unfold advisory_discovery.
  eapply settles_with_bind; [apply settles_with_any; settle|].
  intros [?|e] _;
    [|apply settles_with_emit_then, settles_with_ret, clean_nil].
  eapply settles_with_bind;
    [apply (drain_clean false); [apply NoDup_nil_2|apply Forall_nil_2]|].
  intros [queues [?|e]] [Hq _]; cbn [fst snd] in *.
  2:{ by apply settles_with_emit_then, settles_with_ret, clean_queues. }
  eapply settles_with_bind; [apply settles_with_any; settle|].
  intros [?|e] _.
  2:{ by apply settles_with_emit_then, settles_with_ret, clean_queues. }
  eapply settles_with_bind;
    [apply (drain_clean true); [apply NoDup_nil_2|apply Forall_nil_2]|].
  assert (Hc : ∀ topics,
    NoDup topics → Forall (fun t => true = true → advisory t = false) topics →
    clean (queues, topics)).
  { intros topics Hn Ha. repeat split; simpl; try done.
    eapply Forall_impl; [exact Ha|]. simpl. auto. }
  intros [topics [?|e]] [Hn Ha]; cbn [fst snd] in *.
  2:{ apply settles_with_emit_then, settles_with_ret. by apply Hc. }
  eapply settles_with_bind; [apply settles_with_any; settle|].
  intros [?|e] _.
  - apply settles_with_ret. by apply Hc.
  - apply settles_with_emit_then, settles_with_ret. by apply Hc.
Qed.

Lemma found_clean env : clean (found env).
Proof.
  assert (H : settles_with clean (strategies env)).
  { unfold strategies.
    eapply settles_with_bind; [apply destination_source_clean|].
    intros v Hv. destruct (_ && _); [apply advisory_discovery_clean|].
    by apply settles_with_ret. }
  destruct H as (v & Hv & Hr). unfold found.
  destruct (Hr init) as [evs ->]. done.
Qed.

Lemma last_good_found ds v :
  last_good ds = Some v → ∃ d, d ∈ ds ∧ v = found (broker_then d).
Proof.
  induction ds as [|d rest IH]; simpl; [done|].
  destruct (last_good rest) as [w|].
  - intros; simplify_eq. destruct (IH eq_refl) as (d' & ? & ?).
    exists d'. split; [by right|done].
  - destruct (good d); [|done]. intros; simplify_eq.
    exists d. split; [by left|done].
Qed.

(** X6: what discovery reports is clean.  Whatever the broker lists and
    however often, the queues and the topics the two strategies yield
    contain no name twice, and no topic with the advisory prefix; and over
    every sequence of [get_destinations] calls on an object that starts
    without cached destinations, every call returns such a listing, also
    when it serves the cached one. *)
Theorem discovery_reports_clean_lists s0 ds d :
  _cached_queues s0 = None → _cached_topics s0 = None →
  clean (found (broker_then d)) ∧
  ∃ v, (discover d (discover_all ds s0)).1 = Ok v ∧ clean v.
Proof.
  intros Hq Ht. split; [apply found_clean|].
  destruct (discover_run d (discover_all ds s0)) as [-> _].
  eexists. split; [done|].
  pose proof (cached_last_good s0 ds Hq Ht) as Hinv. simpl in Hinv.
  unfold served. destruct (connected_then d); [|apply clean_nil].
  destruct (nothing _); [|apply found_clean].
  destruct (last_good ds) as [v|] eqn:Hg.
  - destruct Hinv as [E1 E2]. rewrite E1, E2.
    apply last_good_found in Hg as (d' & _ & ->).
    pose proof (found_clean (broker_then d')) as Hc.
    by destruct (found (broker_then d')).
  - destruct Hinv as [[E1 E2]|[E1 E2]]; rewrite E1, ?E2; apply clean_nil.
Qed.

Lemma discovery_reports_clean_lists_witness :
  clean (found noisy_broker) ∧
  ∃ v, (discover (while_connected noisy_broker) (discover_all [] init)).1 =
         Ok v ∧ clean v.
Proof.
  apply (discovery_reports_clean_lists init [] (while_connected noisy_broker));
    reflexivity.
Defined.

Example noisy_broker_found :
  found noisy_broker = (["orders"], ["alerts"]).
Proof. vm_compute. reflexivity. Qed.

(** ** Browsing, further *)

Ltac quiet_events :=
  repeat first [ apply Forall_nil_2 | apply Forall_cons_2; [reflexivity|] ].

Ltac browse_leaf :=
  repeat match goal with
         | H : ?x = (_, _) |- context [?x] => rewrite H
         end;
  simpl; rewrite ?add_events_app; simpl;
  match goal with
  | |- ∃ quiet, (_, add_events ?l _) = (_, add_events (quiet ++ []) _) ∧ _ =>
      exists l; split; [by rewrite app_nil_r|quiet_events]
  | |- ∃ quiet, (_, add_events ?l _) = (_, add_events (quiet ++ [_]) _) ∧ _ =>
      exists (removelast l); split; [reflexivity|simpl; quiet_events]
  end.

(** The signals and calls of a browse: everything before the closing
    broadcast is something else than a broadcast. *)
Lemma browse_queue_events env q u a f s :
  ∃ quiet,
    browse_queue env q u a f s =
      (Ok (browse_messages (is_connected s) env q f),
       add_events
         (quiet ++
          if u && scan_completes (is_connected s) env f
          then [Emit (update_messages_signal
                        (browse_messages (is_connected s) env q f))]
          else []) s) ∧
    Forall (fun ev => is_broadcast ev = false) quiet.
Proof.
  unfold browse_queue, browse_messages, scan_completes, is_connected,
    opened_browser.
  py_unfold. unfold mbind, result_bind.
  destruct (connection s), (session s); simpl;
    rewrite ?andb_false_r; try browse_leaf.
  destruct (createQueue env); simpl; [|rewrite andb_false_r; browse_leaf].
  destruct u; simpl;
    (destruct f; simpl;
     repeat (first
       [ browse_leaf
       | progress simplify_eq
       | match goal with
         | |- context [scan q ?steps [] 0] =>
             let H := fresh in
             pose proof (scan_outcome q steps [] 0) as H;
             destruct (scan q steps [] 0) as [[? ?]|?]; rewrite H; clear H;
             simpl
         end
       | case_match; simplify_eq/= ])).
Qed.

(** X7: [browse_queue] reads without touching the object: all it changes
    is the trace.  It emits the "messages updated" signal at most once, as
    the last thing it does and carrying exactly the list it returns, and it
    does so exactly when [update_ui] is set and the browse opened its
    cursor and read it to the end of the loop; a browse that is not
    connected, that fails before the scan, or whose loop test
    [hasMoreElements()] raises during the scan, emits no such signal. *)
Theorem browse_queue_broadcasts_what_it_returns env q u a f s :
  ∃ messages quiet,
    browse_queue env q u a f s =
      (Ok messages,
       add_events
         (quiet ++
          if u && scan_completes (is_connected s) env f
          then [Emit (update_messages_signal messages)] else []) s) ∧
    Forall (fun ev => is_broadcast ev = false) quiet.
Proof.
  destruct (browse_queue_events env q u a f s) as (quiet & E & Hq).
  by exists (browse_messages (is_connected s) env q f), quiet.
Qed.

Lemma read_properties_spec message names props p :
  read_properties message names props = Ok p →
  ∃ ns, names = Ok <$> ns ∧
    ∀ k, p !! k = if bool_decide (k ∈ ns)
                  then ok (getStringProperty message k) else props !! k.
Proof.
  revert props. induction names as [|[n|e] rest IH]; intros props; simpl.
  - intros; simplify_eq. exists []. split; [done|]. intros k.
    by rewrite bool_decide_false by apply not_elem_of_nil.
  - destruct (getStringProperty message n) as [v|e] eqn:Hv; [|done].
    intros H. destruct (IH _ H) as (ns & -> & Hp).
    exists (n :: ns). split; [done|]. intros k. rewrite Hp.
    destruct (decide (k = n)) as [->|Hne].
    + rewrite (bool_decide_true (n ∈ n :: ns)) by by left.
      case_bool_decide; [done|]. by rewrite lookup_insert_eq, Hv.
    + rewrite lookup_insert_ne by done.
      case_bool_decide as H1; case_bool_decide as H2; try done.
      * destruct H2. by right.
      * apply elem_of_cons in H2 as [?|?]; done.
  - done.
Qed.

Lemma extract_message_fields q message r :
  extract_message q message = Ok r →
  msg_type r = "queue" ∧ msg_destination r = q ∧
  getJMSMessageID message = Ok (msg_id r) ∧
  getJMSTimestamp message = Ok (msg_timestamp r) ∧
  ∃ names, getPropertyNames message = Ok (Ok <$> names) ∧
    ∀ k, msg_properties r !! k =
         if bool_decide (k ∈ names)
         then ok (getStringProperty message k) else None.
Proof.
  unfold extract_message, mbind, result_bind. intros H.
  destruct (getJMSMessageID message); [|done].
  destruct (getPropertyNames message) as [names|]; [|done].
  destruct (read_properties message names ∅) as [p|] eqn:Hp; [|done].
  destruct (simple_body message); [|done].
  destruct (getJMSTimestamp message); [|done].
  simplify_eq/=. repeat split.
  apply read_properties_spec in Hp as (ns & -> & Hp).
  exists ns. split; [done|]. intros k. rewrite Hp.
  by rewrite lookup_empty.
Qed.

(** X8: every record that [browse_queue] returns for queue [q] is the
    record of one message its cursor delivered: its type is "queue", its
    destination is [q], its id and timestamp are those of the message, and
    its properties map has exactly the property names the message
    enumerates, each with the string value of that property (a name
    enumerated twice counts once). *)
Theorem browse_records_mirror_messages env q u a f s messages r :
  (browse_queue env q u a f s).1 = Ok messages → r ∈ messages →
  msg_type r = "queue" ∧ msg_destination r = q ∧
  ∃ browser steps message,
    opened_browser env f = Ok browser ∧
    getEnumeration browser = Ok steps ∧
    message ∈ delivered steps ∧
    getJMSMessageID message = Ok (msg_id r) ∧
    getJMSTimestamp message = Ok (msg_timestamp r) ∧
    ∃ names, getPropertyNames message = Ok (Ok <$> names) ∧
      ∀ k, msg_properties r !! k =
           if bool_decide (k ∈ names)
           then ok (getStringProperty message k) else None.
Proof.
  rewrite browse_queue_value. intros H Hin. simplify_eq.
  unfold browse_messages in Hin.
  destruct (is_connected s); [|by apply elem_of_nil in Hin].
  destruct (opened_browser env f) as [browser|] eqn:Hb; simpl in Hin;
    [|by apply elem_of_nil in Hin].
  destruct (getEnumeration browser) as [steps|] eqn:Hs;
    [|by apply elem_of_nil in Hin].
  destruct (scan q steps [] 0) as [scanned|] eqn:Hscan;
    [|by apply elem_of_nil in Hin].
  rewrite (scan_messages _ _ _ _ _ Hscan) in Hin. simpl in Hin.
  apply list_elem_of_omap in Hin as (message & Hd & Hm).
  assert (He : extract_message q message = Ok r)
    by by destruct (extract_message q message); simplify_eq/=.
  apply extract_message_fields in He as (Ht & Hdst & Hi & Hts & Hp).
  split; [done|]. split; [done|].
  exists browser, steps, message. by repeat (split; [done|]).
Qed.

Lemma browse_records_mirror_messages_witness :
  msg_type (text_record "orders" "ID:4" "d") = "queue" ∧
  msg_destination (text_record "orders" "ID:4" "d") = "orders".
Proof.
  destruct (browse_records_mirror_messages
              (sample_browse_env (delivering five_messages)) "orders"
              false true true connected
              [text_record "orders" "ID:1" "a"; text_record "orders" "ID:2" "b";
               text_record "orders" "ID:4" "d"; text_record "orders" "ID:5" "e"]
              (text_record "orders" "ID:4" "d"))
    as (Ht & Hd & _).
  - reflexivity.
  - do 2 apply list_elem_of_further. apply list_elem_of_here.
  - auto.
Defined.

Example tagged_message_properties :
  msg_properties <$> ok (extract_message "orders" tagged_message) =
  Some {[ "region" := "eu"; "priority" := "7" ]}.
Proof. vm_compute. reflexivity. Qed.

(** ** Topic callback, further *)

Lemma elem_of_concat {A} (x : A) (ls : list (list A)) :
  x ∈ concat ls ↔ ∃ l, l ∈ ls ∧ x ∈ l.
Proof.
  induction ls as [|l0 ls IH]; simpl.
  - split; [by intros H%elem_of_nil|by intros (l & H%elem_of_nil & _)].
  - rewrite elem_of_app, IH. split.
    + intros [H|(l & H1 & H2)]; [exists l0|exists l]; split; try done;
        [by left|by right].
    + intros (l & [->|H1]%elem_of_cons & H2); [by left|right; eauto].
Qed.

Lemma elem_of_all_cached cache r :
  r ∈ all_cached cache ↔ ∃ key l, cache !! key = Some l ∧ r ∈ l.
Proof.
  unfold all_cached. rewrite elem_of_concat. split.
  - intros (l & Hl & Hr). apply list_elem_of_fmap in Hl as ([key l'] & -> & H).
    apply elem_of_map_to_list in H. eauto.
  - intros (key & l & Hk & Hr). exists l. split; [|done].
    apply list_elem_of_fmap. exists (key, l). split; [done|].
    by apply elem_of_map_to_list.
Qed.

(** X9: a topic arrival is broadcast with the whole cache.  A callback
    whose message id and timestamp can be read ends by emitting one
    "messages updated" signal that carries every message of the cache as it
    is after the append: the new record and every message cached before,
    of that topic and of every other destination.  A callback with a null
    message does nothing at all. *)
Theorem topic_callback_broadcasts_cache message topic s :
  _on_topic_message None topic s = (Ok tt, s) ∧
  (∀ i t, getJMSMessageID message = Ok i → getJMSTimestamp message = Ok t →
     let s' := (_on_topic_message (Some message) topic s).2 in
     (∃ line1 line2,
        trace s' =
          trace s ++
          [Emit (log_signal line1); Emit (log_signal line2);
           Emit (update_messages_signal (all_cached (message_cache s')))]) ∧
     message_info i (topic_body message) topic t ∈
       all_cached (message_cache s') ∧
     (∀ key l r, message_cache s !! key = Some l → r ∈ l →
        r ∈ all_cached (message_cache s'))).
Proof.
  split; [done|]. intros i t Hi Ht. simpl.
  pose proof (on_topic_message_cache message topic s) as Hc.
  rewrite Hi, Ht in Hc.
  assert (Hnew : message_info i (topic_body message) topic t ∈
                 all_cached (message_cache
                               (_on_topic_message (Some message) topic s).2)).
  { rewrite Hc. apply elem_of_all_cached.
    eexists _, _. rewrite lookup_insert_eq. split; [done|].
    apply elem_of_app. right. apply list_elem_of_here. }
  split; [|split; [done|]].
  - revert Hnew Hc. unfold _on_topic_message. py_unfold. rewrite Hi. simpl.
    rewrite Ht. simpl. intros Hnew Hc.
    destruct (is_nil (all_cached _)) eqn:Hn; simpl in *.
    + revert Hnew. destruct (all_cached _); [|done].
      by intros H%elem_of_nil.
    + eexists _, _. by rewrite <- !app_assoc.
  - intros key l r Hk Hr. rewrite Hc. apply elem_of_all_cached.
    destruct (decide (key = topic_key topic)) as [->|Hne].
    + eexists _, _. rewrite lookup_insert_eq. split; [done|].
      unfold topic_entry. rewrite Hk. simpl. apply elem_of_app. by left.
    + exists key, l. by rewrite lookup_insert_ne.
Qed.

Lemma topic_callback_broadcasts_cache_witness :
  message_info "ID:9" (topic_body grouped_map_message) "alerts"
    1700000000000%Z ∈
  all_cached (message_cache
                (_on_topic_message (Some grouped_map_message) "alerts"
                   alerts_cached).2).
Proof.
  destruct (topic_callback_broadcasts_cache grouped_map_message "alerts"
              alerts_cached) as (_ & H).
  destruct (H "ID:9" 1700000000000%Z eq_refl eq_refl) as (_ & Hnew & _).
  exact Hnew.
Defined.

(** ** The poll loop, further *)

Section Quietly.
Context {A B : Type}.

Lemma quietly_ret (a : A) : quietly (py_ret a).
Proof. intros s. exists []. by rewrite app_nil_r. Qed.

Lemma quietly_gets (g : JVMThread → A) : quietly (gets g).
Proof. intros s. exists []. by rewrite app_nil_r. Qed.

Lemma quietly_bind (m : Py A) (k : A → Py B) :
  quietly m → (∀ a, quietly (k a)) → quietly (py_bind m k).
Proof.
  intros Hm Hk s. unfold py_bind. destruct (Hm s) as (q1 & E1 & F1).
  destruct (m s) as [[a|e] s1]; simpl in *; [|by eauto].
  destruct (Hk a s1) as (q2 & E2 & F2). exists (q1 ++ q2).
  rewrite E2, E1, app_assoc. split; [done|]. by apply Forall_app.
Qed.

Lemma quietly_try (m : Py A) (h : string → Py A) :
  quietly m → (∀ e, quietly (h e)) → quietly (try_except m h).
Proof.
  intros Hm Hh s. unfold try_except. destruct (Hm s) as (q1 & E1 & F1).
  destruct (m s) as [[a|e] s1]; simpl in *; [by eauto|].
  destruct (Hh e s1) as (q2 & E2 & F2). exists (q1 ++ q2).
  rewrite E2, E1, app_assoc. split; [done|]. by apply Forall_app.
Qed.

Lemma quietly_attempt (m : Py A) : quietly m → quietly (attempt m).
Proof.
  intros Hm s. unfold attempt. destruct (Hm s) as (q1 & E1 & F1).
  destruct (m s) as [r s1]. by eauto.
Qed.
End Quietly.

Lemma quietly_modify g : (∀ s, trace (g s) = trace s) → quietly (modify g).
Proof. intros H s. exists []. simpl. by rewrite H, app_nil_r. Qed.

Lemma quietly_log text : quietly (emit (log_signal text)).
Proof. intros s. exists [Emit (log_signal text)]. split; [done|]. quiet_events. Qed.

Lemma quietly_error text : quietly (emit (error_signal text)).
Proof.
  intros s. exists [Emit (error_signal text)]. split; [done|]. quiet_events.
Qed.

Lemma quietly_browse env q a f : quietly (browse_queue env q false a f).
Proof.
  intros s. destruct (browse_queue_events env q false a f s) as (quiet & -> & H).
  exists quiet. simpl. by rewrite app_nil_r.
Qed.

Lemma quietly_poll_queue env now q st : quietly (poll_queue env now q st).
Proof.
  unfold poll_queue. case_bool_decide; [apply quietly_ret|].
  apply quietly_try.
  - apply quietly_bind; [apply quietly_browse|]. intros messages.
    destruct (is_nil messages); [apply quietly_ret|].
    apply quietly_bind; [|intros d; apply quietly_ret].
    destruct (last_message_ids st.1 !! q); [|apply quietly_ret].
    case_bool_decide; [|apply quietly_ret].
    apply quietly_bind; [apply quietly_log|intros _].
    apply quietly_bind; [apply quietly_gets|intros cache].
    apply quietly_bind; [by apply quietly_modify|intros _].
    apply quietly_ret.
  - intros e. apply quietly_bind; [apply quietly_error|intros _].
    apply quietly_ret.
Qed.

Lemma quietly_poll_queues envs now queues st :
  quietly (poll_queues envs now queues st).
Proof.
  revert st. induction queues as [|q rest IH]; intros st; simpl;
    [apply quietly_ret|].
  apply quietly_bind; [apply quietly_poll_queue|]. intros st'. apply IH.
Qed.

Lemma polled_quiet now q messages locals cache :
  due now locals q && has_new_ids locals q messages = false →
  (polled now q messages locals cache).2 = cache.
Proof.
  unfold polled. destruct (due now locals q); simpl; [|done].
  by intros ->.
Qed.

Lemma polled_view_due now q0 q messages locals cache :
  due now locals q0 = true →
  due now (polled now q0 messages locals cache).1 q =
    if decide (q = q0) then false else due now locals q.
Proof.
  intros Hd. case_decide as Hq.
  - subst. destruct (polled_due now q0 messages locals cache Hd) as (H & _).
    by apply not_due_again.
  - apply due_ext.
    by destruct (polled_other now q q0 messages locals cache) as (H & _).
Qed.

(** A pass in which no due queue brings new ids leaves the cache and the
    flag alone. *)
Lemma poll_queues_silent envs now queues st s :
  (∀ q, q ∈ queues → due now st.1 q = true →
     has_new_ids st.1 q (browse_messages (is_connected s) (envs q) q true)
       = false) →
  ∃ locals' s', poll_queues envs now queues st s = (Ok (locals', st.2), s') ∧
    message_cache s' = message_cache s.
Proof.
  revert st s. induction queues as [|q0 rest IH]; intros st s Hq; simpl.
  { unfold py_ret. destruct st. by eauto. }
  unfold py_bind.
  destruct (poll_queue_run (envs q0) now q0 st s) as (s1 & -> & Hc & Hconn).
  set (messages := browse_messages (is_connected s) (envs q0) q0 true) in *.
  assert (Hs : due now st.1 q0 && has_new_ids st.1 q0 messages = false).
  { destruct (due now st.1 q0) eqn:Hd; [|done]. simpl.
    apply Hq; [by left|done]. }
  rewrite Hs, orb_false_r. rewrite (polled_quiet _ _ _ _ _ Hs) in Hc.
  destruct (IH ((polled now q0 messages st.1 (message_cache s)).1, st.2) s1)
    as (locals' & s' & -> & Hc').
  - intros q Hin Hd. simpl in *. rewrite Hconn.
    destruct (due now st.1 q0) eqn:Hd0.
    + rewrite polled_view_due in Hd by done. case_decide; [done|].
      destruct (polled_other now q q0 messages st.1 (message_cache s))
        as (_ & P2 & _); [done|].
      rewrite (has_new_ids_ext q _ st.1 _ P2). apply Hq; [by right|done].
    + unfold polled in *. rewrite Hd0 in *. simpl in *.
      apply Hq; [by right|done].
  - exists locals', s'. simpl. by rewrite Hc', Hc.
Qed.

(** The flag of a pass only ever goes up, and a due queue with new ids
    raises it. *)
Lemma poll_queues_flag_up envs now queues st s :
  st.2 = true →
  ∃ locals' s', poll_queues envs now queues st s = (Ok (locals', true), s').
Proof.
  revert st s. induction queues as [|q0 rest IH]; intros st s Hf; simpl.
  { unfold py_ret. destruct st; simpl in *; subst. by eauto. }
  unfold py_bind.
  destruct (poll_queue_run (envs q0) now q0 st s) as (s1 & -> & _).
  rewrite Hf. simpl. by apply IH.
Qed.

Lemma poll_queues_detects envs now queues st s q :
  q ∈ queues → due now st.1 q = true →
  has_new_ids st.1 q (browse_messages (is_connected s) (envs q) q true)
    = true →
  ∃ locals' s', poll_queues envs now queues st s = (Ok (locals', true), s').
Proof.
  revert st s. induction queues as [|q0 rest IH]; intros st s Hin Hd Hn;
    simpl; [by apply elem_of_nil in Hin|].
  unfold py_bind.
  destruct (poll_queue_run (envs q0) now q0 st s) as (s1 & -> & _ & Hconn).
  destruct (decide (q0 = q)) as [->|Hne].
  - rewrite Hd, Hn, orb_true_r. by apply poll_queues_flag_up.
  - apply elem_of_cons in Hin as [->|Hin]; [done|].
    destruct (polled_other now q q0
                (browse_messages (is_connected s) (envs q0) q0 true)
                st.1 (message_cache s) Hne) as (P1 & P2 & _).
    apply IH; simpl; [done| |].
    + by rewrite (due_ext now q _ st.1 P1).
    + by rewrite Hconn, (has_new_ids_ext q _ st.1 _ P2).
Qed.

(** X10: an iteration of the poll loop broadcasts only on new ids.  If no
    monitored queue that is due brings an id that was not tracked for it,
    the iteration leaves the cache as it is and emits no "messages updated"
    signal.  If a monitored queue that is due does bring such an id, the
    iteration ends by emitting one "messages updated" signal carrying the
    whole cache, which then holds in particular everything the browse of
    that queue returned. *)
Theorem tick_broadcasts_only_on_new_ids envs now locals s :
  let s' := (monitor_tick envs now locals s).2 in
  ((∀ q, q ∈ queues_of s → due now locals q = true →
      has_new_ids locals q
        (browse_messages (is_connected s) (envs q) q true) = false) →
   message_cache s' = message_cache s ∧
   ∃ quiet, trace s' = trace s ++ quiet ∧
            Forall (fun ev => is_broadcast ev = false) quiet) ∧
  (∀ q, q ∈ queues_of s → due now locals q = true →
     has_new_ids locals q
       (browse_messages (is_connected s) (envs q) q true) = true →
     (∃ quiet, trace s' =
                 trace s ++ quiet ++
                 [Emit (update_messages_signal
                          (all_cached (message_cache s')))] ∧
               Forall (fun ev => is_broadcast ev = false) quiet) ∧
     ∀ r, r ∈ browse_messages (is_connected s) (envs q) q true →
          r ∈ all_cached (message_cache s')).
Proof.
  simpl. unfold monitor_tick, deref. py_unfold. simpl.
  fold (queues_of s).
  destruct (quietly_poll_queues envs now (queues_of s) (locals, false) s)
    as (quiet & Etr & Hquiet).
  split.
  - intros Hq.
    destruct (poll_queues_silent envs now (queues_of s) (locals, false) s Hq)
      as (locals' & s' & E & Hc).
    rewrite E in *. simpl in *. split; [done|]. by exists quiet.
  - intros q Hin Hd Hn.
    destruct (poll_queues_detects envs now (queues_of s) (locals, false) s q
                Hin Hd Hn) as (locals' & s' & E).
    destruct (poll_queues_polls envs now q (queues_of s) (locals, false) s
                Hin Hd) as (st'' & s'' & E' & _ & Hc).
    rewrite E in E'. simplify_eq. rewrite E in *. simpl in *.
    rewrite Hn in Hc.
    assert (Hall : ∀ r,
      r ∈ browse_messages (is_connected s) (envs q) q true →
      r ∈ all_cached (message_cache s'')).
    { intros r Hr. apply elem_of_all_cached. eauto. }
    assert (Hne : is_nil (all_cached (message_cache s'')) = false).
    { apply has_new_ids_spec in Hn as [Hn _].
      destruct (browse_messages _ _ _ _) as [|r0 l]; [done|].
      specialize (Hall r0 ltac:(by left)).
      by destruct (all_cached _); [apply elem_of_nil in Hall|]. }
    rewrite Hne. simpl. split; [|done].
    exists quiet. by rewrite Etr, <- app_assoc.
Qed.

Lemma tick_broadcasts_only_on_new_ids_witness :
  message_cache (monitor_tick drained 1500%Z orders_locals
                   orders_watched.2).2 = message_cache orders_watched.2.
Proof.
  destruct (tick_broadcasts_only_on_new_ids drained 1500%Z orders_locals
              orders_watched.2) as (H & _).
  apply H. intros q Hin Hd. reflexivity.
Defined.

(** The first loop of the initial pass, run. *)
Lemma initial_browse_run envs queues all_messages s :
  ∃ s' found, initial_browse envs queues all_messages s = (Ok found, s') ∧
    is_connected s' = is_connected s ∧ heap s' = heap s ∧
    monitored_queues s' = monitored_queues s ∧
    (∀ q, q ∈ queues →
       message_cache s' !! queue_key q =
         Some (browse_messages (is_connected s) (envs q) q true)) ∧
    (∀ q, q ∉ queues →
       message_cache s' !! queue_key q = message_cache s !! queue_key q).
Proof.
  revert all_messages s. induction queues as [|q0 rest IH];
    intros all_messages s; simpl.
  { unfold py_ret. eexists _, _. split; [done|]. repeat split; try done.
    intros q H. by apply elem_of_nil in H. }
  py_unfold.
  destruct (browse_queue_run (envs q0) q0 false true true s) as [evs ->].
  simpl.
  match goal with |- context [initial_browse envs rest ?l ?s1] =>
    destruct (IH l s1) as (s' & found & -> & Hc & Hh & Hm & Hin & Hout) end.
  exists s', found. split; [done|]. simpl in *.
  repeat (split; [done|]). split.
  - intros q Hq. destruct (decide (q ∈ rest)) as [Hr|Hr]; [by apply Hin|].
    apply elem_of_cons in Hq as [->|Hq]; [|done].
    rewrite Hout by done. by rewrite lookup_insert_eq.
  - intros q Hq. apply not_elem_of_cons in Hq as [Hne Hq].
    rewrite Hout by done. apply lookup_insert_ne.
    intros E. by apply queue_key_inj in E.
Qed.

(** What seeding the locals does at one queue. *)
Lemma seed_locals_spec now cache queues locals q :
  (q ∈ queues →
     last_checks (seed_locals now cache queues locals) !! q = Some now ∧
     last_message_ids (seed_locals now cache queues locals) !! q =
       Some (match cache !! queue_key q with
             | Some messages => ids messages
             | None => ∅
             end)) ∧
  (q ∉ queues →
     last_checks (seed_locals now cache queues locals) !! q =
       last_checks locals !! q ∧
     last_message_ids (seed_locals now cache queues locals) !! q =
       last_message_ids locals !! q).
Proof.
  revert locals. induction queues as [|q0 rest IH]; intros locals; simpl.
  { split; [by intros H%elem_of_nil|done]. }
  match goal with |- context [seed_locals now cache rest ?l1] =>
    destruct (IH l1) as [Hin Hout] end.
  split.
  - intros Hq. destruct (decide (q ∈ rest)) as [Hr|Hr]; [by apply Hin|].
    apply elem_of_cons in Hq as [->|Hq]; [|done].
    destruct (Hout Hr) as [E1 E2]. rewrite E1, E2. simpl.
    by rewrite !lookup_insert_eq.
  - intros Hq. apply not_elem_of_cons in Hq as [Hne Hq].
    destruct (Hout Hq) as [E1 E2]. rewrite E1, E2. simpl.
    by rewrite !lookup_insert_ne.
Qed.

(** The initial pass of the monitor thread, run. *)
Lemma monitor_initial_run envs now s :
  ∃ locals s', monitor_initial envs now s = (Ok locals, s') ∧
    is_connected s' = is_connected s ∧ queues_of s' = queues_of s ∧
    ∀ q, q ∈ queues_of s →
      message_cache s' !! queue_key q =
        Some (browse_messages (is_connected s) (envs q) q true) ∧
      last_message_ids locals !! q =
        Some (ids (browse_messages (is_connected s) (envs q) q true)) ∧
      last_checks locals !! q = Some now.
Proof.
  unfold monitor_initial, deref. py_unfold. simpl. fold (queues_of s).
  destruct (initial_browse_run envs (queues_of s) [] s)
    as (s' & found & -> & Hc & Hh & Hm & Hin & _).
  assert (Hseed : ∀ q, q ∈ queues_of s →
    message_cache s' !! queue_key q =
      Some (browse_messages (is_connected s) (envs q) q true) ∧
    last_message_ids
      (seed_locals now (message_cache s') (queues_of s)
         {| last_checks := ∅; last_message_ids := ∅ |}) !! q =
      Some (ids (browse_messages (is_connected s) (envs q) q true)) ∧
    last_checks
      (seed_locals now (message_cache s') (queues_of s)
         {| last_checks := ∅; last_message_ids := ∅ |}) !! q = Some now).
  { intros q Hq.
    destruct (seed_locals_spec now (message_cache s') (queues_of s)
                {| last_checks := ∅; last_message_ids := ∅ |} q)
      as [Hs _].
    destruct (Hs Hq) as [H1 H2]. rewrite H1, H2, (Hin q Hq). done. }
  assert (Hq : queues_of s' = queues_of s).
  { unfold queues_of. by rewrite Hh, Hm. }
  destruct (negb (is_nil found)); simpl; eexists _, _;
    (split; [done|]); simpl; repeat (split; [done|]); exact Hseed.
Qed.

(** A tick in which no queue of the list is due, run. *)
Lemma poll_queues_idle envs now queues st s :
  (∀ q, q ∈ queues → due now st.1 q = false) →
  poll_queues envs now queues st s = (Ok st, s).
Proof.
  revert st s. induction queues as [|q0 rest IH]; intros st s Hq; [done|].
  simpl. unfold py_bind, poll_queue.
  assert (Hd : due now st.1 q0 = false) by (apply Hq; by left).
  unfold due in Hd. apply negb_false_iff in Hd. rewrite Hd. unfold py_ret.
  apply IH. intros q Hin. apply Hq. by right.
Qed.

Lemma monitor_tick_idle envs now locals s :
  (∀ q, q ∈ queues_of s → due now locals q = false) →
  monitor_tick envs now locals s = (Ok locals, s).
Proof.
  intros Hq. unfold monitor_tick, deref. py_unfold. simpl.
  fold (queues_of s). by rewrite poll_queues_idle.
Qed.

Lemma difference_self_empty (X : gset string) : X ∖ X = ∅.
Proof. apply set_eq. intros x. rewrite elem_of_difference. set_solver. Qed.

(** X11: the initial pass of the monitor thread takes a snapshot of every
    monitored queue: it never raises, and afterwards the cache entry of
    each monitored queue is exactly what its browse returned (an empty list
    included), the ids tracked for the queue are the ids of that entry, and
    its last check is the time of the pass. *)
Theorem initial_pass_snapshots_every_queue envs now s :
  ∃ locals s', monitor_initial envs now s = (Ok locals, s') ∧
    ∀ q, q ∈ queues_of s →
      ∃ messages,
        (browse_queue (envs q) q false true true s).1 = Ok messages ∧
        message_cache s' !! queue_key q = Some messages ∧
        last_message_ids locals !! q = Some (ids messages) ∧
        last_checks locals !! q = Some now.
Proof.
  destruct (monitor_initial_run envs now s)
    as (locals & s' & E & _ & _ & H).
  exists locals, s'. split; [done|]. intros q Hq.
  exists (browse_messages (is_connected s) (envs q) q true).
  split; [apply browse_queue_value|]. by apply H.
Qed.

(** X12: an iteration of the poll loop in which no monitored queue is due
    does nothing: no browse, no signal, the object and the locals exactly
    as before.  That is the case for every iteration that reads the clock
    less than a second after the initial pass. *)
Theorem tick_without_due_queue_is_noop envs now locals s :
  ((∀ q, q ∈ queues_of s → due now locals q = false) →
   monitor_tick envs now locals s = (Ok locals, s)) ∧
  (∀ envs0 now0,
     (now - now0 < 1000)%Z →
     ∃ locals0 s0, monitor_initial envs0 now0 s = (Ok locals0, s0) ∧
       monitor_tick envs now locals0 s0 = (Ok locals0, s0)).
Proof.
  split; [apply monitor_tick_idle|]. intros envs0 now0 Hlt.
  destruct (monitor_initial_run envs0 now0 s)
    as (locals0 & s0 & E & _ & Hqs & H).
  exists locals0, s0. split; [done|]. apply monitor_tick_idle. intros q Hq.
  rewrite Hqs in Hq. destruct (H q Hq) as (_ & _ & Hchk).
  unfold due. rewrite Hchk. simpl.
  by rewrite bool_decide_true.
Qed.

Lemma tick_without_due_queue_is_noop_witness :
  monitor_tick drained 400%Z orders_locals orders_watched.2 =
  (Ok orders_locals, orders_watched.2).
Proof.
  destruct (tick_without_due_queue_is_noop drained 400%Z orders_locals
              orders_watched.2) as (H & _).
  apply H. intros q Hin.
  assert (q = "orders") as ->.
  { vm_compute in Hin. apply list_elem_of_singleton in Hin. exact Hin. }
  reflexivity.
Defined.

(** X13: an unchanged queue causes no churn.  After the initial pass,
    an iteration of the poll loop against a broker that answers every
    browse as it did in the initial pass leaves the cache as the initial
    pass made it and emits no "messages updated" signal, whether its
    queues are due or not. *)
Theorem unchanged_queues_stay_silent envs now0 now s :
  ∃ locals0 s0, monitor_initial envs now0 s = (Ok locals0, s0) ∧
    message_cache (monitor_tick envs now locals0 s0).2 = message_cache s0 ∧
    ∃ quiet, trace (monitor_tick envs now locals0 s0).2 = trace s0 ++ quiet ∧
             Forall (fun ev => is_broadcast ev = false) quiet.
Proof.
  destruct (monitor_initial_run envs now0 s)
    as (locals0 & s0 & E & Hc & Hqs & H).
  exists locals0, s0. split; [done|].
  unfold monitor_tick, deref. py_unfold. simpl. fold (queues_of s0).
  destruct (quietly_poll_queues envs now (queues_of s0) (locals0, false) s0)
    as (quiet & Etr & Hquiet).
  destruct (poll_queues_silent envs now (queues_of s0) (locals0, false) s0)
    as (locals' & s' & E' & Hcache).
  { simpl. intros q Hq _. rewrite Hqs in Hq.
    destruct (H q Hq) as (_ & Hids & _).
    unfold has_new_ids. rewrite Hids, Hc.
    rewrite difference_self_empty. rewrite bool_decide_false by tauto.
    apply andb_false_r. }
  rewrite E' in *. simpl in *. split; [done|]. by exists quiet.
Qed.
Lemma initial_pass_snapshots_every_queue_witness :
  message_cache orders_watched.2 !! queue_key "orders" =
  Some [text_record "orders" "ID:1" "a"].
Proof.
  destruct (initial_pass_snapshots_every_queue
              (fun _ => sample_browse_env (delivering [text_message "ID:1" "a"]))
              0%Z
              (start_each (fun _ => willing_listener) [("orders", "queue")]
                 connected))
    as (locals & s' & E & H).
  destruct (H "orders") as (messages & Hb & Hc & _).
  - vm_compute. apply list_elem_of_here.
  - unfold orders_watched. rewrite E. simpl. rewrite Hc. f_equal.
    vm_compute in Hb. by injection Hb as <-.
Defined.

(** ** Message sender *)

Lemma set_properties_run env items s :
  ∃ r evs, set_properties env items s = (r, add_events evs s) ∧
    succeeds r =
      forallb (fun kv => succeeds (setStringProperty env kv.1 kv.2)) items ∧
    Forall (fun ev => ev = Call "text_message.setStringProperty") evs.
Proof.
  revert s. induction items as [|[key value] rest IH]; intros s; simpl.
  { exists (Ok tt), []. by rewrite add_events_nil. }
  py_unfold. destruct (setStringProperty env key value) as [[]|e]; simpl.
  - destruct (IH (add_events [Call "text_message.setStringProperty"] s))
      as (r & evs & -> & Hr & Hevs).
    exists r, (Call "text_message.setStringProperty" :: evs).
    rewrite add_events_app. repeat split; [done|]. by constructor.
  - exists (Raise e), [Call "text_message.setStringProperty"].
    repeat split. by constructor.
Qed.

Lemma not_among_property_calls (ev : Event) (evs : list Event) :
  Forall (fun ev => ev = Call "text_message.setStringProperty") evs →
  ev ≠ Call "text_message.setStringProperty" → ev ∉ evs.
Proof.
  intros Hall Hne Hin. rewrite Forall_forall in Hall.
  by apply Hne, Hall.
Qed.

Ltac absent :=
  repeat first
    [ apply not_elem_of_nil
    | apply not_elem_of_cons; split; [discriminate|]
    | apply not_elem_of_app; split
    | by (eapply not_among_property_calls; [eassumption|discriminate]) ].

Ltac send_leaf :=
  rewrite ?add_events_app; simpl; eexists _, _; split; [reflexivity|].

Ltac send_fact :=
  first [ solve [intros H; exfalso; revert H; absent]
        | solve [intros; repeat split; done]
        | solve [intros; destruct_and?; discriminate]
        | solve [intros; set_solver] ].

Ltac send_facts :=
  split; [split; send_fact|];
  split; [split; send_fact|];
  split; [split; send_fact|];
  split; send_fact.

(** X14: what the answer of [send_message] says about delivery.  The
    method never raises and changes nothing of the object but the trace.
    The message is handed to the broker ([producer.send] is called) exactly
    when the object is connected and every call before succeeded: the
    destination, the producer, the text message and each property; a
    property that cannot be set keeps the message from being sent.  The
    producer is closed only after a successful send.  The answer is [True]
    exactly when, besides, the send and the close succeeded: [False] after a
    failed close still means the message was sent.  A kind other than
    'queue' is sent to a topic. *)
Theorem send_message_reports_delivery env name kind body props s :
  ∃ b evs, send_message env name kind body props s = (Ok b, add_events evs s) ∧
    (Call "producer.send" ∈ evs ↔
       is_connected s = true ∧ prepared env kind props = true) ∧
    (Call "producer.close" ∈ evs ↔
       is_connected s = true ∧ prepared env kind props = true ∧
       succeeds (producer_send env) = true) ∧
    (b = true ↔
       is_connected s = true ∧ prepared env kind props = true ∧
       succeeds (producer_send env) = true ∧
       succeeds (producer_close env) = true) ∧
    (Call "session.createQueue" ∈ evs → kind = "queue") ∧
    (Call "session.createTopic" ∈ evs → kind ≠ "queue").
Proof.
  unfold send_message, is_connected, prepared. py_unfold.
  destruct (connection s) as [c|], (session s) as [h|]; simpl;
    try (send_leaf; send_facts).
  destruct (String.eqb kind "queue") eqn:Ek; simpl.
  - apply String.eqb_eq in Ek as ->.
    destruct (send_createQueue env) as [[]|e1]; simpl;
      [|send_leaf; send_facts].
    destruct (createProducer env) as [[]|e2]; simpl;
      [|send_leaf; send_facts].
    destruct (createTextMessage env) as [[]|e3]; simpl;
      [|send_leaf; send_facts].
    match goal with |- context [set_properties env props ?s1] =>
      destruct (set_properties_run env props s1)
        as (r & pevs & -> & Hr & Hpevs) end.
    rewrite <- Hr.
    destruct r as [[]|e4]; simpl; [|send_leaf; send_facts].
    destruct (producer_send env) as [[]|e5]; simpl; [|send_leaf; send_facts].
    destruct (producer_close env) as [[]|e6]; simpl; send_leaf; send_facts.
  - assert (Hk : kind ≠ "queue").
    { intros ->. by rewrite String.eqb_refl in Ek. }
    destruct (send_createTopic env) as [[]|e1]; simpl;
      [|send_leaf; send_facts].
    destruct (createProducer env) as [[]|e2]; simpl;
      [|send_leaf; send_facts].
    destruct (createTextMessage env) as [[]|e3]; simpl;
      [|send_leaf; send_facts].
    match goal with |- context [set_properties env props ?s1] =>
      destruct (set_properties_run env props s1)
        as (r & pevs & -> & Hr & Hpevs) end.
    rewrite <- Hr.
    destruct r as [[]|e4]; simpl; [|send_leaf; send_facts].
    destruct (producer_send env) as [[]|e5]; simpl; [|send_leaf; send_facts].
    destruct (producer_close env) as [[]|e6]; simpl; send_leaf; send_facts.
Qed.
(** ** Topic subscription *)

Lemma enhanced_body_run env message :
  ∃ bt evs, (∀ s, enhanced_body env message s = (Ok bt, add_events evs s)) ∧
    Forall (fun ev => is_error ev = true) evs.
Proof.
  unfold enhanced_body. destruct (typed_body env message) as [[body|e] ty].
  - exists (body, ty), []. split; [|constructor].
    intros s. by rewrite add_events_nil.
  - py_unfold. destruct (py_str (jms message)) as [body|e'];
      eexists _, [_]; (split; [intros s; reflexivity|]);
      by repeat constructor.
Qed.

(** Building the record of a message only adds error signals to the
    trace; it succeeds exactly for a readable message. *)
Lemma topic_record_run env topic message :
  ∃ r evs, (∀ s, topic_record env topic message s = (r, add_events evs s)) ∧
    succeeds r = readable message ∧
    Forall (fun ev => is_error ev = true) evs ∧
    ∀ record, r = Ok record → record_of topic message record.
Proof.
  unfold topic_record, readable, record_of. py_unfold.
  destruct (enhanced_body_run env message) as (bt & evs & Hrun & Hevs).
  destruct (getJMSMessageID (jms message)) as [i|e]; simpl.
  2:{ exists (Raise e), []. repeat split; try done.
      intros s. by rewrite add_events_nil. }
  destruct (getPropertyNames (jms message)) as [names|e]; simpl.
  2:{ exists (Raise e), []. repeat split; try done.
      intros s. by rewrite add_events_nil. }
  destruct (read_properties (jms message) names ∅) as [props|e]; simpl.
  2:{ exists (Raise e), []. repeat split; try done.
      intros s. by rewrite add_events_nil. }
  destruct (getJMSTimestamp (jms message)) as [ts|e]; simpl.
  - eexists (Ok _), evs. split; [intros s; by rewrite Hrun|].
    split; [done|]. split; [done|]. intros record [= <-]. done.
  - exists (Raise e), evs. split; [intros s; by rewrite Hrun|].
    split; [done|]. split; [done|]. intros record [=].
Qed.

Lemma calls_app method (l1 l2 : list Event) :
  calls method (l1 ++ l2) = calls method l1 + calls method l2.
Proof. unfold calls. by rewrite List.filter_app, length_app. Qed.

Lemma calls_errors method (evs : list Event) :
  Forall (fun ev => is_error ev = true) evs → calls method evs = 0.
Proof.
  unfold calls. induction 1 as [|ev evs Hev _ IH]; [done|].
  simpl. destruct ev as [sg|m]; [done|discriminate].
Qed.

Lemma errors_quiet (evs : list Event) :
  Forall (fun ev => is_error ev = true) evs →
  Forall (fun ev => is_broadcast ev = false) evs.
Proof.
  intros H. eapply Forall_impl; [exact H|]. by intros [[]|].
Qed.

(** The loop over a topic that holds readable messages: it ends, with one
    record per message, after one more [receive] per message. *)
Lemma receive_loop_drains env topic last rest :
  ∀ fuel message i messages s,
    (∀ j message', rest !! j = Some message' →
       receive env (i + j) = Ok (Some message')) →
    receive env (i + length rest) = last →
    (∀ m, last ≠ Ok (Some m)) →
    Forall (fun m => readable m = true) (message :: rest) →
    length rest < fuel →
    ∃ records evs,
      receive_loop fuel env topic message i messages s =
        (match last with
         | Ok _ => Ok (Some (messages ++ records))
         | Raise e => Raise e
         end, add_events evs s) ∧
      Forall2 (record_of topic) (message :: rest) records ∧
      calls "consumer.receive" evs = S (length rest) ∧
      calls "consumer.close" evs = 0 ∧
      Forall (fun ev => is_broadcast ev = false) evs.
Proof.
  induction rest as [|next rest IH];
    intros fuel message i messages s Hrecv Hend Hlast Hread Hfuel;
    (destruct fuel as [|fuel]; [simpl in Hfuel; lia|]);
    apply Forall_cons in Hread as [Hm Hrest];
    destruct (topic_record_run env topic message)
      as (r & evs & Hrun & Hr & Hevs & Hrec);
    rewrite Hm in Hr; (destruct r as [record|e]; [|done]);
    simpl; py_unfold; rewrite Hrun.
  - simpl in Hend. rewrite Nat.add_0_r in Hend. rewrite Hend.
    exists [record], (evs ++ [Call "consumer.receive"]).
    rewrite add_events_app.
    split; [destruct last as [[m|]|e]; [by destruct (Hlast m)|done..]|].
    split; [repeat constructor; by apply Hrec|].
    rewrite !calls_app, (calls_errors "consumer.receive" evs Hevs),
      (calls_errors "consumer.close" evs Hevs).
    split; [done|]. split; [done|].
    apply Forall_app. split; [by apply errors_quiet|by repeat constructor].
  - assert (Hfirst := Hrecv 0 next eq_refl).
    rewrite Nat.add_0_r in Hfirst. rewrite Hfirst. simpl.
    destruct (IH fuel next (S i) (messages ++ [record])
                (add_events [Call "consumer.receive"] (add_events evs s)))
      as (records & evs' & -> & Hrecs & Hcalls & Hclose & Hquiet).
    + intros j m' Hj. rewrite Nat.add_succ_comm. by apply (Hrecv (S j)).
    + rewrite Nat.add_succ_comm. exact Hend.
    + done.
    + done.
    + simpl in Hfuel. lia.
    + exists (record :: records), (evs ++ [Call "consumer.receive"] ++ evs').
      rewrite !add_events_app, <- !app_assoc.
      split; [by destruct last|].
      split; [constructor; [by apply Hrec|done]|].
      rewrite !calls_app, (calls_errors "consumer.receive" evs Hevs),
        (calls_errors "consumer.close" evs Hevs), Hcalls, Hclose.
      split; [done|]. split; [done|].
      apply Forall_app. split; [by apply errors_quiet|].
      apply Forall_app. split; [by repeat constructor|done].
Qed.

(** The loop at or before a message that is not readable: it does not
    end, whatever the number of iterations. *)
Lemma receive_loop_stuck env topic :
  ∀ fuel k message rest bad i messages s,
    (message :: rest) !! k = Some bad → readable bad = false →
    (∀ j message', j < k → rest !! j = Some message' →
       receive env (i + j) = Ok (Some message')) →
    ∃ evs,
      receive_loop fuel env topic message i messages s =
        (Ok None, add_events evs s) ∧
      calls "consumer.close" evs = 0 ∧
      Forall (fun ev => is_broadcast ev = false) evs.
Proof.
  induction fuel as [|fuel IH];
    intros k message rest bad i messages s Hk Hbad Hrecv; simpl.
  { exists []. rewrite add_events_nil. by repeat split. }
  py_unfold.
  destruct (topic_record_run env topic message)
    as (r & evs & Hrun & Hr & Hevs & _).
  rewrite Hrun. destruct r as [record|e]; simpl.
  - destruct k as [|k].
    { simpl in Hk. injection Hk as ->. rewrite Hbad in Hr. done. }
    simpl in Hk. destruct rest as [|next rest]; [done|].
    assert (Hfirst : receive env (i + 0) = Ok (Some next)).
    { apply Hrecv; [lia|done]. }
    rewrite Nat.add_0_r in Hfirst. rewrite Hfirst. simpl.
    destruct (IH k next rest bad (S i) (messages ++ [record])
                (add_events [Call "consumer.receive"] (add_events evs s)))
      as (evs' & -> & Hclose & Hquiet); [done|done| |].
    { intros j m' Hj Hm'. rewrite Nat.add_succ_comm.
      apply (Hrecv (S j)); [lia|done]. }
    exists (evs ++ [Call "consumer.receive"] ++ evs').
    rewrite !add_events_app, <- ?app_assoc. split; [done|].
    rewrite !calls_app, (calls_errors "consumer.close" evs Hevs), Hclose.
    split; [done|].
    apply Forall_app. split; [by apply errors_quiet|].
    apply Forall_app. split; [by repeat constructor|done].
  - match goal with |- context [receive_loop fuel env topic message i messages ?s1] =>
      destruct (IH k message rest bad i messages s1 Hk Hbad Hrecv)
        as (evs' & -> & Hclose & Hquiet) end.
    eexists (evs ++ [_] ++ evs').
    rewrite !add_events_app, <- ?app_assoc. split; [done|].
    rewrite !calls_app, (calls_errors "consumer.close" evs Hevs), Hclose.
    split; [done|].
    apply Forall_app. split; [by apply errors_quiet|].
    apply Forall_app. split; [by repeat constructor|done].
Qed.
Lemma connected_handles s :
  is_connected s = true →
  ∃ c h, connection s = Some c ∧ session s = Some h.
Proof.
  unfold is_connected. destruct (connection s), (session s); try done.
  eauto.
Qed.

Lemma closed_again s topic closes c0 :
  c0 ∈ filter (fun c => consumer_id c ≠ next_consumer s)
         (broker_consumers s ++ [next_on s topic closes]) →
  c0 ∈ broker_consumers s.
Proof.
  intros [Hne Hin]%list_elem_of_filter.
  apply elem_of_app in Hin as [Hin|Hin%list_elem_of_singleton]; [done|].
  subst c0. done.
Qed.

(** X15: on a topic without listener, [subscribe_to_topic] drains what the
    topic holds for a new consumer and cleans up after itself.  If the
    broker hands out the consumer, the pending messages are readable, and
    the final [close()] succeeds, the call returns one record per pending
    message, in order, each with the id and timestamp of its message and
    marked as a "topic" record of that topic.  It makes one [receive] call
    per message and one more, closes its consumer once, and emits the
    "messages updated" signal only at the very end, with the returned
    list, and only if [update_ui] is set.  It registers no listener, caches
    nothing, and leaves no consumer open that was not open before. *)
Theorem subscribe_drains_topic fuel env topic u a s pending :
  is_connected s = true → topic_key topic ∉ dom (topic_consumers s) →
  sub_createTopic env = Ok tt → sub_createConsumer env = Ok (Ok tt) →
  holding env pending → Forall (fun m => readable m = true) pending →
  length pending ≤ fuel →
  ∃ records quiet s',
    subscribe_to_topic fuel env topic u a s = (Ok (Some records), s') ∧
    Forall2 (record_of topic) pending records ∧
    trace s' =
      trace s ++ quiet ++
      (if u then [Emit (update_messages_signal records)] else []) ∧
    Forall (fun ev => is_broadcast ev = false) quiet ∧
    calls "consumer.receive" quiet = S (length pending) ∧
    calls "consumer.close" quiet = 1 ∧
    message_cache s' = message_cache s ∧
    topic_consumers s' = topic_consumers s ∧
    (∀ c, c ∈ broker_consumers s' → c ∈ broker_consumers s).
Proof.
  intros Hc Hl Ht Hcons [Hrecv Hend] Hread Hfuel.
  destruct (connected_handles s Hc) as (c & h & Ec & Eh).
  unfold subscribe_to_topic, session_createConsumer, consumer_close_call.
  py_unfold. rewrite Ec, Eh. simpl.
  rewrite bool_decide_false by done. rewrite Ht, Hcons. simpl.
  fold (next_on s topic (Ok tt)).
  destruct pending as [|message rest].
  - simpl in Hend. rewrite Hend. simpl.
    destruct u; simpl;
      eexists [], [_; _; _; _; _], _; (split; [reflexivity|]); simpl;
      (split; [constructor|]);
      (split; [rewrite <- !app_assoc; reflexivity|]);
      (split; [quiet_events|]);
      repeat (split; [reflexivity|]); apply closed_again.
  - rewrite (Hrecv 0 message eq_refl). simpl.
    match goal with |- context [receive_loop fuel env topic message 1 [] ?s1] =>
      destruct (receive_loop_drains env topic (Ok None) rest fuel message 1 []
                  s1) as (records & evs & -> & Hrecs & Hcalls & Hclose & Hq)
    end.
    + intros j m' Hj. by apply (Hrecv (S j)).
    + exact Hend.
    + done.
    + done.
    + simpl in Hfuel. lia.
    + simpl.
      destruct u; simpl;
        eexists records, ([_; _; _] ++ evs ++ [_]), _;
        (split; [reflexivity|]);
        simpl; (split; [done|]);
        (split; [rewrite <- !app_assoc; reflexivity|]);
        (split; [repeat (apply Forall_cons; split; [reflexivity|]);
                 apply Forall_app; split; [done|quiet_events]|]);
        change (?x :: ?y :: ?z :: evs ++ ?l) with ([x; y; z] ++ evs ++ l);
        rewrite !calls_app, Hcalls, Hclose;
        repeat (split; [first [reflexivity|cbn; lia]|]); apply closed_again.
Qed.

Lemma subscribe_drains_topic_witness :
  ∃ r, (subscribe_to_topic 1 (topic_holding [plain (text_message "ID:7" "hi")]
                                (Ok tt))
          "news" true false connected).1 = Ok (Some [r]) ∧
       msg_id r = "ID:7".
Proof.
  destruct (subscribe_drains_topic 1
              (topic_holding [plain (text_message "ID:7" "hi")] (Ok tt))
              "news" true false connected [plain (text_message "ID:7" "hi")])
    as (records & quiet & s' & E & Hrecs & _).
  - reflexivity.
  - unfold connected. simpl. rewrite dom_empty_L. apply not_elem_of_empty.
  - reflexivity.
  - reflexivity.
  - split; [|reflexivity]. intros i m H. simpl. by rewrite H.
  - by repeat constructor.
  - simpl. lia.
  - apply Forall2_cons_inv_l in Hrecs as (r & rest & Hr & Hrest & ->).
    apply Forall2_nil_inv_l in Hrest as ->.
    exists r. rewrite E. split; [done|].
    destruct Hr as (Hid & _). simpl in Hid. by injection Hid as <-.
Defined.
(** X16: a message whose record cannot be built stalls
    [subscribe_to_topic].  The handler of the per-message [try] goes back
    to the loop test with the same message, so if the topic delivers a
    message whose id, properties or timestamp cannot be read (a message
    answers its accessors the same way each time), the call does not
    return, however many iterations its loop is given: it never
    gets to close its consumer, which stays open on the broker, and it
    emits no "messages updated" signal. *)
Theorem subscribe_stalls_on_unreadable_message
    env topic u a s (pending : list TopicMessage) k bad closes :
  is_connected s = true → topic_key topic ∉ dom (topic_consumers s) →
  sub_createTopic env = Ok tt → sub_createConsumer env = Ok closes →
  pending !! k = Some bad → readable bad = false →
  (∀ j message, j ≤ k → pending !! j = Some message →
     receive env j = Ok (Some message)) →
  ∀ fuel, ∃ evs s',
    subscribe_to_topic fuel env topic u a s = (Ok None, s') ∧
    trace s' = trace s ++ evs ∧
    calls "consumer.close" evs = 0 ∧
    Forall (fun ev => is_broadcast ev = false) evs ∧
    broker_consumers s' = broker_consumers s ++ [next_on s topic closes].
Proof.
  intros Hc Hl Ht Hcons Hk Hbad Hrecv fuel.
  destruct (connected_handles s Hc) as (c & h & Ec & Eh).
  unfold subscribe_to_topic, session_createConsumer. py_unfold.
  rewrite Ec, Eh. simpl.
  rewrite bool_decide_false by done. rewrite Ht, Hcons. simpl.
  fold (next_on s topic closes).
  destruct pending as [|message rest]; [done|].
  rewrite (Hrecv 0 message) by (first [lia|done]). simpl.
  match goal with |- context [receive_loop fuel env topic message 1 [] ?s1] =>
    destruct (receive_loop_stuck env topic fuel k message rest bad 1 [] s1)
      as (evs & -> & Hclose & Hq) end; [done|done| |].
  { intros j m' Hj Hm'. apply (Hrecv (S j)); [lia|done]. }
  eexists ([_; _; _] ++ evs), _. split; [reflexivity|]. simpl.
  split; [by rewrite <- !app_assoc|].
  split; [exact Hclose|]. split; [|done].
  by repeat (apply Forall_cons; split; [reflexivity|]).
Qed.

Lemma subscribe_stalls_on_unreadable_message_witness :
  (subscribe_to_topic 50
     (topic_holding [plain (broken_message "ID:9" "x")] (Ok tt))
     "news" true false connected).1 = Ok None.
Proof.
  destruct (subscribe_stalls_on_unreadable_message
              (topic_holding [plain (broken_message "ID:9" "x")] (Ok tt))
              "news" true false connected
              [plain (broken_message "ID:9" "x")] 0
              (plain (broken_message "ID:9" "x")) (Ok tt))
    with (fuel := 50) as (evs & s' & E & _).
  - reflexivity.
  - unfold connected. simpl. rewrite dom_empty_L. apply not_elem_of_empty.
  - reflexivity.
  - reflexivity.
  - reflexivity.
  - reflexivity.
  - intros j m Hj H. simpl. by rewrite H.
  - by rewrite E.
Defined.

(** X17: a failure after the consumer was opened loses what was received
    and leaks the consumer.  If, after the pending messages have been
    received, the next [receive] raises, or it times out and the final
    [close()] raises, then [subscribe_to_topic] returns the empty list
    although it took the pending messages off the topic, emits no
    "messages updated" signal, reports the error, and leaves its consumer
    open on the broker, where no table of the object refers to it. *)
Theorem subscribe_failure_loses_messages
    fuel env topic u a s (pending : list TopicMessage) closes e :
  is_connected s = true → topic_key topic ∉ dom (topic_consumers s) →
  sub_createTopic env = Ok tt → sub_createConsumer env = Ok closes →
  (∀ i message, pending !! i = Some message →
     receive env i = Ok (Some message)) →
  Forall (fun m => readable m = true) pending →
  length pending ≤ fuel →
  receive env (length pending) = Raise e ∨
  (receive env (length pending) = Ok None ∧ closes = Raise e) →
  ∃ quiet s',
    subscribe_to_topic fuel env topic u a s = (Ok (Some []), s') ∧
    trace s' =
      trace s ++ quiet ++
      [Emit (error_signal ("Error subscribing to topic: " +:+ e +:+
                           "::non-critical"));
       Emit (log_signal (format_exc env))] ∧
    Forall (fun ev => is_broadcast ev = false) quiet ∧
    length pending < calls "consumer.receive" quiet ∧
    broker_consumers s' = broker_consumers s ++ [next_on s topic closes] ∧
    topic_consumers s' = topic_consumers s ∧
    message_cache s' = message_cache s.
Proof.
  intros Hc Hl Ht Hcons Hrecv Hread Hfuel Hfail.
  destruct (connected_handles s Hc) as (c & h & Ec & Eh).
  unfold subscribe_to_topic, session_createConsumer, consumer_close_call.
  py_unfold. rewrite Ec, Eh. simpl.
  rewrite bool_decide_false by done. rewrite Ht, Hcons. simpl.
  fold (next_on s topic closes).
  destruct pending as [|message rest].
  - simpl in Hfail. destruct Hfail as [->|[-> ->]]; simpl.
    + eexists [_; _; _], _. split; [reflexivity|]. simpl.
      split; [by rewrite <- !app_assoc|].
      split; [quiet_events|]. split; [cbn; lia|]. done.
    + eexists [_; _; _; _; _], _. split; [reflexivity|]. simpl.
      split; [by rewrite <- !app_assoc|].
      split; [quiet_events|]. split; [cbn; lia|]. done.
  - rewrite (Hrecv 0 message eq_refl). simpl.
    match goal with |- context [receive_loop fuel env topic message 1 [] ?s1] =>
      destruct (receive_loop_drains env topic
                  (receive env (length (message :: rest))) rest fuel message
                  1 [] s1)
        as (records & evs & -> & Hrecs & Hcalls & Hclose & Hq)
    end.
    + intros j m' Hj. by apply (Hrecv (S j)).
    + done.
    + intros m Hm. destruct Hfail as [Hf|[Hf _]]; rewrite Hf in Hm; done.
    + done.
    + simpl in Hfuel. lia.
    + destruct Hfail as [->|[-> ->]]; simpl.
      * eexists ([_; _; _] ++ evs), _. split; [reflexivity|]. simpl.
        split; [by rewrite <- !app_assoc|].
        split; [by repeat (apply Forall_cons; split; [reflexivity|])|].
        change (?x :: ?y :: ?z :: evs) with ([x; y; z] ++ evs).
        rewrite calls_app, Hcalls. split; [cbn; lia|]. done.
      * eexists ([_; _; _] ++ evs ++ [_]), _. split; [reflexivity|]. simpl.
        split; [by rewrite <- !app_assoc|].
        split; [repeat (apply Forall_cons; split; [reflexivity|]);
                apply Forall_app; split; [done|quiet_events]|].
        change (?x :: ?y :: ?z :: evs ++ ?l) with ([x; y; z] ++ evs ++ l).
        rewrite !calls_app, Hcalls. split; [cbn; lia|]. done.
Qed.

Lemma subscribe_failure_loses_messages_witness :
  (subscribe_to_topic 1
     (topic_holding [plain (text_message "ID:7" "hi")]
        (Raise "IllegalStateException"))
     "news" true false connected).1 = Ok (Some []).
Proof.
  destruct (subscribe_failure_loses_messages 1
              (topic_holding [plain (text_message "ID:7" "hi")]
                 (Raise "IllegalStateException"))
              "news" true false connected [plain (text_message "ID:7" "hi")]
              (Raise "IllegalStateException") "IllegalStateException")
    as (quiet & s' & E & _).
  - reflexivity.
  - unfold connected. simpl. rewrite dom_empty_L. apply not_elem_of_empty.
  - reflexivity.
  - reflexivity.
  - intros i m H. simpl. by rewrite H.
  - by repeat constructor.
  - simpl. lia.
  - right. split; reflexivity.
  - by rewrite E.
Defined.

Lemma on_topic_message_frame message topic s :
  connection (_on_topic_message message topic s).2 = connection s ∧
  session (_on_topic_message message topic s).2 = session s ∧
  topic_consumers (_on_topic_message message topic s).2 = topic_consumers s.
Proof.
  unfold _on_topic_message. py_unfold. destruct message as [message|]; [|done].
  destruct (getJMSMessageID message); simpl; [|done].
  destruct (getJMSTimestamp message); simpl; [|done].
  by destruct (negb (is_nil _)).
Qed.

Lemma deliver_run topic arrivals s :
  connection (deliver topic arrivals s) = connection s ∧
  session (deliver topic arrivals s) = session s ∧
  topic_consumers (deliver topic arrivals s) = topic_consumers s ∧
  topic_entry (deliver topic arrivals s) topic =
    topic_entry s topic ++ omap (arrived topic) arrivals.
Proof.
  revert s. induction arrivals as [|message rest IH]; intros s; simpl.
  { by rewrite app_nil_r. }
  destruct (IH (_on_topic_message (Some message) topic s).2)
    as (E1 & E2 & E3 & E4).
  destruct (on_topic_message_frame (Some message) topic s) as (F1 & F2 & F3).
  unfold deliver in *. rewrite E1, E2, E3, E4, F1, F2, F3.
  repeat (split; [done|]).
  rewrite on_topic_message_entry. unfold arrived.
  destruct (getJMSMessageID message), (getJMSTimestamp message); try done.
  by rewrite <- app_assoc.
Qed.

(** X18: once a listener is registered for a topic, [subscribe_to_topic]
    reads the cache instead of the broker.  After
    [create_topic_message_listener] has been granted on a connected object
    and the callback has run for any number of arrivals, the call returns
    exactly the topic's cache entry, which is what was cached before
    followed by the records of the arrivals whose id and timestamp could be
    read; it makes no call to the broker and opens no consumer, and emits
    the "messages updated" signal with that list if [update_ui] is set. *)
Theorem subscribe_after_listener_reads_cache
    fuel env lenv topic arrivals u a s :
  is_connected s = true → granted lenv = true →
  let s1 := deliver topic arrivals
              (create_topic_message_listener lenv topic s).2 in
  subscribe_to_topic fuel env topic u a s1 =
    (Ok (Some (topic_entry s1 topic)),
     add_events (if u then [Emit (update_messages_signal
                                    (topic_entry s1 topic))] else []) s1) ∧
  topic_entry s1 topic = topic_entry s topic ++ omap (arrived topic) arrivals.
Proof.
  intros Hc Hg s1.
  destruct (deliver_run topic arrivals
              (create_topic_message_listener lenv topic s).2)
    as (E1 & E2 & E3 & E4).
  fold s1 in E1, E2, E3, E4.
  unfold granted in Hg.
  destruct (createTopic lenv) as [[]|] eqn:Ht; [|done].
  destruct (createConsumer lenv) as [closes|] eqn:Hcons; [|done].
  destruct (setMessageListener lenv) as [[]|] eqn:Hl; [|done].
  destruct (create_topic_message_listener_creates lenv topic closes s
              Hc Ht Hcons Hl) as (_ & _ & Htc).
  destruct (connected_handles s Hc) as (c & h & Ec & Eh).
  assert (Hconn : connection (create_topic_message_listener lenv topic s).2
                  = Some c ∧
                  session (create_topic_message_listener lenv topic s).2
                  = Some h ∧
                  message_cache (create_topic_message_listener lenv topic s).2
                  = message_cache s).
  { unfold create_topic_message_listener, session_createConsumer. py_unfold.
    rewrite Ec, Eh, Ht, Hcons, Hl. done. }
  destruct Hconn as (Hconn & Hsess & Hcache).
  split.
  - unfold subscribe_to_topic. py_unfold.
    rewrite E1, E2, Hconn, Hsess. simpl.
    rewrite bool_decide_true.
    2:{ rewrite E3, Htc. apply elem_of_dom. eexists.
        apply lookup_insert_eq. }
    unfold topic_entry.
    destruct (message_cache s1 !! topic_key topic) as [messages|];
      destruct u; simpl; by rewrite ?add_events_nil.
  - rewrite E4. unfold topic_entry. by rewrite Hcache.
Qed.

Lemma subscribe_after_listener_reads_cache_witness :
  (subscribe_to_topic 0 (topic_holding [] (Ok tt)) "alerts" false false
     (deliver "alerts" [text_message "ID:1" "a"]
        (create_topic_message_listener willing_listener "alerts"
           connected).2)).1 =
  Ok (Some [message_info "ID:1" "a" "alerts" 1700000000000%Z]).
Proof.
  destruct (subscribe_after_listener_reads_cache 0 (topic_holding [] (Ok tt))
              willing_listener "alerts" [text_message "ID:1" "a"] false false
              connected) as (E & Hentry).
  - reflexivity.
  - reflexivity.
  - rewrite E. cbn [fst]. rewrite Hentry. reflexivity.
Defined.
(** ** Connecting *)

Ltac connect_leaf :=
  simpl; eexists _, _, _; split; [reflexivity|]; simpl;
  split; [rewrite <- ?app_assoc; reflexivity|];
  split; [by repeat split|];
  repeat (split; [first [reflexivity | cbn; lia | done]|]);
  first [ reflexivity | done
        | by (intros; repeat (apply Forall_cons; split; [reflexivity|]))
        | by intros [?|?] ].

(** [connect_to_broker], run. *)
Lemma connect_run env method host port username password s :
  ∃ b evs s',
    connect_to_broker env method host port username password s = (Ok b, s') ∧
    trace s' = trace s ++ evs ∧
    same_but_handles s s' ∧
    connection s' =
      (if reaches_broker env username password then
         match createConnection env with
         | Ok conn => Some conn
         | Raise _ => connection s
         end
       else connection s) ∧
    session s' =
      match established env username password with
      | Some (_, sess) => Some sess
      | None => session s
      end ∧
    b = truthy (established env username password) ∧
    calls "factory.createConnection" evs =
      (if reaches_broker env username password then 1 else 0) ∧
    (credentials username password = false →
       calls "factory.setUserName" evs = 0 ∧
       calls "factory.setPassword" evs = 0) ∧
    (succeeds (jakarta_jms env) || succeeds (javax_jms env) = false ∨
     probe env = SocketError →
     Forall (fun ev => is_emit ev = true) evs).
Proof.
  unfold connect_to_broker, established, reaches_broker, ack_mode.
  py_unfold.
  assert (Hpre : ∀ r1 r2 : result unit,
            succeeds r1 || succeeds r2 = true →
            match r1, r2 with Raise _, Raise _ => False | _, _ => True end).
  { by intros [[]|] [[]|]. }
  destruct (succeeds (jakarta_jms env) || succeeds (javax_jms env)) eqn:Hjms.
  2:{ destruct (jakarta_jms env) as [[]|e1]; [done|].
      destruct (javax_jms env) as [[]|e2]; [done|]. connect_leaf. }
  assert (Hgo :
    ∀ (A : Type) (k1 : A) (k2 : string → A),
      match jakarta_jms env, javax_jms env with
      | Raise _, Raise e => k2 e
      | _, _ => k1
      end = k1).
  { intros A k1 k2. specialize (Hpre _ _ Hjms).
    by destruct (jakarta_jms env) as [[]|], (javax_jms env) as [[]|]. }
  rewrite Hgo. clear Hgo Hpre. simpl.
  destruct (probe env) as [| |e]; simpl; [|connect_leaf..].
  destruct (JClass env) as [[]|e]; simpl; [|connect_leaf].
  destruct (new_factory env) as [[]|e]; simpl; [|connect_leaf].
  destruct (credentials username password); simpl.
  - destruct (setUserName env) as [[]|e]; simpl; [|connect_leaf].
    destruct (setPassword env) as [[]|e]; simpl; [|connect_leaf].
    destruct (createConnection env) as [conn|e]; simpl; [|connect_leaf].
    destruct (connection_start env) as [[]|e]; simpl; [|connect_leaf].
    destruct (connect_createSession env _) as [sess|e]; connect_leaf.
  - destruct (createConnection env) as [conn|e]; simpl; [|connect_leaf].
    destruct (connection_start env) as [[]|e]; simpl; [|connect_leaf].
    destruct (connect_createSession env _) as [sess|e]; connect_leaf.
Qed.
Lemma established_inv env username password conn sess :
  established env username password = Some (conn, sess) →
  reaches_broker env username password = true ∧
  createConnection env = Ok conn ∧
  connect_createSession env (ack_mode env) = Ok sess.
Proof.
  unfold established.
  destruct (reaches_broker env username password); [|done].
  destruct (createConnection env) as [c|]; [|done].
  destruct (connection_start env); [|done].
  destruct (connect_createSession env (ack_mode env)) as [h|]; [|done].
  by intros [= -> ->].
Qed.

(** X19: the answer of [connect_to_broker] can be trusted.  The method
    never raises and touches nothing of the object but the two handles and
    the trace: a reconnect keeps the cache, the listener table and the
    monitored lists.  It answers [True] exactly when every step went
    through, and then the object holds the connection and the session that
    the broker handed out in this call.  On an object without a session
    the answer says whether the object is connected afterwards. *)
Theorem connect_answer_is_reliable env method host port username password s :
  ∃ b s',
    connect_to_broker env method host port username password s = (Ok b, s') ∧
    same_but_handles s s' ∧
    (b = true ↔
       ∃ conn sess, established env username password = Some (conn, sess)) ∧
    (∀ conn sess, established env username password = Some (conn, sess) →
       connection s' = Some conn ∧ session s' = Some sess) ∧
    (b = true → is_connected s' = true) ∧
    (session s = None → is_connected s' = b).
Proof.
  destruct (connect_run env method host port username password s)
    as (b & evs & s' & E & _ & Hsame & Hconn & Hsess & Hb & _).
  exists b, s'. split; [done|]. split; [done|].
  unfold is_connected. rewrite Hconn, Hsess, Hb.
  destruct (established env username password) as [[conn sess]|] eqn:Hest.
  - apply established_inv in Hest as (-> & -> & _). simpl.
    split; [split; eauto|]. split; [by intros ? ? [= -> ->]|]. done.
  - simpl. split; [split; [done|by intros (? & ? & ?)]|].
    split; [done|]. split; [done|].
    intros ->. apply andb_false_r.
Qed.

Lemma connect_answer_is_reliable_witness :
  is_connected
    (connect_to_broker open_broker "tcp" "localhost" "61616" "" "" init).2 =
  true.
Proof.
  destruct (connect_answer_is_reliable open_broker "tcp" "localhost" "61616"
              "" "" init) as (b & s' & E & _ & _ & _ & _ & Hb).
  rewrite E. simpl. rewrite Hb by reflexivity.
  vm_compute in E. by injection E as <- _.
Defined.

(** X20: what [connect_to_broker] does before it has a connection.  If a
    step before [createConnection] fails, the call answers [False],
    never calls [createConnection] and leaves both handles as they were;
    if no JMS package loads or the socket check fails, it makes no call
    across the bridge at all.  Credentials are handed to the factory only
    if both a user name and a password are given.  If the connection is
    created but starting it or creating the session fails, the call
    answers [False] with the new connection stored and the session as it
    was. *)
Theorem connect_preflight env method host port username password s :
  let r := connect_to_broker env method host port username password s in
  ∃ evs, trace r.2 = trace s ++ evs ∧
    (reaches_broker env username password = false →
       r.1 = Ok false ∧ calls "factory.createConnection" evs = 0 ∧
       connection r.2 = connection s ∧ session r.2 = session s) ∧
    (succeeds (jakarta_jms env) || succeeds (javax_jms env) = false ∨
     probe env = SocketError →
       Forall (fun ev => is_emit ev = true) evs) ∧
    (credentials username password = false →
       calls "factory.setUserName" evs = 0 ∧
       calls "factory.setPassword" evs = 0) ∧
    (∀ conn, reaches_broker env username password = true →
       createConnection env = Ok conn →
       established env username password = None →
       r.1 = Ok false ∧ connection r.2 = Some conn ∧
       session r.2 = session s).
Proof.
  destruct (connect_run env method host port username password s)
    as (b & evs & s' & E & Htr & _ & Hconn & Hsess & Hb & Hcalls & Hcred
        & Hpre).
  simpl. rewrite E. simpl. exists evs. split; [done|].
  rewrite Hconn, Hsess, Hb, Hcalls. unfold established.
  split; [by intros ->|]. split; [done|]. split; [done|].
  intros conn Hr Hc Hest. unfold established in Hest.
  rewrite Hr in *. rewrite Hc in *. by rewrite Hest.
Qed.

Lemma connect_preflight_witness :
  (connect_to_broker unreachable_broker "tcp" "localhost" "61616" "admin"
     "admin" connected).1 = Ok false ∧
  connection
    (connect_to_broker unreachable_broker "tcp" "localhost" "61616" "admin"
       "admin" connected).2 = connection connected.
Proof.
  destruct (connect_preflight unreachable_broker "tcp" "localhost" "61616"
              "admin" "admin" connected) as (evs & _ & H & _).
  destruct H as (H1 & _ & H2 & _); [reflexivity|]. by split.
Defined.

Lemma disconnect_clean s :
  closes_cleanly s →
  (disconnect s).1 = Ok true ∧
  session (disconnect s).2 = None ∧ connection (disconnect s).2 = None ∧
  same_but_handles s (disconnect s).2.
Proof.
  destruct s as [conn sess ? ? ? ? ? ? ? ? ? ? ? ?].
  unfold closes_cleanly, disconnect, same_but_handles, same_lists.
  py_unfold; simpl. intros [Hs Hc].
  destruct sess as [hs|], conn as [hc|]; simpl;
    try rewrite (Hs _ eq_refl); simpl;
    try rewrite (Hc _ eq_refl); simpl; auto 15.
Qed.

(** X21: [disconnect] undoes a connect attempt, whatever its outcome.  On
    an object without handles, if the handles the broker hands out close
    without error, then after [connect_to_broker] (successful, failed
    early, or failed with the connection already created) a [disconnect]
    answers [True] and leaves the object without handles, everything else
    as it was before the connect. *)
Theorem disconnect_undoes_connect env method host port username password s :
  connection s = None → session s = None →
  (∀ conn, createConnection env = Ok conn → close conn = Ok tt) →
  (∀ sess, connect_createSession env (ack_mode env) = Ok sess →
     close sess = Ok tt) →
  let s1 := (connect_to_broker env method host port username password s).2 in
  (disconnect s1).1 = Ok true ∧
  connection (disconnect s1).2 = None ∧ session (disconnect s1).2 = None ∧
  same_but_handles s (disconnect s1).2.
Proof.
  intros Hc Hs Hcc Hsc s1.
  destruct (connect_run env method host port username password s)
    as (b & evs & s' & E & _ & Hsame & Hconn & Hsess & _).
  assert (Es1 : s1 = s') by (unfold s1; by rewrite E).
  rewrite Es1. clear Es1 s1 E.
  destruct (disconnect_clean s') as (H1 & H2 & H3 & H4).
  { split; intros h Hh.
    - rewrite Hsess in Hh.
      destruct (established env username password) as [[conn sess]|] eqn:Hest.
      + injection Hh as ->.
        apply established_inv in Hest as (_ & _ & Hest). by apply Hsc.
      + by rewrite Hs in Hh.
    - rewrite Hconn in Hh.
      destruct (reaches_broker env username password);
        [|by rewrite Hc in Hh].
      destruct (createConnection env) as [conn|] eqn:Hconn';
        [|by rewrite Hc in Hh].
      injection Hh as ->. by apply Hcc. }
  repeat (split; [done|]).
  unfold same_but_handles, same_lists in *.
  destruct Hsame as (A1 & A2 & A3 & (A4 & A5 & A6) & A7 & A8 & A9).
  destruct H4 as (B1 & B2 & B3 & (B4 & B5 & B6) & B7 & B8 & B9).
  rewrite B1, B2, B3, B4, B5, B6, B7, B8, B9. done.
Qed.

Lemma disconnect_undoes_connect_witness :
  (disconnect
     (connect_to_broker open_broker "tcp" "localhost" "61616" "" "" init).2).1
  = Ok true.
Proof.
  destruct (disconnect_undoes_connect open_broker "tcp" "localhost" "61616"
              "" "" init) as (H & _).
  - reflexivity.
  - reflexivity.
  - intros conn H. vm_compute in H. by injection H as <-.
  - intros sess H. vm_compute in H. by injection H as <-.
  - exact H.
Defined.

(** X22: offline, every broker-facing method fails the same harmless
    way.  On an object that lacks the connection or the session,
    [get_destinations], [browse_queue], [subscribe_to_topic],
    [create_topic_message_listener] and [send_message] make no call across
    the bridge and change nothing: each emits the one error signal
    "Not connected to broker" and returns its empty answer (two empty
    lists, the empty list, no consumer, [False]); in particular none of
    them emits a "messages updated" or a destinations signal. *)
Theorem offline_methods_only_report s :
  is_connected s = false →
  let offline := add_events [Emit (error_signal "Not connected to broker")] s in
  (∀ env, get_destinations env s = (Ok ([], []), offline)) ∧
  (∀ env q u a f, browse_queue env q u a f s = (Ok [], offline)) ∧
  (∀ fuel env t u a,
     subscribe_to_topic fuel env t u a s = (Ok (Some []), offline)) ∧
  (∀ env t, create_topic_message_listener env t s = (Ok None, offline)) ∧
  (∀ env n k body props,
     send_message env n k body props s = (Ok false, offline)).
Proof.
  unfold is_connected, get_destinations, browse_queue, subscribe_to_topic,
    create_topic_message_listener, send_message.
  py_unfold. intros Hc.
  destruct (connection s), (session s); try done; simpl; by repeat split.
Qed.

Lemma offline_methods_only_report_witness :
  browse_queue (sample_browse_env []) "orders" true false true init =
  (Ok [], add_events [Emit (error_signal "Not connected to broker")] init).
Proof.
  destruct (offline_methods_only_report init) as (_ & H & _).
  - reflexivity.
  - apply H.
Defined.

(** ** The properties line *)

Lemma split_plain sep s : has_char sep s = false → split sep s = [s].
Proof.
  induction s as [|c rest IH]; [done|]. simpl.
  destruct (Ascii.eqb c sep); [done|]. simpl. intros H. by rewrite IH.
Qed.

Lemma split_append sep s rest :
  has_char sep s = false →
  split sep (s +:+ String sep rest) = s :: split sep rest.
Proof.
  induction s as [|c s IH]; simpl.
  - by rewrite Ascii.eqb_refl.
  - destruct (Ascii.eqb c sep); [done|]. simpl. intros H. by rewrite IH.
Qed.

Lemma split_concat (segments : list string) :
  segments ≠ [] → Forall (fun s => has_char comma s = false) segments →
  split comma (String.concat "," segments) = segments.
Proof.
  induction segments as [|s rest IH]; [done|]. intros _ Hall.
  apply Forall_cons in Hall as [Hs Hrest].
  destruct rest as [|s' rest]; [by apply split_plain|].
  change (String.concat "," (s :: s' :: rest))
    with (s +:+ String comma (String.concat "," (s' :: rest))).
  rewrite split_append by done. by rewrite IH.
Qed.

Lemma split_once_first key value :
  has_char equals_sign key = false →
  split_once equals_sign (key +:+ "=" +:+ value) = Some (key, value).
Proof.
  induction key as [|c key IH]; [done|]. simpl.
  destruct (Ascii.eqb c equals_sign); [done|]. simpl. intros H. by rewrite IH.
Qed.

Lemma has_char_append c s1 s2 :
  has_char c (s1 +:+ s2) = has_char c s1 || has_char c s2.
Proof.
  induction s1 as [|c' s1 IH]; [done|]. simpl. by rewrite IH, orb_assoc.
Qed.

Lemma dict_set_new (d : list (string * string)) key value :
  key ∉ d.*1 → dict_set d key value = d ++ [(key, value)].
Proof.
  induction d as [|[k v] d IH]; [done|]. simpl.
  intros [Hne Hd]%not_elem_of_cons.
  destruct (String.eqb k key) eqn:E.
  - apply String.eqb_eq in E. by subst.
  - by rewrite IH.
Qed.

(** X23: the properties line round-trips.  For a dict whose properties
    all survive the line (names without comma and equals sign, values
    without comma, neither with white space at an end), parsing the line
    that [message_selected] shows gives back exactly the items of the
    dict, in their order; the empty dict gives the empty line and back. *)
Theorem properties_line_round_trip (items : list (string * string)) :
  NoDup items.*1 → Forall survives items →
  parse_properties (properties_line items) = items.
Proof.
  intros Hnd Hall. unfold parse_properties, properties_line.
  destruct items as [|kv0 rest0] eqn:Eitems; [done|]. rewrite <- Eitems in *.
  assert (Hne : String.concat ","
                  ((fun kv => kv.1 +:+ "=" +:+ kv.2) <$> items) ≠ "").
  { rewrite Eitems. simpl. destruct kv0 as [k v]. simpl.
    destruct (list_fmap _ _ _ rest0); destruct k; done. }
  apply String.eqb_neq in Hne. rewrite Hne.
  rewrite split_concat.
  2:{ rewrite Eitems. done. }
  2:{ apply Forall_fmap. eapply Forall_impl; [exact Hall|].
      intros [k v] (H1 & _ & H3 & _). simpl in *.
      rewrite !has_char_append, H1, H3. done. }
  clear Eitems Hne kv0 rest0.
  assert (Hgen : ∀ acc : list (string * string),
    NoDup (acc.*1 ++ items.*1) →
    fold_left
      (fun properties prop =>
         match split_once equals_sign prop with
         | Some (key, value) => dict_set properties (strip key) (strip value)
         | None => properties
         end)
      ((fun kv => kv.1 +:+ "=" +:+ kv.2) <$> items) acc = acc ++ items).
  { induction items as [|[k v] items IH]; intros acc Hacc; simpl.
    { by rewrite app_nil_r. }
    apply Forall_cons in Hall as [(_ & H2 & _ & H4 & H5) Hall].
    simpl in *. rewrite split_once_first by done. rewrite H4, H5.
    apply NoDup_cons in Hnd as [_ Hnd].
    rewrite dict_set_new.
    2:{ apply NoDup_app in Hacc as (_ & Hacc & _).
        intros Hin. apply (Hacc k Hin). by left. }
    rewrite IH; [by rewrite <- app_assoc|done|done|].
    rewrite fmap_app. simpl. by rewrite <- app_assoc. }
  apply (Hgen []). done.
Qed.

Lemma properties_line_round_trip_witness :
  parse_properties "JMSXGroupID=g1,retries=3" =
  [("JMSXGroupID", "g1"); ("retries", "3")].
Proof.
  apply (properties_line_round_trip
           [("JMSXGroupID", "g1"); ("retries", "3")]).
  - simpl. apply NoDup_cons.
    split; [apply not_elem_of_cons; split; [discriminate|apply not_elem_of_nil]|].
    apply NoDup_singleton.
  - repeat constructor.
Defined.

(** ** The messages table *)

Lemma add_row_table strftime ui message :
  ∃ row, messagesTable (add_row strftime ui message) =
           messagesTable ui ++ [row] ∧
         row_for strftime message row.
Proof.
  unfold add_row, row_for.
  destruct (strftime (msg_timestamp message)); simpl;
    eexists; split; reflexivity.
Qed.

Lemma add_rows_table strftime messages ui :
  ∃ rows, messagesTable (fold_left (add_row strftime) messages ui) =
            messagesTable ui ++ rows ∧
          Forall2 (row_for strftime) messages rows.
Proof.
  revert ui. induction messages as [|message rest IH]; intros ui; simpl.
  { exists []. by rewrite app_nil_r. }
  destruct (add_row_table strftime ui message) as (row & Hrow & Hstored).
  destruct (IH (add_row strftime ui message)) as (rows & -> & Hrows).
  exists (row :: rows). rewrite Hrow, <- app_assoc. split; [done|].
  by constructor.
Qed.

Lemma existing_ids_app (t1 t2 : list Row) :
  existing_ids (t1 ++ t2) = existing_ids t1 ∪ existing_ids t2.
Proof.
  unfold existing_ids. by rewrite omap_app, fmap_app, list_to_set_app_L.
Qed.

Lemma existing_ids_rows strftime (messages : list Message) (rows : list Row) :
  Forall2 (row_for strftime) messages rows →
  ∀ i, i ∈ existing_ids rows ↔
       ∃ message, message ∈ messages ∧ msg_id message = i ∧
                  succeeds (strftime (msg_timestamp message)) = true.
Proof.
  unfold existing_ids, row_for.
  induction 1 as [|message row messages rows Hrow _ IH];
    intros i; simpl.
  { split; [set_solver|]. intros (m & Hm & _). by apply elem_of_nil in Hm. }
  rewrite Hrow. destruct (succeeds (strftime (msg_timestamp message))) eqn:E;
    simpl.
  - rewrite elem_of_union, elem_of_singleton, IH. split.
    + intros [->|(m & Hm & Hi & Hs)].
      * exists message. split; [by left|done].
      * exists m. split; [by right|done].
    + intros (m & Hm & Hi & Hs). apply elem_of_cons in Hm as [->|Hm];
        [by left|right; eauto].
  - rewrite IH. split.
    + intros (m & Hm & Hi & Hs). exists m. split; [by right|done].
    + intros (m & Hm & Hi & Hs). apply elem_of_cons in Hm as [->|Hm];
        [congruence|eauto].
Qed.

(** [update_messages_table], run: the rows of the unseen messages are
    appended. *)
Lemma update_messages_table_run strftime messages ui :
  ∃ rows,
    messagesTable (update_messages_table strftime messages ui) =
      messagesTable ui ++ rows ∧
    Forall2 (row_for strftime)
      (unseen (messagesTable ui) messages) rows.
Proof.
  unfold update_messages_table, unseen.
  destruct messages as [|m0 rest] eqn:E; simpl.
  { exists []. rewrite app_nil_r. split; [done|]. constructor. }
  rewrite <- E. clear E.
  destruct (is_nil (filter _ messages) && negb (is_nil (messagesTable ui)))
    eqn:Hskip.
  - apply andb_true_iff in Hskip as [Hnil _].
    exists []. rewrite app_nil_r. split; [done|].
    destruct (filter _ messages); [constructor|done].
  - apply add_rows_table.
Qed.

Lemma update_messages_table_stores strftime messages ui message :
  message ∈ messages →
  succeeds (strftime (msg_timestamp message)) = true →
  msg_id message ∈
    existing_ids (messagesTable (update_messages_table strftime messages ui)).
Proof.
  intros Hin Hs.
  destruct (update_messages_table_run strftime messages ui)
    as (rows & -> & Hrows).
  rewrite existing_ids_app.
  destruct (decide (msg_id message ∈ existing_ids (messagesTable ui)))
    as [Hseen|Hnew]; [by apply elem_of_union_l|].
  apply elem_of_union_r.
  apply (existing_ids_rows strftime _ _ Hrows). exists message.
  repeat split; try done. unfold unseen. by apply list_elem_of_filter.
Qed.

(** X24: the messages table only grows, and by unseen messages only.
    [update_messages_table] never removes or changes a row: the table
    afterwards is the table before followed by one new row for each
    message of the argument whose id is not stored in the table before, in
    the order of the argument: the [i]-th new row is the row of the [i]-th
    such message.  A new row stores its message unless the timestamp could
    not be formatted; so every message of the argument whose timestamp
    formats has its id stored afterwards, and no id stored before is given
    a second row. *)
Theorem messages_table_appends_unseen strftime messages ui :
  let table := messagesTable ui in
  let table' := messagesTable (update_messages_table strftime messages ui) in
  ∃ rows, table' = table ++ rows ∧
    length rows = length (unseen table messages) ∧
    unseen table messages `sublist_of` messages ∧
    Forall2 (row_for strftime) (unseen table messages) rows ∧
    (∀ i message, unseen table messages !! i = Some message →
       ∃ row, rows !! i = Some row ∧ row_for strftime message row) ∧
    (∀ row message, row ∈ rows → stored row = Some message →
       message ∈ messages ∧ msg_id message ∉ existing_ids table) ∧
    (∀ message, message ∈ messages →
       succeeds (strftime (msg_timestamp message)) = true →
       msg_id message ∈ existing_ids table').
Proof.
  simpl.
  destruct (update_messages_table_run strftime messages ui)
    as (rows & E & Hrows).
  rewrite E. exists rows. split; [done|].
  split; [symmetry; by eapply Forall2_length|].
  split; [apply sublist_filter|].
  split; [done|].
  split; [intros i message Hi; by eapply Forall2_lookup_l|].
  split.
  - intros row message Hrow Hstored.
    apply list_elem_of_lookup in Hrow as [i Hi].
    destruct (Forall2_lookup_r _ _ _ _ _ Hrows Hi) as (m & Hm & Hs).
    unfold row_for in Hs. rewrite Hstored in Hs.
    destruct (succeeds (strftime (msg_timestamp m))); [|done].
    injection Hs as ->.
    apply list_elem_of_lookup_2 in Hm. unfold unseen in Hm.
    by apply list_elem_of_filter in Hm as [? ?].
  - intros message Hin Hs. rewrite <- E.
    by apply update_messages_table_stores.
Qed.


Lemma messages_table_appends_unseen_witness :
  length (messagesTable
            (update_messages_table (fun _ => Ok "2023-11-14 22:13:20")
               [text_record "orders" "ID:1" "a";
                text_record "orders" "ID:2" "b"]
               one_row)) = 3.
Proof.
  destruct (messages_table_appends_unseen (fun _ => Ok "2023-11-14 22:13:20")
              [text_record "orders" "ID:1" "a";
               text_record "orders" "ID:2" "b"] one_row)
    as (rows & E & Hlen & _).
  rewrite E, length_app, Hlen. vm_compute. reflexivity.
Defined.

(** X25: showing the same messages again changes nothing.  If the
    timestamps of the messages format, a second [update_messages_table]
    with the same list, or with any list of messages whose ids the first
    call was given, leaves the table and the log exactly as the first call
    left them: the poll loop can broadcast the whole cache every time. *)
Theorem messages_table_update_idempotent strftime messages again ui :
  Forall (fun message => succeeds (strftime (msg_timestamp message)) = true)
    messages →
  Forall (fun message => msg_id message ∈ msg_id <$> messages) again →
  update_messages_table strftime again
    (update_messages_table strftime messages ui) =
  update_messages_table strftime messages ui.
Proof.
  intros Hfmt Hagain.
  destruct again as [|a0 rest0] eqn:E; [done|]. rewrite <- E in *.
  assert (Hseen : ∀ a, a ∈ again →
            msg_id a ∈ existing_ids
              (messagesTable (update_messages_table strftime messages ui))).
  { intros a Ha. rewrite Forall_forall in Hagain.
    apply Hagain in Ha. apply list_elem_of_fmap in Ha as (m & -> & Hm).
    apply update_messages_table_stores; [done|].
    rewrite Forall_forall in Hfmt. by apply Hfmt. }
  unfold update_messages_table at 1.
  replace (is_nil again) with false by (by rewrite E).
  assert (Hnone : filter
            (fun message =>
               msg_id message ∉
                 existing_ids
                   (messagesTable (update_messages_table strftime messages ui)))
            again = []).
  { match goal with |- ?l = [] => destruct l as [|a l'] eqn:Hl end; [done|].
    assert (Ha : a ∈ a :: l') by (by left).
    rewrite <- Hl in Ha. apply list_elem_of_filter in Ha as [Hnot Ha].
    by destruct (Hnot (Hseen a Ha)). }
  rewrite Hnone. simpl.
  destruct (messagesTable (update_messages_table strftime messages ui))
    eqn:Htable; [|done].
  exfalso. specialize (Hseen a0). rewrite E in Hseen.
  specialize (Hseen ltac:(by left)). unfold existing_ids in Hseen.
  simpl in Hseen. by apply not_elem_of_empty in Hseen.
Qed.

Lemma messages_table_update_idempotent_witness :
  update_messages_table (fun _ => Ok "2023-11-14 22:13:20")
    [text_record "orders" "ID:2" "b"]
    (update_messages_table (fun _ => Ok "2023-11-14 22:13:20")
       [text_record "orders" "ID:1" "a"; text_record "orders" "ID:2" "b"]
       one_row) =
  update_messages_table (fun _ => Ok "2023-11-14 22:13:20")
    [text_record "orders" "ID:1" "a"; text_record "orders" "ID:2" "b"]
    one_row.
Proof.
  apply messages_table_update_idempotent.
  - by repeat constructor.
  - apply Forall_cons. split; [|constructor].
    simpl. apply elem_of_cons. right. apply list_elem_of_here.
Defined.

(** ** The monitor thread's lane *)

Lemma lane_refl queues s : lane queues s s.
Proof. by repeat split. Qed.

Lemma lane_trans queues s1 s2 s3 :
  lane queues s1 s2 → lane queues s2 s3 → lane queues s1 s3.
Proof.
  intros (A1 & A2 & A3 & A4 & (A5 & A6 & A7) & A8 & A9 & A10 & A11)
         (B1 & B2 & B3 & B4 & (B5 & B6 & B7) & B8 & B9 & B10 & B11).
  unfold lane, same_lists.
  rewrite B1, B2, B3, B4, B5, B6, B7, B8, B9, B10.
  repeat (split; [done|]). intros key Hkey.
  by rewrite B11, A11.
Qed.

Lemma lane_events queues evs s : lane queues s (add_events evs s).
Proof. by repeat split. Qed.

Lemma lane_insert queues q messages s :
  q ∈ queues →
  lane queues s
    (set_message_cache (<[queue_key q := messages]> (message_cache s)) s).
Proof.
  intros Hq. unfold lane, same_lists. simpl.
  repeat (split; [done|]). intros key Hkey.
  apply lookup_insert_ne. intros <-. apply Hkey.
  apply list_elem_of_fmap. eauto.
Qed.

Lemma lane_poll_queue env now q st s queues :
  q ∈ queues →
  ∃ st' s', poll_queue env now q st s = (Ok st', s') ∧ lane queues s s'.
Proof.
  intros Hq. unfold poll_queue.
  destruct (bool_decide _).
  { eexists _, _. split; [done|]. apply lane_refl. }
  py_unfold.
  destruct (browse_queue_run env q false true true s) as [evs ->].
  simpl. destruct (is_nil _).
  { eexists _, _. split; [done|]. apply lane_events. }
  destruct (last_message_ids st.1 !! q) as [seen|]; simpl.
  2:{ eexists _, _. split; [done|]. apply lane_events. }
  destruct (bool_decide _); simpl.
  2:{ eexists _, _. split; [done|]. apply lane_events. }
  eexists _, _. split; [done|].
  unfold lane, same_lists. simpl. repeat (split; [done|]).
  intros key Hkey. apply lookup_insert_ne. intros <-. apply Hkey.
  apply list_elem_of_fmap. eauto.
Qed.

Lemma lane_poll_queues envs now queues all st s :
  queues ⊆ all →
  ∃ st' s', poll_queues envs now queues st s = (Ok st', s') ∧ lane all s s'.
Proof.
  revert st s. induction queues as [|q rest IH]; intros st s Hsub; simpl.
  { eexists _, _. split; [done|]. apply lane_refl. }
  unfold py_bind.
  destruct (lane_poll_queue (envs q) now q st s all) as (st1 & s1 & -> & H1).
  { apply Hsub. by left. }
  destruct (IH st1 s1) as (st2 & s2 & -> & H2).
  { intros x Hx. apply Hsub. by right. }
  eexists _, _. split; [done|]. by eapply lane_trans.
Qed.

Lemma lane_queues queues s s' : lane queues s s' → queues_of s' = queues_of s.
Proof.
  intros (_ & _ & _ & _ & (H1 & H2 & _) & _). unfold queues_of.
  by rewrite H1, H2.
Qed.

Lemma lane_monitor_tick envs now locals s :
  ∃ locals' s', monitor_tick envs now locals s = (Ok locals', s') ∧
                lane (queues_of s) s s'.
Proof.
  unfold monitor_tick, deref. py_unfold. simpl. fold (queues_of s).
  destruct (lane_poll_queues envs now (queues_of s) (queues_of s)
              (locals, false) s) as (st' & s' & -> & H); [done|].
  destruct st'.2; simpl.
  - destruct (negb (is_nil _)); simpl; eexists _, _; (split; [done|]);
      [eapply lane_trans; [exact H|apply lane_events]|done].
  - eexists _, _. split; [done|]. done.
Qed.

Lemma lane_initial_browse envs queues all found s :
  queues ⊆ all →
  ∃ found' s', initial_browse envs queues found s = (Ok found', s') ∧
               lane all s s'.
Proof.
  revert found s. induction queues as [|q rest IH]; intros found s Hsub;
    simpl.
  { eexists _, _. split; [done|]. apply lane_refl. }
  py_unfold.
  destruct (browse_queue_run (envs q) q false true true s) as [evs ->].
  simpl.
  match goal with |- context [initial_browse envs rest ?l ?s1] =>
    destruct (IH l s1) as (found' & s' & -> & H) end.
  { intros x Hx. apply Hsub. by right. }
  eexists _, _. split; [done|].
  eapply (lane_trans _ _ (add_events evs s)); [apply lane_events|].
  eapply lane_trans; [|exact H].
  apply (lane_insert all q _ (add_events evs s)). apply Hsub. by left.
Qed.

Lemma lane_monitor_initial envs now s :
  ∃ locals s', monitor_initial envs now s = (Ok locals, s') ∧
               lane (queues_of s) s s'.
Proof.
  unfold monitor_initial, deref. py_unfold. simpl. fold (queues_of s).
  destruct (lane_initial_browse envs (queues_of s) (queues_of s) [] s)
    as (found & s' & -> & H); [done|].
  destruct (negb (is_nil found)); simpl; eexists _, _; (split; [done|]);
    [eapply lane_trans; [exact H|apply lane_events]|done].
Qed.

Lemma lane_main_loop ticks locals s :
  ∃ s', main_loop ticks locals s = (Ok tt, s') ∧ lane (queues_of s) s s'.
Proof.
  revert locals s. induction ticks as [|[now envs] rest IH];
    intros locals s; simpl.
  { eexists. split; [done|]. apply lane_refl. }
  py_unfold. destruct (monitor_running s).
  2:{ eexists. split; [done|]. apply lane_refl. }
  destruct (lane_monitor_tick envs now locals s) as (locals' & s1 & -> & H1).
  destruct (IH locals' s1) as (s2 & -> & H2).
  eexists. split; [done|].
  rewrite (lane_queues _ _ _ H1) in H2. by eapply lane_trans.
Qed.

Lemma queue_key_not_topic_key q t : queue_key q ≠ topic_key t.
Proof. done. Qed.

(** X26: the monitor thread stays in its lane.  Whatever the broker
    answers and however long the thread runs, [queue_monitor_thread] never
    raises, and all it ever changes of the object are the cache entries of
    the monitored queues (and the trace): the handles, the running flag,
    the consumer table, the monitored lists and the cached destinations are
    as before, and so is every other cache entry, in particular what the
    listener callback has cached for any topic. *)
Theorem monitor_thread_stays_in_lane envs now ticks s :
  ∃ s', queue_monitor_thread envs now ticks s = (Ok tt, s') ∧
    lane (queues_of s) s s' ∧
    ∀ topic, topic_entry s' topic = topic_entry s topic.
Proof.
  unfold queue_monitor_thread. py_unfold.
  destruct (lane_monitor_initial envs now s) as (locals & s1 & -> & H1).
  destruct (lane_main_loop ticks locals s1) as (s2 & -> & H2).
  rewrite (lane_queues _ _ _ H1) in H2.
  assert (H : lane (queues_of s) s s2) by (by eapply lane_trans).
  exists s2. split; [done|]. split; [done|].
  intros topic. unfold topic_entry.
  destruct H as (_ & _ & _ & _ & _ & _ & _ & _ & Hcache).
  rewrite Hcache; [done|].
  intros (q & Hq & _)%list_elem_of_fmap.
  by apply (queue_key_not_topic_key q topic).
Qed.
(** ** What discovery puts on the wire *)

Section Confined.
Context {A B : Type} (allowed : Event → bool).

Lemma confined_ret (a : A) : confined allowed (py_ret a).
Proof.
  exists (Ok a). intros s. exists []. by rewrite add_events_nil.
Qed.

Lemma confined_call method (r : result A) :
  allowed (Call method) = true → confined allowed (call method r).
Proof.
  intros H. exists r. intros s. exists [Call method].
  split; [done|]. by repeat constructor.
Qed.

Lemma confined_bind (m : Py A) (f : A → Py B) :
  confined allowed m → (∀ a, confined allowed (f a)) →
  confined allowed (py_bind m f).
Proof.
  intros [[a|e] Hm] Hf.
  - destruct (Hf a) as [r Hr]. exists r. intros s.
    destruct (Hm s) as (evs & Hs & Hevs). unfold py_bind. rewrite Hs.
    destruct (Hr (add_events evs s)) as (evs' & -> & Hevs').
    rewrite add_events_app. eexists. split; [done|]. by apply Forall_app.
  - exists (Raise e). intros s. destruct (Hm s) as (evs & Hs & Hevs).
    unfold py_bind. rewrite Hs. by eexists.
Qed.

Lemma confined_attempt (m : Py A) :
  confined allowed m → confined allowed (attempt m).
Proof.
  intros [r Hm]. exists (Ok r). intros s.
  destruct (Hm s) as (evs & Hs & Hevs).
  unfold attempt. rewrite Hs. by eexists.
Qed.
End Confined.

Lemma confined_emit allowed sg :
  allowed (Emit sg) = true → confined allowed (emit sg).
Proof.
  intros H. exists (Ok tt). intros s. exists [Emit sg].
  split; [done|]. by repeat constructor.
Qed.

Lemma confined_when allowed b m :
  confined allowed m → confined allowed (when b m).
Proof. destruct b; [done|]. intros _. apply confined_ret. Qed.

Lemma confined_weaken {A} (p q : Event → bool) (m : Py A) :
  (∀ ev, p ev = true → q ev = true) → confined p m → confined q m.
Proof.
  intros Hpq [r Hm]. exists r. intros s.
  destruct (Hm s) as (evs & Hs & Hevs). exists evs. split; [done|].
  eapply Forall_impl; [exact Hevs|]. exact Hpq.
Qed.

Ltac confine :=
  repeat first
    [ apply confined_ret | apply confined_emit; reflexivity
    | apply confined_call; reflexivity
    | apply confined_attempt | apply confined_when
    | apply confined_bind | intros ?
    | progress (cbv beta; cbn [fst snd])
    | match goal with
      | |- confined _ (match ?x with _ => _ end) => destruct x
      | |- confined _ (if ?x then _ else _) => destruct x
      end ].

Lemma collect_queues_confined allowed all_queues queues :
  (∀ text, allowed (Emit (log_signal text)) = true) →
  confined allowed (collect_queues all_queues queues).
Proof.
  intros Hlog. revert queues.
  induction all_queues as [|queue rest IH]; intros queues;
    simpl; [apply confined_ret|].
  destruct (hasattr_getQueueName queue); [|apply IH].
  destruct (getQueueName queue); [|apply confined_ret].
  case_bool_decide; [apply IH|].
  apply confined_bind; [by apply confined_emit|intros _; apply IH].
Qed.

Lemma collect_topics_confined allowed all_topics topics :
  (∀ text, allowed (Emit (log_signal text)) = true) →
  confined allowed (collect_topics all_topics topics).
Proof.
  intros Hlog. revert topics.
  induction all_topics as [|topic rest IH]; intros topics;
    simpl; [apply confined_ret|].
  destruct (_ || _); [apply IH|].
  apply confined_bind; [by apply confined_emit|intros _; apply IH].
Qed.

Lemma drain_confined topic env range names :
  confined (fun ev => negb (is_listing ev)) (drain topic env range names).
Proof.
  revert names. induction range as [|i rest IH]; intros names;
    simpl; [apply confined_ret|].
  apply confined_bind; [by apply confined_attempt, confined_call|].
  intros [[msg|]|e]; [|apply IH|apply confined_ret].
  destruct (hasattr_getStringProperty msg); [|apply IH].
  destruct (destinationName msg) as [[name|]|]; try apply IH.
  destruct (_ && _); [|apply IH].
  apply confined_bind; [by apply confined_emit|intros _; apply IH].
Qed.

(** The primary strategy sets up no advisory consumer. *)
Lemma destination_source_confined env :
  confined passive (destination_source env).
Proof.
  unfold destination_source.
  destruct (hasattr_getDestinationSource env); [|apply confined_ret].
  apply confined_bind; [by apply confined_attempt, confined_call|].
  intros [?|?]; [|confine].
  apply confined_bind; [by apply collect_queues_confined|].
  intros [queues [?|?]]; cbn [fst snd]; [|confine].
  apply confined_bind; [by apply collect_topics_confined|]. confine.
Qed.

Lemma advisory_discovery_confined env :
  confined (fun ev => negb (is_listing ev)) (advisory_discovery env).
Proof.
  unfold advisory_discovery.
  apply confined_bind; [confine|]. intros [?|?]; [|confine].
  apply confined_bind; [apply drain_confined|].
  intros [queues [?|?]]; cbn [fst snd]; [|confine].
  apply confined_bind; [confine|]. intros [?|?]; [|confine].
  apply confined_bind; [apply drain_confined|].
  intros [topics [?|?]]; cbn [fst snd]; [|confine].
  apply confined_bind; [confine|]. intros [?|?]; confine.
Qed.

Lemma passive_not_listing ev : passive ev = true → negb (is_listing ev) = true.
Proof.
  unfold passive. by intros [[? _]%andb_true_iff _]%andb_true_iff.
Qed.

(** Both strategies, run: the events are no destination signals, and if
    the primary strategy lists something they set up no advisory
    consumer. *)
Lemma strategies_run env s :
  ∃ evs, strategies env s = (Ok (found env), add_events evs s) ∧
    Forall (fun ev => is_listing ev = false) evs ∧
    (nothing (listed env) = false →
       found env = listed env ∧
       Forall (fun ev => passive ev = true) evs).
Proof.
  assert (Hall : confined (fun ev => negb (is_listing ev)) (strategies env)).
  { unfold strategies. apply confined_bind.
    - eapply confined_weaken; [|apply destination_source_confined].
      apply passive_not_listing.
    - intros v. destruct (_ && _); [apply advisory_discovery_confined|].
      apply confined_ret. }
  destruct Hall as [r Hr].
  destruct (strategies_found env s) as [evs E].
  destruct (Hr s) as (evs' & E' & Hevs').
  rewrite E in E'. injection E' as <- Etr.
  assert (evs = evs') as <-.
  { by apply app_inv_head in Etr. }
  exists evs. split; [done|]. split.
  { eapply Forall_impl; [exact Hevs'|]. intros ev Hev. simpl in Hev.
    by apply negb_true_iff in Hev. }
  intros Hlisted.
  destruct (destination_source_confined env) as [r1 Hr1].
  assert (Hv : r1 = Ok (listed env) ∨ listed env = ([], [])).
  { unfold listed. destruct (Hr1 init) as (evs0 & -> & _). simpl.
    destruct r1; [by left|by right]. }
  destruct Hv as [->|Hv]; [|by rewrite Hv in Hlisted].
  assert (Hs : strategies env s = (Ok (listed env), add_events evs s) ∧
               Forall (fun ev => passive ev = true) evs).
  { unfold strategies, py_bind in *. destruct (Hr1 s) as (evs1 & E1 & Hevs1).
    rewrite E1 in E |- *. unfold nothing in Hlisted. rewrite Hlisted in E |- *.
    unfold py_ret in *. injection E as Ev Etr'.
    assert (evs1 = evs) as ->.
    { by apply app_inv_head in Etr'. }
    done. }
  destruct Hs as [Hs Hp]. rewrite E in Hs. by injection Hs as ->.
Qed.

Lemma calls_passive method (evs : list Event) :
  Forall (fun ev => passive ev = true) evs →
  method = "session.createTopic" ∨ method = "session.createConsumer" →
  calls method evs = 0.
Proof.
  intros Hall Hm. unfold calls.
  induction Hall as [|ev evs Hev _ IH]; [done|]. simpl.
  unfold passive in Hev.
  apply andb_true_iff in Hev as [[_ H1]%andb_true_iff H2].
  destruct Hm as [-> | ->].
  - apply negb_true_iff in H1. by rewrite H1.
  - apply negb_true_iff in H2. by rewrite H2.
Qed.

(** X27: [get_destinations] signals what it returns, and tries the
    advisory topics only as a fallback.  On a connected object the call
    never raises and ends by emitting the queues signal and then the
    topics signal with exactly the two lists it returns; it emits no other
    destination signal.  If the connection's destination source lists any
    queue or topic, that listing is what is returned, and the call creates
    no advisory topic and no consumer. *)
Theorem discovery_signals_what_it_returns env s :
  is_connected s = true →
  ∃ v quiet s',
    get_destinations env s = (Ok v, s') ∧
    trace s' =
      trace s ++ quiet ++
      [Emit (update_queues_signal v.1); Emit (update_topics_signal v.2)] ∧
    Forall (fun ev => is_listing ev = false) quiet ∧
    (nothing (listed env) = false →
       v = listed env ∧
       calls "session.createTopic" quiet = 0 ∧
       calls "session.createConsumer" quiet = 0).
Proof.
  intros Hc. destruct (connected_handles s Hc) as (c & h & Ec & Eh).
  unfold get_destinations. py_unfold. rewrite Ec, Eh. simpl.
  destruct (strategies_run env s) as (evs & -> & Hq & Hp). simpl.
  destruct (negb (is_nil (found env).1) || negb (is_nil (found env).2))
    eqn:Hfound; simpl.
  - eexists _, (evs ++ [_]), _. split; [reflexivity|]. simpl.
    split; [by rewrite <- !app_assoc|].
    split; [apply Forall_app; split; [done|by repeat constructor]|].
    intros Hl. destruct (Hp Hl) as [Ev Hpass]. split; [done|].
    rewrite !calls_app, !(calls_passive _ evs Hpass) by auto. done.
  - assert (Hno : nothing (listed env) = false → False).
    { intros Hl. destruct (Hp Hl) as [Ev _]. rewrite <- Ev in Hl.
      unfold nothing in Hl. apply orb_false_iff in Hfound as [H1 H2].
      apply negb_false_iff in H1, H2. by rewrite H1, H2 in Hl. }
    destruct (_cached_queues s) as [cq|], (_cached_topics s) as [ct|]; simpl;
      eexists _, (evs ++ [_]), _; (split; [reflexivity|]); simpl;
      (split; [by rewrite <- !app_assoc|]);
      (split; [apply Forall_app; split; [done|by repeat constructor]|]);
      intros Hl; by destruct (Hno Hl).
Qed.

Lemma discovery_signals_what_it_returns_witness :
  (get_destinations (broker_with ["orders"]) connected).1 =
  Ok (["orders"], []).
Proof.
  destruct (discovery_signals_what_it_returns (broker_with ["orders"])
              connected) as (v & quiet & s' & E & _ & _ & H).
  - reflexivity.
  - rewrite E. simpl. destruct H as (-> & _); [reflexivity|]. reflexivity.
Defined.
(** ** What a browse leaves open *)

Ltac cleanup_leaf :=
  repeat match goal with
         | H : ?x = (_, _) |- context [?x] => rewrite H
         end;
  simpl; eexists; split; [rewrite <- ?app_assoc; reflexivity|];
  split; reflexivity.

(** X28: what [browse_queue] closes.  On a connected object the browser
    is closed exactly when the browse opened its cursor and read it to the
    end of the loop (a browser whose [getEnumeration] raises, or whose
    cursor raises in the loop test [hasMoreElements()], is never closed),
    with one [close()] call.  The temporary session that a forced fresh
    browse opens is closed only if, besides, that [close()] of the browser
    succeeded: when the cursor cannot be opened, the loop test raises or
    the browser fails to close, the temporary session is left open. *)
Theorem browse_closes_after_scan env q u a f s :
  is_connected s = true →
  ∃ evs, trace (browse_queue env q u a f s).2 = trace s ++ evs ∧
    calls "browser.close" evs =
      (if scan_completes true env f then 1 else 0) ∧
    calls "temp_session.close" evs =
      (if opens_temp_session env f && scan_completes true env f &&
          browser_closes env f
       then 1 else 0).
Proof.
  intros Hc. destruct (connected_handles s Hc) as (c & h & Ec & Eh).
  unfold browse_queue, scan_completes, opens_temp_session, browser_closes,
    opened_browser.
  py_unfold. unfold mbind, result_bind. rewrite Ec, Eh. simpl.
  destruct (createQueue env); simpl; [|rewrite ?andb_false_r; cleanup_leaf].
  destruct f; simpl.
  - destruct (createSession env) as [temp|e1]; simpl.
    + destruct (temp_createBrowser env) as [b|e2]; simpl.
      * destruct (getEnumeration b) as [steps|e3]; simpl; [|cleanup_leaf].
        pose proof (scan_outcome q steps [] 0) as Hs.
        destruct (scan q steps [] 0) as [[messages n]|e0]; rewrite Hs;
          simpl; [|cleanup_leaf].
        destruct (browser_close b) as [[]|e4]; simpl.
        -- destruct (close temp) as [[]|e5]; simpl;
             destruct (bool_decide (0 < n) && negb a), u; cleanup_leaf.
        -- destruct (bool_decide (0 < n) && negb a), u; cleanup_leaf.
      * destruct (createBrowser env) as [b|e3]; simpl; [|cleanup_leaf].
        destruct (getEnumeration b) as [steps|e4]; simpl; [|cleanup_leaf].
        pose proof (scan_outcome q steps [] 0) as Hs.
        destruct (scan q steps [] 0) as [[messages n]|e0]; rewrite Hs;
          simpl; [|cleanup_leaf].
        destruct (browser_close b) as [[]|e5]; simpl.
        -- destruct (close temp) as [[]|e6]; simpl;
             destruct (bool_decide (0 < n) && negb a), u; cleanup_leaf.
        -- destruct (bool_decide (0 < n) && negb a), u; cleanup_leaf.
    + destruct (createBrowser env) as [b|e3]; simpl; [|cleanup_leaf].
      destruct (getEnumeration b) as [steps|e4]; simpl; [|cleanup_leaf].
      pose proof (scan_outcome q steps [] 0) as Hs.
      destruct (scan q steps [] 0) as [[messages n]|e0]; rewrite Hs;
        simpl; [|cleanup_leaf].
      destruct (browser_close b) as [[]|e5]; simpl;
        destruct (bool_decide (0 < n) && negb a), u; cleanup_leaf.
  - destruct (createBrowser env) as [b|e3]; simpl; [|cleanup_leaf].
    destruct (getEnumeration b) as [steps|e4]; simpl; [|cleanup_leaf].
    pose proof (scan_outcome q steps [] 0) as Hs.
    destruct (scan q steps [] 0) as [[messages n]|e0]; rewrite Hs;
      simpl; [|cleanup_leaf].
    destruct (browser_close b) as [[]|e5]; simpl;
      destruct (bool_decide (0 < n) && negb a), u; cleanup_leaf.
Qed.

Lemma browse_closes_after_scan_witness :
  ∃ evs,
    trace (browse_queue (sample_browse_env []) "orders" true false true
             connected).2 = trace connected ++ evs ∧
    calls "temp_session.close" evs = 1.
Proof.
  destruct (browse_closes_after_scan (sample_browse_env []) "orders" true
              false true connected) as (evs & E & _ & H).
  - reflexivity.
  - exists evs. split; [exact E|exact H].
Defined.
(** ** Consumers and the table *)

Lemma in_sync_ext s s' :
  topic_consumers s' = topic_consumers s →
  broker_consumers s' = broker_consumers s →
  in_sync s → in_sync s'.
Proof. unfold in_sync. by intros -> ->. Qed.

Lemma remaining_all_closed consumers :
  ∀ opened,
    (∀ o, o ∈ opened →
       ∃ c, c ∈ consumers ∧ consumer_close c = Ok tt ∧
            consumer_id c = consumer_id o) →
    remaining consumers opened = [].
Proof.
  induction consumers as [|c rest IH]; intros opened Hall; simpl.
  - destruct opened as [|o opened]; [done|].
    destruct (Hall o) as (c & Hc & _); [by left|]. by apply elem_of_nil in Hc.
  - apply IH. intros o Ho.
    destruct (consumer_close c) as [[]|e] eqn:Hclose.
    + apply list_elem_of_filter in Ho as [Hne Ho].
      destruct (Hall o Ho) as (c' & Hc' & Hcl & Hid).
      apply elem_of_cons in Hc' as [->|Hc']; [by rewrite Hid in Hne|].
      eauto.
    + destruct (Hall o Ho) as (c' & Hc' & Hcl & Hid).
      apply elem_of_cons in Hc' as [->|Hc']; [by rewrite Hclose in Hcl|].
      eauto.
Qed.

(** A stop on an object in sync closes every consumer. *)
Lemma stop_sync s :
  in_sync s →
  broker_consumers (emergency_stop_monitoring s).2 = [] ∧
  topic_consumers (emergency_stop_monitoring s).2 = ∅.
Proof.
  intros [Hperm Hclose].
  destruct (emergency_stop_full s)
    as (evs & s' & -> & _ & Htc & _ & _ & _ & _ & _ & _ & _ & Hb & _).
  simpl. split; [|done]. rewrite Hb. apply remaining_all_closed.
  intros o Ho. exists o. rewrite Hperm in Ho. split; [done|].
  apply elem_of_table_consumers in Ho as [key Hkey].
  by destruct (Hclose key o Hkey).
Qed.

(** A granted listener on an object in sync, for a topic without table
    entry. *)
Lemma listener_sync env topic s :
  is_connected s = true →
  createTopic env = Ok tt → createConsumer env = Ok (Ok tt) →
  setMessageListener env = Ok tt →
  topic_key topic ∉ dom (topic_consumers s) → in_sync s →
  ∃ consumer s',
    create_topic_message_listener env topic s = (Ok (Some consumer), s') ∧
    in_sync s' ∧ is_connected s' = true ∧
    dom (topic_consumers s') = {[topic_key topic]} ∪ dom (topic_consumers s).
Proof.
  intros Hc Ht Hcons Hl Hnew [Hperm Hclose].
  destruct (create_topic_message_listener_creates env topic (Ok tt) s
              Hc Ht Hcons Hl) as (Hr & Hb & Htc).
  pose proof (preserves_create_listener is_connected blind_is_connected
                env topic s) as Hconn.
  destruct (create_topic_message_listener env topic s) as [r s'].
  simpl in *. subst r. eexists _, s'. split; [done|].
  split; [|split; [by rewrite Hconn|by rewrite Htc, dom_insert_L]].
  split.
  - rewrite Hb, Htc. rewrite map_to_list_insert.
    2:{ by apply not_elem_of_dom. }
    simpl. rewrite <- Hperm. by rewrite Permutation_app_comm.
  - intros key c. rewrite Htc. intros Hk.
    destruct (decide (key = topic_key topic)) as [->|Hne].
    + rewrite lookup_insert_eq in Hk. by injection Hk as <-.
    + rewrite lookup_insert_ne in Hk by done. by apply Hclose.
Qed.

Lemma setup_topics_sync envs topics :
  generous envs → NoDup topics →
  ∀ s, is_connected s = true → in_sync s →
    (∀ t, t ∈ topics → topic_key t ∉ dom (topic_consumers s)) →
    in_sync (setup_topics envs topics s).2 ∧
    dom (topic_consumers (setup_topics envs topics s).2) =
      dom (topic_consumers s) ∪ list_to_set (topic_key <$> topics).
Proof.
  intros Hgen. induction 1 as [|t rest Ht Hnd IH]; intros s Hc Hsync Hnew.
  { simpl. split; [done|]. set_solver. }
  destruct (Hgen t) as (G1 & G2 & G3).
  destruct (listener_sync (envs t) t s Hc G1 G2 G3) as
    (consumer & s1 & E & Hsync1 & Hc1 & Hdom1); [apply Hnew; by left|done|].
  simpl. py_unfold. rewrite E. simpl.
  destruct (IH s1 Hc1 Hsync1) as [Hs Hd].
  { intros t' Ht'. rewrite Hdom1. apply not_elem_of_union. split.
    - apply not_elem_of_singleton. intros Heq.
      apply topic_key_inj in Heq. by subst.
    - apply Hnew. by right. }
  destruct (setup_topics envs rest s1) as [r s2]. simpl in *.
  destruct r; simpl; (split; [done|]); rewrite Hd, Hdom1; set_solver.
Qed.
Lemma monitor_all_sync envs q t s :
  q ∈ dom (heap s) → t ∈ dom (heap s) →
  generous envs → is_connected s = true → in_sync s →
  NoDup (default [] (heap s !! t)) →
  ∃ s', monitor_all envs q t s = (Ok tt, s') ∧
    in_sync s' ∧ is_connected s' = true ∧
    dom (topic_consumers s') =
      list_to_set (topic_key <$> default [] (heap s !! t)).
Proof.
  intros Hq Ht Hgen Hc Hsync Hnd.
  pose proof (stop_keeps_objects s q Hq) as Hlq.
  pose proof (stop_keeps_objects s t Ht) as Hlt.
  destruct (stop_sync s Hsync) as [Hb Htc].
  destruct (emergency_stop_full s)
    as (evs & s1 & Hstop & _ & _ & _ & Hcn & Hs & _).
  unfold monitor_all. unfold py_bind at 1. rewrite Hstop in *. simpl in *.
  assert (Hc1 : is_connected s1 = true).
  { unfold is_connected in *. by rewrite Hcn, Hs. }
  assert (Hsync1 : in_sync s1).
  { split; [by rewrite Hb, Htc, map_to_list_empty|].
    intros key c. by rewrite Htc, lookup_empty. }
  unfold deref. py_unfold. simpl. rewrite Hlq, Hlt.
  destruct (is_nil (default [] (heap s !! q)) &&
            is_nil (default [] (heap s !! t))) eqn:Hnil.
  - simpl. apply andb_true_iff in Hnil as [_ Hnt].
    destruct (default [] (heap s !! t)); [|done].
    eexists. split; [reflexivity|].
    split; [by apply (in_sync_ext s1)|]. split; [exact Hc1|].
    simpl. rewrite Htc. set_solver.
  - unfold new_list; simpl.
    match goal with |- context [setup_topics envs ?ts ?s2] =>
      destruct (setup_topics_sync envs ts Hgen Hnd s2) as [Hs2 Hd2];
        [exact Hc1|by apply (in_sync_ext s1)|
         simpl; rewrite Htc; set_solver|];
      pose proof (preserves_setup_topics is_connected blind_is_connected
                    envs ts s2) as Hc2;
      destruct (steady_run (setup_topics envs ts) s2
                  (steady_setup_topics envs ts)) as (u & s3 & E & _)
    end.
    rewrite E in *. simpl in *.
    eexists. split; [reflexivity|].
    split; [by apply (in_sync_ext s3)|].
    split; [change (is_connected s3 = true); by rewrite Hc2|].
    simpl. rewrite Hd2, Htc. set_solver.
Qed.

Lemma monitor_all_sync_lists envs q t s :
  q ∈ dom (heap s) → t ∈ dom (heap s) →
  generous envs → is_connected s = true → in_sync s →
  NoDup (default [] (heap s !! t)) →
  ∃ s', monitor_all envs q t s = (Ok tt, s') ∧
    in_sync s' ∧ is_connected s' = true ∧
    dom (topic_consumers s') = list_to_set (topic_key <$> topics_of s').
Proof.
  intros Hq Ht Hgen Hc Hsync Hnd.
  destruct (monitor_all_sync envs q t s Hq Ht Hgen Hc Hsync Hnd)
    as (s' & E & H1 & H2 & H3).
  destruct (monitor_all_run envs q t s Hq Ht) as (s'' & E' & _ & Hts & _).
  rewrite E in E'. injection E' as <-.
  exists s'. by rewrite Hts.
Qed.

(** [start_monitoring] on an object in sync. *)
Lemma start_monitoring_sync envs name kind s :
  generous envs → is_connected s = true → lists_ok s →
  NoDup (topics_of s) → in_sync s →
  let s' := (start_monitoring envs name kind s).2 in
  is_connected s' = true ∧ lists_ok s' ∧ NoDup (topics_of s') ∧
  in_sync s' ∧
  dom (topic_consumers s') = list_to_set (topic_key <$> topics_of s').
Proof.
  intros Hgen Hc Hok Hnd Hsync.
  destruct (start_monitoring_run envs name kind s Hok)
    as (s' & E & Hok' & _ & Hts).
  simpl. rewrite E. simpl.
  assert (Hnd' : NoDup (topics_of s')).
  { rewrite Hts. destruct (_ && _); [done|].
    destruct (String.eqb kind "topic"); simpl; [|done].
    case_bool_decide; simpl; [done|]. by apply NoDup_snoc_new. }
  cut (is_connected s' = true ∧ in_sync s' ∧
       dom (topic_consumers s') = list_to_set (topic_key <$> topics_of s')).
  { intros (? & ? & ?). done. }
  clear Hts Hnd' Hok'. revert E. destruct Hok as (Hq & Ht & Hne).
  unfold start_monitoring, deref, list_append. py_unfold. simpl.
  fold (queues_of s) (topics_of s).
  destruct (String.eqb kind "queue" && _); simpl;
    [|destruct (String.eqb kind "topic" && _) eqn:Hk; simpl].
  - match goal with |- context [monitor_all envs ?q ?t ?sa] =>
      destruct (monitor_all_sync_lists envs q t sa)
        as (s'' & -> & H1 & H2 & H3) end;
      simpl; auto using dom_insert_old.
    { by rewrite lookup_insert_ne. }
    by intros [= <-].
  - apply andb_true_iff in Hk as [_ Hk]. apply negb_true_iff in Hk.
    apply bool_decide_eq_false in Hk.
    match goal with |- context [monitor_all envs ?q ?t ?sa] =>
      destruct (monitor_all_sync_lists envs q t sa)
        as (s'' & -> & H1 & H2 & H3) end;
      simpl; auto using dom_insert_old.
    { rewrite lookup_insert_eq. simpl. by apply NoDup_snoc_new. }
    by intros [= <-].
  - match goal with |- context [monitor_all envs ?q ?t ?sa] =>
      destruct (monitor_all_sync_lists envs q t sa)
        as (s'' & -> & H1 & H2 & H3) end; auto.
    by intros [= <-].
Qed.

(** X29: monitoring never piles up consumers.  Start from an object in
    sync: the consumers open on the broker are exactly those of the table,
    one per entry, and each closes.  If the broker grants every listener,
    then after any sequence of [start_monitoring] calls the object is in
    sync again, the monitored topics are without repetition, and after at
    least one call the table has an entry for exactly the monitored
    topics: every monitored topic has exactly one open consumer, and there
    is no other, however often monitoring is restarted. *)
Theorem monitoring_keeps_one_consumer_per_topic envs calls s :
  generous envs → is_connected s = true → lists_ok s →
  NoDup (topics_of s) → in_sync s →
  let s' := start_each envs calls s in
  in_sync s' ∧ NoDup (topics_of s') ∧
  (calls ≠ [] →
     dom (topic_consumers s') = list_to_set (topic_key <$> topics_of s') ∧
     length (broker_consumers s') = length (topics_of s')).
Proof.
  intros Hgen Hc Hok Hnd Hsync. simpl.
  cut (is_connected (start_each envs calls s) = true ∧
       lists_ok (start_each envs calls s) ∧
       NoDup (topics_of (start_each envs calls s)) ∧
       in_sync (start_each envs calls s) ∧
       (calls ≠ [] →
        dom (topic_consumers (start_each envs calls s)) =
          list_to_set (topic_key <$> topics_of (start_each envs calls s)))).
  { intros (_ & _ & H1 & H2 & H3). split; [done|]. split; [done|].
    intros Hne. specialize (H3 Hne). split; [done|].
    destruct H2 as [Hperm _]. rewrite Hperm, length_fmap.
    rewrite <- (length_fmap topic_key (topics_of _)).
    assert (Hsz : size (dom (topic_consumers (start_each envs calls s))) =
                  length (topic_key <$> topics_of (start_each envs calls s))).
    { rewrite H3. apply size_list_to_set.
      apply NoDup_fmap; [|done]. intros x y. apply topic_key_inj. }
    rewrite <- Hsz, size_dom. apply length_map_to_list. }
  induction calls as [|c calls IH] using rev_ind.
  { simpl. repeat (split; [done|]). done. }
  destruct IH as (I1 & I2 & I3 & I4 & _).
  rewrite start_each_snoc.
  destruct (start_monitoring_sync envs c.1 c.2 (start_each envs calls s)
              Hgen I1 I2 I3 I4) as (J1 & J2 & J3 & J4 & J5).
  repeat (split; [done|]). done.
Qed.

Lemma monitoring_keeps_one_consumer_per_topic_witness :
  length (broker_consumers
            (start_each (fun _ => willing_listener)
               [("alerts", "topic"); ("orders", "queue");
                ("alerts", "topic")] connected)) = 1.
Proof.
  destruct (monitoring_keeps_one_consumer_per_topic
              (fun _ => willing_listener)
              [("alerts", "topic"); ("orders", "queue"); ("alerts", "topic")]
              connected) as (_ & _ & H).
  - intros t. repeat split.
  - reflexivity.
  - split; [|split]; [| |done]; apply elem_of_dom; eexists; vm_compute;
      reflexivity.
  - vm_compute. constructor.
  - split; [vm_compute; reflexivity|]. intros key c H. vm_compute in H.
    discriminate H.
  - destruct H as [_ ->]; [done|]. vm_compute. reflexivity.
Defined.
